(** * Collaborative canvas: a shallow embedding of the synchronisation core

    The development follows the Lightning web components
    [collab_collaborativeCanvas] (the editor), [collab_canvasDrawingUtils]
    and [collab_canvasViewerOnly] (the read-only viewer).

    Conventions of the embedding:
    - Integer-valued numbers (z-order, millisecond clocks) are [Z]; they
      stay far inside the range in which binary64 is exact.
    - The geometry of the Scene is carried as exact rationals ([Q]): the
      statements made over it rest on copies and comparisons of coordinates,
      not on the rounding of sums.  Where rounding decides the outcome (the
      cursor gate of [sendCursorUpdate], the displacement of an anchor
      point) the numbers are binary64 ([float]), with the operations of
      the source in the order of the source.
    - A field that may be missing is an [option]; [undefined] and [null] are
      both [None].  Fields that none of the embedded functions reads (the
      record-card attributes, [childOffsets]) are left out of the records.
    - The three collections are lists in array order.  A reference to a scene
      entity held outside them ([selectedObject], [hoveredStroke], ...) is
      the id the entity carries, and reading through the reference looks the
      id up in the collection.  The two agree as long as the entity referred
      to is still in its collection.
    - [JSON.parse(JSON.stringify(v))] is the identity on the modelled values.
    - Calls that leave the component (toasts, Apex calls, console output) are
      appended to a log; the outcome of an awaited call is a parameter of the
      function that awaits it, and each handler runs to completion.  The
      [publish...] functions, which nobody waits for and which touch no state
      after their [await], are entries of the log; [sendCursorUpdate], which
      nobody waits for either and which writes state after its [await], is
      split there. *)

From Stdlib Require Import List String ZArith QArith Qabs Qminmax Bool Lia Lqa.
From Stdlib Require Import Floats.
Import ListNotations.

Local Open Scope Z_scope.
Local Open Scope string_scope.

Set Implicit Arguments.

(** Decimal literals denote the nearest binary64 number, as in JavaScript. *)
#[local] Set Warnings "-inexact-float".

(** ** Constants of [collab_collaborativeCanvas.js] *)

Definition CURSOR_UPDATE_THROTTLE : Z := 50.
Definition DELTA_THRESHOLD : float := 10%float.

(** ** Data model *)

Record Point := mkPoint { px : Q; py : Q }.

(** Coordinate-wise rational equality of two points. *)
Definition pointEq (p q : Point) : Prop :=
  (px p == px q)%Q /\ (py p == py q)%Q.

Definition movePoint (dx dy : Q) (p : Point) : Point :=
  mkPoint (px p + dx)%Q (py p + dy)%Q.

(** [{x, y}] with binary64 coordinates. *)
Record FPoint := mkFPoint { fx : float; fy : float }.

Record Anchor := mkAnchor { objectId : string; position : string }.

Record CanvasObject := mkObject {
  o_id : string;
  o_type : string;
  o_x : Q;
  o_y : Q;
  o_width : Q;
  o_height : Q;
  o_zIndex : option Z;
  o_color : option string;
  o_borderColor : option string;
  o_borderWidth : option Q;
  o_text : option string;
  o_textColor : option string;
  o_textAlign : option string;
  o_textOverflow : option string;
  o_fontSize : option Q;
  o_children : option (list string);
  o_connectorIds : option (list string)
}.

Record Connector := mkConnector {
  c_id : string;
  c_connectorType : string;
  c_startX : Q;
  c_startY : Q;
  c_endX : Q;
  c_endY : Q;
  c_startAnchor : option Anchor;
  c_endAnchor : option Anchor;
  c_startPoint : option Point;
  c_endPoint : option Point;
  c_waypoints : option (list Point);
  c_controlPoint1 : option Point;
  c_controlPoint2 : option Point;
  c_label : option string;
  c_labelPosition : option Q;
  c_color : option string;
  c_lineWidth : option Q;
  c_zIndex : option Z
}.

(** A stroke as [startDrawing] creates it: [{id, type: 'stroke', color, width,
    points}].  It has no [zIndex]. *)
Record Stroke := mkStroke {
  s_id : string;
  s_color : string;
  s_width : Q;
  s_points : list Point
}.

(** The unit of persistence: [{objects, strokes, connectors}]. *)
Record Scene := mkScene {
  sc_objects : list CanvasObject;
  sc_strokes : list Stroke;
  sc_connectors : list Connector
}.

(** ** Array helpers ([find], [some], [filter], in-place update) *)

Section Arrays.
Variable A : Type.
Variable idOf : A -> string.

(** [arr.find(e => e.id === id)] *)
Definition findById (id : string) (l : list A) : option A :=
  find (fun e => idOf e =? id) l.

(** [arr.some(e => e.id === id)] *)
Definition someId (id : string) (l : list A) : bool :=
  existsb (fun e => idOf e =? id) l.

(** [arr.filter(e => e.id !== id)] *)
Definition removeId (id : string) (l : list A) : list A :=
  filter (fun e => negb (idOf e =? id)) l.

(** [const e = arr.find(e => e.id === id); if (e) { mutate e }]: the first
    entity carrying [id] is changed in place, the others are untouched. *)
Fixpoint updateFirst (id : string) (f : A -> A) (l : list A) : list A :=
  match l with
  | [] => []
  | e :: r => if idOf e =? id then f e :: r else e :: updateFirst id f r
  end.

(** Number of entities carrying [id]. *)
Definition countId (id : string) (l : list A) : nat :=
  List.length (filter (fun e => idOf e =? id) l).
End Arrays.

(** ** Geometry: [getAnchorPoint] of [collab_canvasDrawingUtils.js] *)

Section Geometry.
Local Open Scope Q_scope.

Definition getAnchorPoint (obj : CanvasObject) (position : string) : Point :=
  let x := o_x obj in
  let y := o_y obj in
  let w := o_width obj in
  let h := o_height obj in
  if (o_type obj =? "diamond")%string then
    let cx := x + w / (2 # 1) in
    let cy := y + h / (2 # 1) in
    if (position =? "top")%string then mkPoint cx y
    else if (position =? "bottom")%string then mkPoint cx (y + h)
    else if (position =? "left")%string then mkPoint x cy
    else if (position =? "right")%string then mkPoint (x + w) cy
    else mkPoint cx cy
  else if (o_type obj =? "triangle")%string then
    if (position =? "top")%string then mkPoint (x + w / (2 # 1)) y
    else if (position =? "bottom")%string then mkPoint (x + w / (2 # 1)) (y + h)
    else if (position =? "left")%string then mkPoint (x + w * (1 # 4)) (y + h * (1 # 2))
    else if (position =? "right")%string then mkPoint (x + w * (3 # 4)) (y + h * (1 # 2))
    else mkPoint (x + w / (2 # 1)) (y + h * (3 # 5))
  else
    if (position =? "top")%string then mkPoint (x + w / (2 # 1)) y
    else if (position =? "bottom")%string then mkPoint (x + w / (2 # 1)) (y + h)
    else if (position =? "left")%string then mkPoint x (y + h / (2 # 1))
    else if (position =? "right")%string then mkPoint (x + w) (y + h / (2 # 1))
    else mkPoint (x + w / (2 # 1)) (y + h / (2 # 1)).

End Geometry.

(** Which endpoint of a connector is asked for: ['start'] or anything else. *)
Inductive PointType := StartPoint | EndPoint.

(** [resolveConnectorPoint(connector, pointType)]: an anchor with a truthy
    [objectId] whose object is found resolves on the object's current
    geometry; otherwise the stored coordinates are returned. *)
Definition resolveConnectorPoint (objects : list CanvasObject)
    (connector : Connector) (pointType : PointType) : Point :=
  let anchor := match pointType with
                | StartPoint => c_startAnchor connector
                | EndPoint => c_endAnchor connector end in
  let x := match pointType with
           | StartPoint => c_startX connector
           | EndPoint => c_endX connector end in
  let y := match pointType with
           | StartPoint => c_startY connector
           | EndPoint => c_endY connector end in
  match anchor with
  | Some a =>
      if objectId a =? "" then mkPoint x y
      else match findById o_id (objectId a) objects with
           | Some obj => getAnchorPoint obj (position a)
           | None => mkPoint x y
           end
  | None => mkPoint x y
  end.

(** ** Anchors in binary64

    The anchor functions once more, on the numbers the program computes
    with.  An object is reduced to the fields that [getAnchorPoint] reads, a
    connector to its stored endpoints and anchors. *)

Module Binary64.

Record CanvasObject := mkObject {
  o_id : string;
  o_type : string;
  o_x : float;
  o_y : float;
  o_width : float;
  o_height : float
}.

Record Connector := mkConnector {
  c_id : string;
  c_startX : float;
  c_startY : float;
  c_endX : float;
  c_endY : float;
  c_startAnchor : option Anchor;
  c_endAnchor : option Anchor
}.

Record Scene := mkScene {
  objects : list CanvasObject;
  connectors : list Connector
}.

Section Geometry.
Local Open Scope float_scope.

(** [getAnchorPoint(obj, position)] of [collab_canvasDrawingUtils.js] *)
Definition getAnchorPoint (obj : CanvasObject) (position : string) : FPoint :=
  let x := o_x obj in
  let y := o_y obj in
  let w := o_width obj in
  let h := o_height obj in
  if (o_type obj =? "diamond")%string then
    let cx := x + w / 2 in
    let cy := y + h / 2 in
    if (position =? "top")%string then mkFPoint cx y
    else if (position =? "bottom")%string then mkFPoint cx (y + h)
    else if (position =? "left")%string then mkFPoint x cy
    else if (position =? "right")%string then mkFPoint (x + w) cy
    else mkFPoint cx cy
  else if (o_type obj =? "triangle")%string then
    if (position =? "top")%string then mkFPoint (x + w / 2) y
    else if (position =? "bottom")%string then mkFPoint (x + w / 2) (y + h)
    else if (position =? "left")%string then mkFPoint (x + w * 0.25) (y + h * 0.5)
    else if (position =? "right")%string then mkFPoint (x + w * 0.75) (y + h * 0.5)
    else mkFPoint (x + w / 2) (y + h * 0.6)
  else
    if (position =? "top")%string then mkFPoint (x + w / 2) y
    else if (position =? "bottom")%string then mkFPoint (x + w / 2) (y + h)
    else if (position =? "left")%string then mkFPoint x (y + h / 2)
    else if (position =? "right")%string then mkFPoint (x + w) (y + h / 2)
    else mkFPoint (x + w / 2) (y + h / 2).

(** [obj.x = x; obj.y = y]: what [Object.assign(obj, {id, x, y})] of
    [handleRemoteObjectMove] and the dragging branch of [handleMouseMove] do
    to the position. *)
Definition moveTo (x y : float) (obj : CanvasObject) : CanvasObject :=
  mkObject (o_id obj) (o_type obj) x y (o_width obj) (o_height obj).

(** [obj.x += dx; obj.y += dy]: the multi-selection drag of
    [handleMouseMove] and [moveGroupChildren]. *)
Definition translate (dx dy : float) (obj : CanvasObject) : CanvasObject :=
  mkObject (o_id obj) (o_type obj) (o_x obj + dx) (o_y obj + dy)
    (o_width obj) (o_height obj).

End Geometry.

(** [resolveConnectorPoint(connector, pointType)] *)
Definition resolveConnectorPoint (objects : list CanvasObject)
    (connector : Connector) (pointType : PointType) : FPoint :=
  let anchor := match pointType with
                | StartPoint => c_startAnchor connector
                | EndPoint => c_endAnchor connector end in
  let x := match pointType with
           | StartPoint => c_startX connector
           | EndPoint => c_endX connector end in
  let y := match pointType with
           | StartPoint => c_startY connector
           | EndPoint => c_endY connector end in
  match anchor with
  | Some a =>
      if objectId a =? "" then mkFPoint x y
      else match findById o_id (objectId a) objects with
           | Some obj => getAnchorPoint obj (position a)
           | None => mkFPoint x y
           end
  | None => mkFPoint x y
  end.

(** [handleRemoteObjectMove(payload)] for the payload [{id, x, y}] that
    [publishObjectMove] sends. *)
Definition handleRemoteObjectMove (id : string) (x y : float) (sc : Scene) : Scene :=
  match findById o_id id (objects sc) with
  | Some _ => mkScene (updateFirst o_id id (moveTo x y) (objects sc)) (connectors sc)
  | None => sc
  end.


End Binary64.

(** ** Partial updates carried by event payloads

    A payload is parsed JSON.  For [Object.assign(obj, payload)] and
    [{...connector, ...payload}] only the keys present in the payload are
    written: [None] in a patch is an absent key, [Some v] writes [v] (for a
    nullable field [v] may itself be [None], the payload's [null]). *)

Record ObjectPatch := mkObjectPatch {
  op_id : string;
  op_type : option string;
  op_x : option Q;
  op_y : option Q;
  op_width : option Q;
  op_height : option Q;
  op_zIndex : option (option Z);
  op_color : option (option string);
  op_borderColor : option (option string);
  op_borderWidth : option (option Q);
  op_text : option (option string);
  op_textColor : option (option string);
  op_textAlign : option (option string);
  op_textOverflow : option (option string);
  op_fontSize : option (option Q);
  op_children : option (option (list string));
  op_connectorIds : option (option (list string))
}.

Definition orElse {T : Type} (new : option T) (old : T) : T :=
  match new with Some v => v | None => old end.

(** [Object.assign(obj, payload)] *)
Definition assignObject (obj : CanvasObject) (payload : ObjectPatch) : CanvasObject :=
  mkObject (op_id payload)
    (orElse (op_type payload) (o_type obj))
    (orElse (op_x payload) (o_x obj))
    (orElse (op_y payload) (o_y obj))
    (orElse (op_width payload) (o_width obj))
    (orElse (op_height payload) (o_height obj))
    (orElse (op_zIndex payload) (o_zIndex obj))
    (orElse (op_color payload) (o_color obj))
    (orElse (op_borderColor payload) (o_borderColor obj))
    (orElse (op_borderWidth payload) (o_borderWidth obj))
    (orElse (op_text payload) (o_text obj))
    (orElse (op_textColor payload) (o_textColor obj))
    (orElse (op_textAlign payload) (o_textAlign obj))
    (orElse (op_textOverflow payload) (o_textOverflow obj))
    (orElse (op_fontSize payload) (o_fontSize obj))
    (orElse (op_children payload) (o_children obj))
    (orElse (op_connectorIds payload) (o_connectorIds obj)).

Record ConnectorPatch := mkConnectorPatch {
  cp_id : string;
  cp_connectorType : option string;
  cp_startX : option Q;
  cp_startY : option Q;
  cp_endX : option Q;
  cp_endY : option Q;
  cp_startAnchor : option (option Anchor);
  cp_endAnchor : option (option Anchor);
  cp_startPoint : option (option Point);
  cp_endPoint : option (option Point);
  cp_waypoints : option (option (list Point));
  cp_controlPoint1 : option (option Point);
  cp_controlPoint2 : option (option Point);
  cp_label : option (option string);
  cp_labelPosition : option (option Q);
  cp_color : option (option string);
  cp_lineWidth : option (option Q);
  cp_zIndex : option (option Z)
}.

(** [{...connector, ...payload}] and [Object.assign(conn, state)] *)
Definition assignConnector (conn : Connector) (payload : ConnectorPatch) : Connector :=
  mkConnector (cp_id payload)
    (orElse (cp_connectorType payload) (c_connectorType conn))
    (orElse (cp_startX payload) (c_startX conn))
    (orElse (cp_startY payload) (c_startY conn))
    (orElse (cp_endX payload) (c_endX conn))
    (orElse (cp_endY payload) (c_endY conn))
    (orElse (cp_startAnchor payload) (c_startAnchor conn))
    (orElse (cp_endAnchor payload) (c_endAnchor conn))
    (orElse (cp_startPoint payload) (c_startPoint conn))
    (orElse (cp_endPoint payload) (c_endPoint conn))
    (orElse (cp_waypoints payload) (c_waypoints conn))
    (orElse (cp_controlPoint1 payload) (c_controlPoint1 conn))
    (orElse (cp_controlPoint2 payload) (c_controlPoint2 conn))
    (orElse (cp_label payload) (c_label conn))
    (orElse (cp_labelPosition payload) (c_labelPosition conn))
    (orElse (cp_color payload) (c_color conn))
    (orElse (cp_lineWidth payload) (c_lineWidth conn))
    (orElse (cp_zIndex payload) (c_zIndex conn)).

(** [JSON.parse(JSON.stringify(conn))] used as the source of an
    [Object.assign]: every field of the snapshot is written back. *)
Definition connectorSnapshot (conn : Connector) : ConnectorPatch :=
  mkConnectorPatch (c_id conn)
    (Some (c_connectorType conn))
    (Some (c_startX conn)) (Some (c_startY conn))
    (Some (c_endX conn)) (Some (c_endY conn))
    (Some (c_startAnchor conn)) (Some (c_endAnchor conn))
    (Some (c_startPoint conn)) (Some (c_endPoint conn))
    (Some (c_waypoints conn))
    (Some (c_controlPoint1 conn)) (Some (c_controlPoint2 conn))
    (Some (c_label conn)) (Some (c_labelPosition conn))
    (Some (c_color conn)) (Some (c_lineWidth conn))
    (Some (c_zIndex conn)).

(** ** Undo and redo entries

    An entry is [{type, data, timestamp}]; the shape of [data] is fixed by
    [type] and by the stack the entry sits on.  [U_*] are the shapes read by
    [executeUndo], [R_*] the shapes read by [executeRedo]. *)

Inductive UndoData :=
| U_object_add (objectId : string)
| U_object_delete (object : CanvasObject)
| U_object_move (objectId : string) (previousX previousY : Q)
| U_object_resize (objectId : string)
    (previousX previousY previousWidth previousHeight : Q)
| U_object_style (objectId : string)
    (previousColor previousBorderColor previousTextAlign
       previousTextOverflow : option string)
    (previousFontSize : option Q)
| U_object_text (objectId : string) (previousText : option string)
| U_connector_add (connectorId : string)
| U_connector_delete (connector : Connector)
| U_connector_update (connectorId : string) (previousState : ConnectorPatch)
| U_stroke_add (strokeId : string)
| U_stroke_delete (stroke : Stroke)
| U_group_create (groupId : string)
| U_group_ungroup (group : CanvasObject)
| U_unknown (type : string).

Inductive RedoData :=
| R_object_add (object : CanvasObject)
| R_object_delete (objectId : string)
| R_object_move (objectId : string) (previousX previousY : Q)
| R_object_resize (objectId : string)
    (previousX previousY previousWidth previousHeight : Q)
| R_object_style (objectId : string)
    (previousColor previousBorderColor previousTextAlign
       previousTextOverflow : option string)
    (previousFontSize : option Q)
| R_object_text (objectId : string) (previousText : option string)
| R_connector_add (connector : Connector)
| R_connector_delete (connectorId : string)
| R_connector_update (connectorId : string) (previousState : ConnectorPatch)
| R_stroke_add (stroke : Stroke)
| R_stroke_delete (strokeId : string)
| R_group_create (group : CanvasObject)
| R_group_ungroup (groupId : string) (childIds : option (list string))
| R_unknown (type : string).

Record UndoAction := mkUndo { u_data : UndoData; u_timestamp : Z }.
Record RedoAction := mkRedo { r_data : RedoData; r_timestamp : Z }.

(** ** Calls that leave the component

    Toasts, Apex calls and console output are kept, in order, in a log. *)

Inductive Effect :=
| Toast (title message variant : string)
| Publish (eventType : string) (entityId : string)
| SaveCanvasState (canvasId : string) (state : Scene)
| LoadCanvasState (canvasId : string)
| UpdateCursor (canvasId : string) (x y : float)
| ConsoleWarn (message : string)
| ConsoleError (message : string).

(** ** The editor component's state *)

Record Canvas := mkCanvas {
  recordId : option string;
  stateLoadedForRecordId : option string;
  objects : list CanvasObject;
  strokes : list Stroke;
  connectors : list Connector;
  selectedObject : option string;
  selectedConnector : option string;
  selectedObjects : list string;
  selectedConnectors : list string;
  hoveredStroke : option string;
  hoveredObject : option string;
  hoveredConnector : option string;
  undoStack : list UndoAction;
  redoStack : list RedoAction;
  lastSentCursor : FPoint;
  lastCursorSendTime : Z;
  isLoading : bool;
  errorMessage : string;
  effects : list Effect
}.

(** [get canvasId() { return this.recordId || 'default-canvas'; }] *)
Definition canvasId (s : Canvas) : string :=
  match recordId s with
  | Some r => if r =? "" then "default-canvas" else r
  | None => "default-canvas"
  end.

Definition scene (s : Canvas) : Scene :=
  mkScene (objects s) (strokes s) (connectors s).

(** Field updates ([this.f = v]). *)
Definition set_stateLoadedForRecordId (v : option string) (s : Canvas) : Canvas :=
  mkCanvas
    (recordId s) v (objects s) (strokes s) (connectors s) (selectedObject s)
    (selectedConnector s) (selectedObjects s) (selectedConnectors s)
    (hoveredStroke s) (hoveredObject s) (hoveredConnector s) (undoStack s)
    (redoStack s) (lastSentCursor s) (lastCursorSendTime s) (isLoading s)
    (errorMessage s) (effects s).

Definition set_objects (v : list CanvasObject) (s : Canvas) : Canvas :=
  mkCanvas
    (recordId s) (stateLoadedForRecordId s) v (strokes s) (connectors s)
    (selectedObject s) (selectedConnector s) (selectedObjects s)
    (selectedConnectors s) (hoveredStroke s) (hoveredObject s)
    (hoveredConnector s) (undoStack s) (redoStack s) (lastSentCursor s)
    (lastCursorSendTime s) (isLoading s) (errorMessage s) (effects s).

Definition set_strokes (v : list Stroke) (s : Canvas) : Canvas :=
  mkCanvas
    (recordId s) (stateLoadedForRecordId s) (objects s) v (connectors s)
    (selectedObject s) (selectedConnector s) (selectedObjects s)
    (selectedConnectors s) (hoveredStroke s) (hoveredObject s)
    (hoveredConnector s) (undoStack s) (redoStack s) (lastSentCursor s)
    (lastCursorSendTime s) (isLoading s) (errorMessage s) (effects s).

Definition set_connectors (v : list Connector) (s : Canvas) : Canvas :=
  mkCanvas
    (recordId s) (stateLoadedForRecordId s) (objects s) (strokes s) v
    (selectedObject s) (selectedConnector s) (selectedObjects s)
    (selectedConnectors s) (hoveredStroke s) (hoveredObject s)
    (hoveredConnector s) (undoStack s) (redoStack s) (lastSentCursor s)
    (lastCursorSendTime s) (isLoading s) (errorMessage s) (effects s).

Definition set_selectedObject (v : option string) (s : Canvas) : Canvas :=
  mkCanvas
    (recordId s) (stateLoadedForRecordId s) (objects s) (strokes s)
    (connectors s) v (selectedConnector s) (selectedObjects s)
    (selectedConnectors s) (hoveredStroke s) (hoveredObject s)
    (hoveredConnector s) (undoStack s) (redoStack s) (lastSentCursor s)
    (lastCursorSendTime s) (isLoading s) (errorMessage s) (effects s).

Definition set_selectedConnector (v : option string) (s : Canvas) : Canvas :=
  mkCanvas
    (recordId s) (stateLoadedForRecordId s) (objects s) (strokes s)
    (connectors s) (selectedObject s) v (selectedObjects s)
    (selectedConnectors s) (hoveredStroke s) (hoveredObject s)
    (hoveredConnector s) (undoStack s) (redoStack s) (lastSentCursor s)
    (lastCursorSendTime s) (isLoading s) (errorMessage s) (effects s).

Definition set_hoveredStroke (v : option string) (s : Canvas) : Canvas :=
  mkCanvas
    (recordId s) (stateLoadedForRecordId s) (objects s) (strokes s)
    (connectors s) (selectedObject s) (selectedConnector s)
    (selectedObjects s) (selectedConnectors s) v (hoveredObject s)
    (hoveredConnector s) (undoStack s) (redoStack s) (lastSentCursor s)
    (lastCursorSendTime s) (isLoading s) (errorMessage s) (effects s).

Definition set_undoStack (v : list UndoAction) (s : Canvas) : Canvas :=
  mkCanvas
    (recordId s) (stateLoadedForRecordId s) (objects s) (strokes s)
    (connectors s) (selectedObject s) (selectedConnector s)
    (selectedObjects s) (selectedConnectors s) (hoveredStroke s)
    (hoveredObject s) (hoveredConnector s) v (redoStack s) (lastSentCursor s)
    (lastCursorSendTime s) (isLoading s) (errorMessage s) (effects s).

Definition set_redoStack (v : list RedoAction) (s : Canvas) : Canvas :=
  mkCanvas
    (recordId s) (stateLoadedForRecordId s) (objects s) (strokes s)
    (connectors s) (selectedObject s) (selectedConnector s)
    (selectedObjects s) (selectedConnectors s) (hoveredStroke s)
    (hoveredObject s) (hoveredConnector s) (undoStack s) v (lastSentCursor s)
    (lastCursorSendTime s) (isLoading s) (errorMessage s) (effects s).

Definition set_isLoading (v : bool) (s : Canvas) : Canvas :=
  mkCanvas
    (recordId s) (stateLoadedForRecordId s) (objects s) (strokes s)
    (connectors s) (selectedObject s) (selectedConnector s)
    (selectedObjects s) (selectedConnectors s) (hoveredStroke s)
    (hoveredObject s) (hoveredConnector s) (undoStack s) (redoStack s)
    (lastSentCursor s) (lastCursorSendTime s) v (errorMessage s) (effects s).

Definition set_errorMessage (v : string) (s : Canvas) : Canvas :=
  mkCanvas
    (recordId s) (stateLoadedForRecordId s) (objects s) (strokes s)
    (connectors s) (selectedObject s) (selectedConnector s)
    (selectedObjects s) (selectedConnectors s) (hoveredStroke s)
    (hoveredObject s) (hoveredConnector s) (undoStack s) (redoStack s)
    (lastSentCursor s) (lastCursorSendTime s) (isLoading s) v (effects s).

Definition set_selection (objs conns : list string) (s : Canvas) : Canvas :=
  mkCanvas
    (recordId s) (stateLoadedForRecordId s) (objects s) (strokes s)
    (connectors s) (selectedObject s) (selectedConnector s) objs conns
    (hoveredStroke s) (hoveredObject s) (hoveredConnector s) (undoStack s)
    (redoStack s) (lastSentCursor s) (lastCursorSendTime s) (isLoading s)
    (errorMessage s) (effects s).

Definition set_hoveredObject (v : option string) (s : Canvas) : Canvas :=
  mkCanvas
    (recordId s) (stateLoadedForRecordId s) (objects s) (strokes s)
    (connectors s) (selectedObject s) (selectedConnector s)
    (selectedObjects s) (selectedConnectors s) (hoveredStroke s) v
    (hoveredConnector s) (undoStack s) (redoStack s) (lastSentCursor s)
    (lastCursorSendTime s) (isLoading s) (errorMessage s) (effects s).

Definition set_hoveredConnector (v : option string) (s : Canvas) : Canvas :=
  mkCanvas
    (recordId s) (stateLoadedForRecordId s) (objects s) (strokes s)
    (connectors s) (selectedObject s) (selectedConnector s)
    (selectedObjects s) (selectedConnectors s) (hoveredStroke s)
    (hoveredObject s) v (undoStack s) (redoStack s) (lastSentCursor s)
    (lastCursorSendTime s) (isLoading s) (errorMessage s) (effects s).

Definition set_cursor (p : FPoint) (t : Z) (s : Canvas) : Canvas :=
  mkCanvas
    (recordId s) (stateLoadedForRecordId s) (objects s) (strokes s)
    (connectors s) (selectedObject s) (selectedConnector s)
    (selectedObjects s) (selectedConnectors s) (hoveredStroke s)
    (hoveredObject s) (hoveredConnector s) (undoStack s) (redoStack s) p t
    (isLoading s) (errorMessage s) (effects s).

(** Appends one entry to the log of outgoing calls. *)
Definition emit (e : Effect) (s : Canvas) : Canvas :=
  mkCanvas
    (recordId s) (stateLoadedForRecordId s) (objects s) (strokes s)
    (connectors s) (selectedObject s) (selectedConnector s)
    (selectedObjects s) (selectedConnectors s) (hoveredStroke s)
    (hoveredObject s) (hoveredConnector s) (undoStack s) (redoStack s)
    (lastSentCursor s) (lastCursorSendTime s) (isLoading s) (errorMessage s)
    (effects s ++ [e]).

(** [ref && ref.id === id] for a reference modelled by its id. *)
Definition refersTo (ref : option string) (id : string) : bool :=
  match ref with Some r => r =? id | None => false end.

(** ** Inbound events

    One constructor per branch of the dispatch in [handlePlatformEvent], each
    carrying the parsed payload its handler reads. *)

Inductive RemoteEvent :=
| Ev_object_add (payload : CanvasObject)
| Ev_object_move (payload : ObjectPatch)
| Ev_object_resize (id : string) (x y width height : Q)
| Ev_object_style (id : string) (color borderColor : option string)
    (borderWidth : option Q)
| Ev_object_delete (id : string)
| Ev_draw_stroke (payload : Stroke)
| Ev_stroke_delete (id : string)
| Ev_connector_add (payload : Connector)
| Ev_connector_update (payload : ConnectorPatch)
| Ev_connector_delete (id : string)
| Ev_object_layer (id : string) (zIndex : option Z)
| Ev_connector_layer (id : string) (zIndex : option Z)
| Ev_group_create (payload : CanvasObject)
| Ev_group_ungroup (groupId : string)
| Ev_user_join
| Ev_user_leave
| Ev_other (eventType : string).

(** The value of [collab_Event_Type__c] each branch is selected by. *)
Definition eventTypeOf (e : RemoteEvent) : string :=
  match e with
  | Ev_object_add _ => "object_add"
  | Ev_object_move _ => "object_move"
  | Ev_object_resize _ _ _ _ _ => "object_resize"
  | Ev_object_style _ _ _ _ => "object_style"
  | Ev_object_delete _ => "object_delete"
  | Ev_draw_stroke _ => "draw_stroke"
  | Ev_stroke_delete _ => "stroke_delete"
  | Ev_connector_add _ => "connector_add"
  | Ev_connector_update _ => "connector_update"
  | Ev_connector_delete _ => "connector_delete"
  | Ev_object_layer _ _ => "object_layer"
  | Ev_connector_layer _ _ => "connector_layer"
  | Ev_group_create _ => "group_create"
  | Ev_group_ungroup _ => "group_ungroup"
  | Ev_user_join => "user_join"
  | Ev_user_leave => "user_leave"
  | Ev_other t => t
  end.

(** [message.data.payload] of a platform event. *)
Record PlatformMessage := mkMessage {
  collab_User_Id : string;
  collab_Canvas_Id : string;
  collab_User_Name : string;
  collab_Event : RemoteEvent
}.

(** A truthy string: defined and not empty. *)
Definition truthyStr (v : option string) : bool :=
  match v with Some t => negb (t =? "") | None => false end.

Module Remote.

Definition handleRemoteObjectAdd (payload : CanvasObject) (s : Canvas) : Canvas :=
  let exists_ := someId o_id (o_id payload) (objects s) in
  if negb exists_ then set_objects (objects s ++ [payload]) s else s.

Definition handleRemoteObjectMove (payload : ObjectPatch) (s : Canvas) : Canvas :=
  match findById o_id (op_id payload) (objects s) with
  | Some _ =>
      set_objects
        (updateFirst o_id (op_id payload) (fun obj => assignObject obj payload)
           (objects s)) s
  | None => s
  end.

Definition resizeTo (x y width height : Q) (obj : CanvasObject) : CanvasObject :=
  mkObject (o_id obj) (o_type obj) x y width height (o_zIndex obj)
    (o_color obj) (o_borderColor obj) (o_borderWidth obj) (o_text obj)
    (o_textColor obj) (o_textAlign obj) (o_textOverflow obj) (o_fontSize obj)
    (o_children obj) (o_connectorIds obj).

Definition handleRemoteObjectResize (id : string) (x y width height : Q)
    (s : Canvas) : Canvas :=
  match findById o_id id (objects s) with
  | Some _ => set_objects (updateFirst o_id id (resizeTo x y width height) (objects s)) s
  | None => s
  end.

Definition restyle (color borderColor : option string) (borderWidth : option Q)
    (obj : CanvasObject) : CanvasObject :=
  mkObject (o_id obj) (o_type obj) (o_x obj) (o_y obj) (o_width obj)
    (o_height obj) (o_zIndex obj)
    (if truthyStr color then color else o_color obj)
    (if truthyStr borderColor then borderColor else o_borderColor obj)
    (match borderWidth with Some w => Some w | None => o_borderWidth obj end)
    (o_text obj) (o_textColor obj) (o_textAlign obj) (o_textOverflow obj)
    (o_fontSize obj) (o_children obj) (o_connectorIds obj).

Definition handleRemoteObjectStyle (id : string) (color borderColor : option string)
    (borderWidth : option Q) (s : Canvas) : Canvas :=
  match findById o_id id (objects s) with
  | Some _ =>
      set_objects (updateFirst o_id id (restyle color borderColor borderWidth)
                     (objects s)) s
  | None => s
  end.

Definition handleRemoteObjectDelete (id : string) (s : Canvas) : Canvas :=
  set_objects (removeId o_id id (objects s)) s.

Definition handleRemoteStroke (payload : Stroke) (s : Canvas) : Canvas :=
  let exists_ := someId s_id (s_id payload) (strokes s) in
  if negb exists_ then set_strokes (strokes s ++ [payload]) s else s.

Definition handleRemoteStrokeDelete (id : string) (s : Canvas) : Canvas :=
  let s1 := set_strokes (removeId s_id id (strokes s)) s in
  if refersTo (hoveredStroke s1) id then set_hoveredStroke None s1 else s1.

Definition handleRemoteConnectorAdd (payload : Connector) (s : Canvas) : Canvas :=
  let exists_ := someId c_id (c_id payload) (connectors s) in
  if negb exists_ then set_connectors (connectors s ++ [payload]) s else s.

Definition handleRemoteConnectorDelete (id : string) (s : Canvas) : Canvas :=
  let s1 := set_connectors (removeId c_id id (connectors s)) s in
  if refersTo (selectedConnector s1) id then set_selectedConnector None s1 else s1.

Definition handleRemoteConnectorUpdate (payload : ConnectorPatch) (s : Canvas) : Canvas :=
  match findById c_id (cp_id payload) (connectors s) with
  | Some _ =>
      let s1 := set_connectors
                  (updateFirst c_id (cp_id payload)
                     (fun c => assignConnector c payload) (connectors s)) s in
      if refersTo (selectedConnector s1) (cp_id payload)
      then set_selectedConnector (Some (cp_id payload)) s1
      else s1
  | None => s
  end.

Definition setObjectZ (z : option Z) (obj : CanvasObject) : CanvasObject :=
  mkObject (o_id obj) (o_type obj) (o_x obj) (o_y obj) (o_width obj)
    (o_height obj) z (o_color obj) (o_borderColor obj) (o_borderWidth obj)
    (o_text obj) (o_textColor obj) (o_textAlign obj) (o_textOverflow obj)
    (o_fontSize obj) (o_children obj) (o_connectorIds obj).

Definition setConnectorZ (z : option Z) (c : Connector) : Connector :=
  mkConnector (c_id c) (c_connectorType c) (c_startX c) (c_startY c) (c_endX c)
    (c_endY c) (c_startAnchor c) (c_endAnchor c) (c_startPoint c) (c_endPoint c)
    (c_waypoints c) (c_controlPoint1 c) (c_controlPoint2 c) (c_label c)
    (c_labelPosition c) (c_color c) (c_lineWidth c) z.

Definition handleRemoteLayerChange (id : string) (z : option Z) (s : Canvas) : Canvas :=
  match findById o_id id (objects s) with
  | Some _ => set_objects (updateFirst o_id id (setObjectZ z) (objects s)) s
  | None => s
  end.

Definition handleRemoteConnectorLayerChange (id : string) (z : option Z)
    (s : Canvas) : Canvas :=
  match findById c_id id (connectors s) with
  | Some _ => set_connectors (updateFirst c_id id (setConnectorZ z) (connectors s)) s
  | None => s
  end.

Definition handleRemoteGroupCreate (payload : CanvasObject) (s : Canvas) : Canvas :=
  if someId o_id (o_id payload) (objects s)
  then set_objects (updateFirst o_id (o_id payload) (fun _ => payload) (objects s)) s
  else set_objects (objects s ++ [payload]) s.

Definition handleRemoteGroupUngroup (groupId : string) (s : Canvas) : Canvas :=
  let s1 := set_objects (removeId o_id groupId (objects s)) s in
  if refersTo (selectedObject s1) groupId then set_selectedObject None s1 else s1.

End Remote.

(** [showToast(title, message, variant)] *)
Definition showToast (title message variant : string) (s : Canvas) : Canvas :=
  emit (Toast title message variant) s.

(** [saveStateForNewUser()]: the Apex call is issued with the whole scene; a
    rejected call is only logged. *)
Definition saveStateForNewUser (saveOk : bool) (s : Canvas) : Canvas :=
  let s1 := emit (SaveCanvasState (canvasId s) (scene s)) s in
  if saveOk then s1
  else emit (ConsoleError "Auto-save for new user failed") s1.

(** The [switch (eventType)] of [handlePlatformEvent]; [saveOk] is the
    outcome of the save a [user_join] triggers. *)
Definition dispatch (userName : string) (saveOk : bool) (event : RemoteEvent)
    (s : Canvas) : Canvas :=
  match event with
  | Ev_object_add payload => Remote.handleRemoteObjectAdd payload s
  | Ev_object_move payload => Remote.handleRemoteObjectMove payload s
  | Ev_object_resize id x y w h => Remote.handleRemoteObjectResize id x y w h s
  | Ev_object_style id c b w => Remote.handleRemoteObjectStyle id c b w s
  | Ev_object_delete id => Remote.handleRemoteObjectDelete id s
  | Ev_draw_stroke payload => Remote.handleRemoteStroke payload s
  | Ev_stroke_delete id => Remote.handleRemoteStrokeDelete id s
  | Ev_connector_add payload => Remote.handleRemoteConnectorAdd payload s
  | Ev_connector_update payload => Remote.handleRemoteConnectorUpdate payload s
  | Ev_connector_delete id => Remote.handleRemoteConnectorDelete id s
  | Ev_object_layer id z => Remote.handleRemoteLayerChange id z s
  | Ev_connector_layer id z => Remote.handleRemoteConnectorLayerChange id z s
  | Ev_group_create payload => Remote.handleRemoteGroupCreate payload s
  | Ev_group_ungroup groupId => Remote.handleRemoteGroupUngroup groupId s
  | Ev_user_join =>
      saveStateForNewUser saveOk
        (showToast "User Joined" (userName ++ " joined the canvas") "info" s)
  | Ev_user_leave =>
      showToast "User Left" (userName ++ " left the canvas") "info" s
  | Ev_other t => emit (ConsoleWarn ("Unknown event type: " ++ t)) s
  end.

(** [handlePlatformEvent(message)]: events of the running user ([userId]) and
    events of another canvas are dropped, the others are dispatched. *)
Definition handlePlatformEvent (userId : string) (saveOk : bool)
    (message : PlatformMessage) (s : Canvas) : Canvas :=
  if collab_User_Id message =? userId then s
  else if negb (collab_Canvas_Id message =? canvasId s) then s
  else dispatch (collab_User_Name message) saveOk (collab_Event message) s.

(** ** Undo/redo engine *)

Module History.

(** [recordAction(type, data)]; [now] is [Date.now()]. *)
Definition recordAction (data : UndoData) (now : Z) (s : Canvas) : Canvas :=
  let pushed := (undoStack s ++ [mkUndo data now])%list in
  let limited := if (5 <? Z.of_nat (List.length pushed))%Z then tl pushed else pushed in
  set_redoStack [] (set_undoStack limited s).

Definition moveTo (x y : Q) (obj : CanvasObject) : CanvasObject :=
  mkObject (o_id obj) (o_type obj) x y (o_width obj) (o_height obj)
    (o_zIndex obj) (o_color obj) (o_borderColor obj) (o_borderWidth obj)
    (o_text obj) (o_textColor obj) (o_textAlign obj) (o_textOverflow obj)
    (o_fontSize obj) (o_children obj) (o_connectorIds obj).

Definition restoreStyle (previousColor previousBorderColor previousTextAlign
    previousTextOverflow : option string) (previousFontSize : option Q)
    (obj : CanvasObject) : CanvasObject :=
  mkObject (o_id obj) (o_type obj) (o_x obj) (o_y obj) (o_width obj)
    (o_height obj) (o_zIndex obj)
    (match previousColor with Some _ => previousColor | None => o_color obj end)
    (match previousBorderColor with
     | Some _ => previousBorderColor | None => o_borderColor obj end)
    (o_borderWidth obj) (o_text obj) (o_textColor obj)
    (match previousTextAlign with
     | Some _ => previousTextAlign | None => o_textAlign obj end)
    (match previousTextOverflow with
     | Some _ => previousTextOverflow | None => o_textOverflow obj end)
    (match previousFontSize with
     | Some _ => previousFontSize | None => o_fontSize obj end)
    (o_children obj) (o_connectorIds obj).

Definition setText (text : option string) (obj : CanvasObject) : CanvasObject :=
  mkObject (o_id obj) (o_type obj) (o_x obj) (o_y obj) (o_width obj)
    (o_height obj) (o_zIndex obj) (o_color obj) (o_borderColor obj)
    (o_borderWidth obj) text (o_textColor obj) (o_textAlign obj)
    (o_textOverflow obj) (o_fontSize obj) (o_children obj) (o_connectorIds obj).

(** [executeUndo(action)]: the new state and the data for redo ([None] is the
    source's [return null]). *)
Definition executeUndo (data : UndoData) (s : Canvas) : Canvas * option RedoData :=
  match data with
  | U_object_add objectId =>
      match findById o_id objectId (objects s) with
      | None => (s, None)
      | Some obj =>
          let s1 := set_objects (removeId o_id objectId (objects s)) s in
          let s2 := emit (Publish "object_delete" objectId) s1 in
          let s3 := if refersTo (selectedObject s2) objectId
                    then set_selectedObject None s2 else s2 in
          (s3, Some (R_object_add obj))
      end
  | U_object_delete obj =>
      let s1 := set_objects (objects s ++ [obj]) s in
      (emit (Publish "object_add" (o_id obj)) s1, Some (R_object_delete (o_id obj)))
  | U_object_move objectId previousX previousY =>
      match findById o_id objectId (objects s) with
      | None => (s, None)
      | Some obj =>
          let s1 := set_objects
                      (updateFirst o_id objectId (moveTo previousX previousY)
                         (objects s)) s in
          (emit (Publish "object_move" (o_id obj)) s1,
           Some (R_object_move (o_id obj) (o_x obj) (o_y obj)))
      end
  | U_object_resize objectId previousX previousY previousWidth previousHeight =>
      match findById o_id objectId (objects s) with
      | None => (s, None)
      | Some obj =>
          let s1 := set_objects
                      (updateFirst o_id objectId
                         (Remote.resizeTo previousX previousY previousWidth
                            previousHeight) (objects s)) s in
          (emit (Publish "object_resize" (o_id obj)) s1,
           Some (R_object_resize (o_id obj) (o_x obj) (o_y obj) (o_width obj)
                   (o_height obj)))
      end
  | U_object_style objectId pc pb pa po pf =>
      match findById o_id objectId (objects s) with
      | None => (s, None)
      | Some obj =>
          let s1 := set_objects
                      (updateFirst o_id objectId (restoreStyle pc pb pa po pf)
                         (objects s)) s in
          (emit (Publish "object_style" (o_id obj)) s1,
           Some (R_object_style (o_id obj) (o_color obj) (o_borderColor obj)
                   (o_textAlign obj) (o_textOverflow obj) (o_fontSize obj)))
      end
  | U_object_text objectId previousText =>
      match findById o_id objectId (objects s) with
      | None => (s, None)
      | Some obj =>
          let s1 := set_objects
                      (updateFirst o_id objectId (setText previousText)
                         (objects s)) s in
          (emit (Publish "object_move" (o_id obj)) s1,
           Some (R_object_text (o_id obj) (o_text obj)))
      end
  | U_connector_add connectorId =>
      match findById c_id connectorId (connectors s) with
      | None => (s, None)
      | Some conn =>
          let s1 := set_connectors (removeId c_id connectorId (connectors s)) s in
          let s2 := emit (Publish "connector_delete" connectorId) s1 in
          let s3 := if refersTo (selectedConnector s2) connectorId
                    then set_selectedConnector None s2 else s2 in
          (s3, Some (R_connector_add conn))
      end
  | U_connector_delete conn =>
      let s1 := set_connectors (connectors s ++ [conn]) s in
      (emit (Publish "connector_add" (c_id conn)) s1,
       Some (R_connector_delete (c_id conn)))
  | U_connector_update connectorId previousState =>
      match findById c_id connectorId (connectors s) with
      | None => (s, None)
      | Some conn =>
          let s1 := set_connectors
                      (updateFirst c_id connectorId
                         (fun c => assignConnector c previousState)
                         (connectors s)) s in
          (emit (Publish "connector_update" (cp_id previousState)) s1,
           Some (R_connector_update (cp_id previousState) (connectorSnapshot conn)))
      end
  | U_stroke_add strokeId =>
      match findById s_id strokeId (strokes s) with
      | None => (s, None)
      | Some stroke =>
          let s1 := set_strokes (removeId s_id strokeId (strokes s)) s in
          (emit (Publish "stroke_delete" strokeId) s1, Some (R_stroke_add stroke))
      end
  | U_stroke_delete stroke =>
      let s1 := set_strokes (strokes s ++ [stroke]) s in
      (emit (Publish "draw_stroke" (s_id stroke)) s1,
       Some (R_stroke_delete (s_id stroke)))
  | U_group_create groupId =>
      match findById o_id groupId (objects s) with
      | None => (s, None)
      | Some group =>
          let s1 := set_objects (removeId o_id (o_id group) (objects s)) s in
          let s2 := emit (Publish "group_ungroup" (o_id group)) s1 in
          let s3 := if refersTo (selectedObject s2) (o_id group)
                    then set_selectedObject None s2 else s2 in
          (s3, Some (R_group_create group))
      end
  | U_group_ungroup group =>
      let s1 := set_objects (objects s ++ [group]) s in
      (emit (Publish "group_create" (o_id group)) s1,
       Some (R_group_ungroup (o_id group) (o_children group)))
  | U_unknown type =>
      (emit (ConsoleWarn ("Unknown undo action type: " ++ type)) s, None)
  end.

(** The data [executeUndo] returns for a restore-and-capture action, read
    back as the data of an undo entry of the same type. *)
Definition sameShape (r : RedoData) : option UndoData :=
  match r with
  | R_object_move i x y => Some (U_object_move i x y)
  | R_object_resize i x y w h => Some (U_object_resize i x y w h)
  | R_object_style i c b a o f => Some (U_object_style i c b a o f)
  | R_object_text i t => Some (U_object_text i t)
  | R_connector_update i st => Some (U_connector_update i st)
  | _ => None
  end.

Definition viaUndo (data : UndoData) (s : Canvas) : Canvas * option UndoData :=
  let (s1, r) := executeUndo data s in
  (s1, match r with Some d => sameShape d | None => None end).

(** [executeRedo(action)]: the new state and the data for undo. *)
Definition executeRedo (data : RedoData) (s : Canvas) : Canvas * option UndoData :=
  match data with
  | R_object_add obj =>
      let s1 := set_objects (objects s ++ [obj]) s in
      (emit (Publish "object_add" (o_id obj)) s1, Some (U_object_add (o_id obj)))
  | R_object_delete objectId =>
      match findById o_id objectId (objects s) with
      | None => (s, None)
      | Some obj =>
          let s1 := set_objects (removeId o_id objectId (objects s)) s in
          (emit (Publish "object_delete" objectId) s1, Some (U_object_delete obj))
      end
  | R_object_move i x y => viaUndo (U_object_move i x y) s
  | R_object_resize i x y w h => viaUndo (U_object_resize i x y w h) s
  | R_object_style i c b a o f => viaUndo (U_object_style i c b a o f) s
  | R_object_text i t => viaUndo (U_object_text i t) s
  | R_connector_add conn =>
      let s1 := set_connectors (connectors s ++ [conn]) s in
      (emit (Publish "connector_add" (c_id conn)) s1,
       Some (U_connector_add (c_id conn)))
  | R_connector_delete connectorId =>
      match findById c_id connectorId (connectors s) with
      | None => (s, None)
      | Some conn =>
          let s1 := set_connectors (removeId c_id connectorId (connectors s)) s in
          (emit (Publish "connector_delete" connectorId) s1,
           Some (U_connector_delete conn))
      end
  | R_connector_update i st => viaUndo (U_connector_update i st) s
  | R_stroke_add stroke =>
      let s1 := set_strokes (strokes s ++ [stroke]) s in
      (emit (Publish "draw_stroke" (s_id stroke)) s1,
       Some (U_stroke_add (s_id stroke)))
  | R_stroke_delete strokeId =>
      match findById s_id strokeId (strokes s) with
      | None => (s, None)
      | Some stroke =>
          let s1 := set_strokes (removeId s_id strokeId (strokes s)) s in
          (emit (Publish "stroke_delete" strokeId) s1, Some (U_stroke_delete stroke))
      end
  | R_group_create group =>
      let s1 := set_objects (objects s ++ [group]) s in
      (emit (Publish "group_create" (o_id group)) s1,
       Some (U_group_create (o_id group)))
  | R_group_ungroup groupId _ =>
      match findById o_id groupId (objects s) with
      | None => (s, None)
      | Some group =>
          let s1 := set_objects (removeId o_id groupId (objects s)) s in
          (emit (Publish "group_ungroup" groupId) s1, Some (U_group_ungroup group))
      end
  | R_unknown type =>
      (emit (ConsoleWarn ("Unknown redo action type: " ++ type)) s, None)
  end.

(** [arr.pop()]: the last element and the shortened array. *)
Definition pop {T : Type} (l : list T) : option (T * list T) :=
  match rev l with
  | [] => None
  | e :: r => Some (e, rev r)
  end.

(** [undo()] *)
Definition undo (now : Z) (s : Canvas) : Canvas :=
  match pop (undoStack s) with
  | None => s
  | Some (action, rest) =>
      let s1 := set_undoStack rest s in
      let (s2, reverseData) := executeUndo (u_data action) s1 in
      match reverseData with
      | Some d => set_redoStack (redoStack s2 ++ [mkRedo d now]) s2
      | None => s2
      end
  end.

(** [redo()] *)
Definition redo (now : Z) (s : Canvas) : Canvas :=
  match pop (redoStack s) with
  | None => s
  | Some (action, rest) =>
      let s1 := set_redoStack rest s in
      let (s2, reverseData) := executeRedo (r_data action) s1 in
      match reverseData with
      | Some d => set_undoStack (undoStack s2 ++ [mkUndo d now]) s2
      | None => s2
      end
  end.

End History.

(** ** Z-order *)

(** [e.zIndex || 0] *)
Definition zOr0 (z : option Z) : Z :=
  match z with Some v => v | None => 0 end.

(** [Math.max(...zs)] on a non-empty array, given as head and tail. *)
Definition maxOf (z : Z) (zs : list Z) : Z := fold_left Z.max zs z.

(** [getNextZIndex()] *)
Definition getNextZIndex (s : Canvas) : Z :=
  let objectZs := map (fun o => zOr0 (o_zIndex o)) (objects s) in
  let connectorZs := map (fun c => zOr0 (c_zIndex c)) (connectors s) in
  let allZs := (objectZs ++ connectorZs)%list in
  match allZs with
  | [] => 1
  | z :: zs => maxOf z zs + 1
  end.

(** ** Groups *)

Module Group.

Definition translate (dx dy : Q) (obj : CanvasObject) : CanvasObject :=
  History.moveTo (o_x obj + dx)%Q (o_y obj + dy)%Q obj.

(** The body of the connector loop of [moveGroupChildren]. *)
Definition moveConnectorParts (dx dy : Q) (c : Connector) : Connector :=
  let startPoint :=
    match c_startPoint c, c_startAnchor c with
    | Some p, None => Some (movePoint dx dy p)
    | sp, _ => sp
    end in
  let endPoint :=
    match c_endPoint c, c_endAnchor c with
    | Some p, None => Some (movePoint dx dy p)
    | ep, _ => ep
    end in
  mkConnector (c_id c) (c_connectorType c) (c_startX c) (c_startY c) (c_endX c)
    (c_endY c) (c_startAnchor c) (c_endAnchor c) startPoint endPoint
    (option_map (map (movePoint dx dy)) (c_waypoints c))
    (option_map (movePoint dx dy) (c_controlPoint1 c))
    (option_map (movePoint dx dy) (c_controlPoint2 c))
    (c_label c) (c_labelPosition c) (c_color c) (c_lineWidth c) (c_zIndex c).

(** [group.children || []] *)
Definition orEmpty (l : option (list string)) : list string :=
  match l with Some v => v | None => [] end.

(** [moveGroupChildren(group, dx, dy)] *)
Definition moveGroupChildren (group : CanvasObject) (dx dy : Q) (s : Canvas) : Canvas :=
  let objs :=
    fold_left (fun acc childId => updateFirst o_id childId (translate dx dy) acc)
      (orEmpty (o_children group)) (objects s) in
  let conns :=
    fold_left (fun acc connectorId =>
                 updateFirst c_id connectorId (moveConnectorParts dx dy) acc)
      (orEmpty (o_connectorIds group)) (connectors s) in
  set_connectors conns (set_objects objs s).

Record Bounds := mkBounds { b_x : Q; b_y : Q; b_width : Q; b_height : Q }.

(** [objectIds.map(id => this.objects.find(o => o.id === id)).filter(Boolean)] *)
Fixpoint lookupAll (objectIds : list string) (objs : list CanvasObject)
    : list CanvasObject :=
  match objectIds with
  | [] => []
  | id :: r =>
      match findById o_id id objs with
      | Some o => o :: lookupAll r objs
      | None => lookupAll r objs
      end
  end.

(** [calculateBoundingBox(objectIds)]; the running minima and maxima start at
    the first object, which is what the infinite initial values amount to. *)
Definition calculateBoundingBox (objectIds : list string)
    (objs : list CanvasObject) : option Bounds :=
  match lookupAll objectIds objs with
  | [] => None
  | o :: r =>
      let minX := fold_left (fun m obj => Qmin m (o_x obj)) r (o_x o) in
      let minY := fold_left (fun m obj => Qmin m (o_y obj)) r (o_y o) in
      let maxX := fold_left (fun m obj => Qmax m (o_x obj + o_width obj)%Q) r
                    (o_x o + o_width o)%Q in
      let maxY := fold_left (fun m obj => Qmax m (o_y obj + o_height obj)%Q) r
                    (o_y o + o_height o)%Q in
      Some (mkBounds minX minY (maxX - minX)%Q (maxY - minY)%Q)
  end.

(** The object-dragging branch of [handleMouseMove]: the selected object goes
    to [(newX, newY)] and, if it is a group, its children follow by the same
    delta. *)
Definition dragSelectedObject (newX newY : Q) (s : Canvas) : Canvas :=
  match selectedObject s with
  | None => s
  | Some id =>
      match findById o_id id (objects s) with
      | None => s
      | Some obj =>
          let dx := (newX - o_x obj)%Q in
          let dy := (newY - o_y obj)%Q in
          let s1 := set_objects
                      (updateFirst o_id id (History.moveTo newX newY) (objects s)) s in
          if o_type obj =? "group"
          then moveGroupChildren (History.moveTo newX newY obj) dx dy s1
          else s1
      end
  end.

End Group.

(** ** Presence: outbound cursor updates

    [sendCursorUpdate] is [async], and [handleMouseMove] calls it without
    waiting for it.  The call runs inside the mouse handler up to its
    [await]: it reads the clock, tests the gate and, if the gate passes,
    issues [updateCursor].  What follows the [await] runs later, when the
    Apex call settles, and other mouse moves may come in between. *)

Module Cursor.

(** [a > b] on binary64 numbers; [false] when either is NaN. *)
Definition gt (a b : float) : bool := PrimFloat.ltb b a.

(** The condition guarding the send in [sendCursorUpdate]:
    [(dx > DELTA_THRESHOLD || dy > DELTA_THRESHOLD) &&
     now - this.lastCursorSendTime > CURSOR_UPDATE_THROTTLE]. *)
Definition gate (x y : float) (now : Z) (s : Canvas) : bool :=
  let dx := PrimFloat.abs (PrimFloat.sub x (fx (lastSentCursor s))) in
  let dy := PrimFloat.abs (PrimFloat.sub y (fy (lastSentCursor s))) in
  (gt dx DELTA_THRESHOLD || gt dy DELTA_THRESHOLD)
  && (CURSOR_UPDATE_THROTTLE <? now - lastCursorSendTime s)%Z.

(** A call suspended at [await updateCursor(...)]: its arguments and the
    [now] it read, which are what its continuation writes back. *)
Record InFlight := mkInFlight { f_x : float; f_y : float; f_now : Z }.

(** [sendCursorUpdate(x, y)] with [Date.now() = now], up to the [await]:
    the state after the synchronous part and the suspended call, if any. *)
Definition sendCursorUpdate (x y : float) (now : Z) (s : Canvas)
    : Canvas * option InFlight :=
  if gate x y now s
  then (emit (UpdateCursor (canvasId s) x y) s, Some (mkInFlight x y now))
  else (s, None).

(** What follows the [await]: when the call resolved,
    [this.lastSentCursor = { x, y }; this.lastCursorSendTime = now;];
    when it was rejected, nothing ([catch]: fail silently). *)
Definition resume (c : InFlight) (resolved : bool) (s : Canvas) : Canvas :=
  if resolved then set_cursor (mkFPoint (f_x c) (f_y c)) (f_now c) s else s.

(** The component together with its calls in flight, oldest first. *)
Record Presence := mkPresence { canvas : Canvas; inFlight : list InFlight }.

(** What can happen next: a mouse move reaches [sendCursorUpdate(x, y)] at
    time [now], or the call at position [k] among those in flight settles. *)
Inductive Event :=
| MouseMove (x y : float) (now : Z)
| Settled (k : nat) (resolved : bool).

Definition removeAt (k : nat) (l : list InFlight) : list InFlight :=
  (firstn k l ++ skipn (S k) l)%list.

Definition step (p : Presence) (e : Event) : Presence :=
  match e with
  | MouseMove x y now =>
      match sendCursorUpdate x y now (canvas p) with
      | (s, Some c) => mkPresence s (inFlight p ++ [c])
      | (s, None) => mkPresence s (inFlight p)
      end
  | Settled k resolved =>
      match nth_error (inFlight p) k with
      | Some c => mkPresence (resume c resolved (canvas p)) (removeAt k (inFlight p))
      | None => p
      end
  end.

Definition run (events : list Event) (p : Presence) : Presence :=
  fold_left step events p.

Definition isUpdateCursor (e : Effect) : bool :=
  match e with UpdateCursor _ _ _ => true | _ => false end.

(** Number of [updateCursor] calls issued so far. *)
Definition sends (p : Presence) : nat :=
  List.length (filter isUpdateCursor (effects (canvas p))).

End Cursor.

(** ** Persistence *)

Module Persistence.

(** [handleSave()]; [saveOk] tells whether [saveCanvasState] resolved. *)
Definition handleSave (saveOk : bool) (s : Canvas) : Canvas :=
  let s1 := emit (SaveCanvasState (canvasId s) (scene s)) s in
  if saveOk
  then showToast "Success" "Canvas saved successfully" "success" s1
  else showToast "Error" "Failed to save canvas" "error"
         (emit (ConsoleError "Save error") s1).

(** What [loadCanvasState] followed by [JSON.parse] can produce: a rejected
    call or an unparsable string, or a state whose three keys may be missing. *)
Inductive LoadResult :=
| LoadFailed
| Loaded (objs : option (list CanvasObject)) (strks : option (list Stroke))
    (conns : option (list Connector)).

(** [loadState()] of the editor. *)
Definition loadState (result : LoadResult) (s : Canvas) : Canvas :=
  let s0 := set_stateLoadedForRecordId (recordId s) s in
  let s1 := emit (LoadCanvasState (canvasId s0)) s0 in
  match result with
  | Loaded objs strks conns =>
      let s2 := match objs with Some v => set_objects v s1 | None => s1 end in
      let s3 := match strks with Some v => set_strokes v s2 | None => s2 end in
      match conns with Some v => set_connectors v s3 | None => s3 end
  | LoadFailed => emit (ConsoleError "Failed to load state") s1
  end.

(** [initializeCanvas()]; [canvasOk] tells whether the drawing context could
    be set up.  The delayed reload scheduled by [announceJoin] is a later call
    of [loadState]. *)
Definition initializeCanvas (canvasOk : bool) (result : LoadResult) (s : Canvas) : Canvas :=
  if canvasOk then
    let s1 := loadState result s in
    let s2 := emit (Publish "user_join" "") s1 in
    set_isLoading false s2
  else
    set_isLoading false
      (set_errorMessage "Failed to initialize canvas"
         (emit (ConsoleError "Canvas initialization error") s)).

(** [get hasError() { return !!this.errorMessage; }] *)
Definition hasError (s : Canvas) : bool := negb (errorMessage s =? "").

(** [get isReady()]: the canvas wrapper is hidden unless this holds. *)
Definition isReady (s : Canvas) : bool := negb (isLoading s) && negb (hasError s).

Definition isErrorToast (e : Effect) : bool :=
  match e with Toast _ _ variant => variant =? "error" | _ => false end.

Definition isToast (e : Effect) : bool :=
  match e with Toast _ _ _ => true | _ => false end.

(** *** The read-only viewer ([collab_canvasViewerOnly]) *)

Record Viewer := mkViewer {
  v_objects : list CanvasObject;
  v_strokes : list Stroke;
  v_connectors : list Connector;
  v_isLoading : bool;
  v_hasContent : bool;
  v_errorMessage : string
}.

Definition nonEmpty {T : Type} (l : option (list T)) : option (list T) :=
  match l with
  | Some (e :: r) => Some (e :: r)
  | _ => None
  end.

(** [loadState()] of the viewer. *)
Definition viewerLoadState (result : LoadResult) (v : Viewer) : Viewer :=
  match result with
  | Loaded objs strks conns =>
      let v1 := match nonEmpty objs with
                | Some l => mkViewer l (v_strokes v) (v_connectors v)
                              (v_isLoading v) true (v_errorMessage v)
                | None => v end in
      let v2 := match nonEmpty strks with
                | Some l => mkViewer (v_objects v1) l (v_connectors v1)
                              (v_isLoading v1) true (v_errorMessage v1)
                | None => v1 end in
      let v3 := match nonEmpty conns with
                | Some l => mkViewer (v_objects v2) (v_strokes v2) l
                              (v_isLoading v2) true (v_errorMessage v2)
                | None => v2 end in
      mkViewer (v_objects v3) (v_strokes v3) (v_connectors v3) false
        (v_hasContent v3) (v_errorMessage v3)
  | LoadFailed =>
      mkViewer (v_objects v) (v_strokes v) (v_connectors v) false
        (v_hasContent v) "Unable to load canvas preview"
  end.

Definition viewerHasError (v : Viewer) : bool := negb (v_errorMessage v =? "").

(** [get showCanvas()] *)
Definition showCanvas (v : Viewer) : bool :=
  negb (v_isLoading v) && negb (viewerHasError v) && v_hasContent v.

End Persistence.

(** ** Vocabulary of the properties *)

Definition sceneIds (sc : Scene) : list string :=
  (map o_id (sc_objects sc) ++ map s_id (sc_strokes sc)
     ++ map c_id (sc_connectors sc))%list.

(** The Scene invariant: ids are unique within and across the collections. *)
Definition uniqueIds (sc : Scene) : Prop := NoDup (sceneIds sc).

(** Number of entities of the whole Scene carrying [id]. *)
Definition sceneCount (id : string) (sc : Scene) : nat :=
  (countId o_id id (sc_objects sc) + countId s_id id (sc_strokes sc)
   + countId c_id id (sc_connectors sc))%nat.

(** The id an add event inserts. *)
Definition addedId (e : RemoteEvent) : option string :=
  match e with
  | Ev_object_add p => Some (o_id p)
  | Ev_draw_stroke p => Some (s_id p)
  | Ev_connector_add p => Some (c_id p)
  | _ => None
  end.

(** The id a delete event removes. *)
Definition deletedId (e : RemoteEvent) : option string :=
  match e with
  | Ev_object_delete id => Some id
  | Ev_stroke_delete id => Some id
  | Ev_connector_delete id => Some id
  | _ => None
  end.

(** Entities carrying [id] in the collection the event works on. *)
Definition ownCount (e : RemoteEvent) (id : string) (sc : Scene) : nat :=
  match e with
  | Ev_object_add _ | Ev_object_delete _ => countId o_id id (sc_objects sc)
  | Ev_draw_stroke _ | Ev_stroke_delete _ => countId s_id id (sc_strokes sc)
  | Ev_connector_add _ | Ev_connector_delete _ => countId c_id id (sc_connectors sc)
  | _ => 0%nat
  end.

(** An inbound message that passes the own-echo and canvas filters. *)
Definition accepted (userId : string) (m : PlatformMessage) (s : Canvas) : Prop :=
  collab_User_Id m <> userId /\ collab_Canvas_Id m = canvasId s.


(** ** Sample entities for the examples *)

Definition plainObject (id type : string) (x y width height : Q) : CanvasObject :=
  mkObject id type x y width height None None None None None None None None
    None None None.

Definition groupObject (id : string) (x y width height : Q)
    (children connectorIds : list string) : CanvasObject :=
  mkObject id "group" x y width height None None None None None None None None
    None (Some children) (Some connectorIds).

Definition plainConnector (id : string) (startX startY endX endY : Q)
    (startAnchor endAnchor : option Anchor) : Connector :=
  mkConnector id "arrow" startX startY endX endY startAnchor endAnchor None None
    None None None None None (Some "#333333") (Some (2 # 1)%Q) None.

Definition plainStroke (id : string) : Stroke :=
  mkStroke id "#333333" (3 # 1)%Q [mkPoint 0 0; mkPoint 1 1].

(** The component right after construction. *)
Definition emptyCanvas : Canvas :=
  mkCanvas None None [] [] [] None None [] [] None None None [] []
    (mkFPoint 0 0) 0 true "" [].

(** The z-indices present in the Scene: [zIndex || 0] of every object and of
    every connector.  A stroke has none. *)
Definition sceneZs (s : Canvas) : list Z :=
  (map (fun o => zOr0 (o_zIndex o)) (objects s)
     ++ map (fun c => zOr0 (c_zIndex c)) (connectors s))%list.

(** [Number.isSafeInteger]: the integers on which binary64 arithmetic is
    exact.  Every z-index the program assigns is one. *)
Definition isSafeInteger (z : Z) : Prop := Z.abs z <= 2 ^ 53 - 1.

(** The stored coordinates of a connector's two endpoints, which
    [resolveConnectorPoint] returns for a floating endpoint. *)
Definition storedEndpoints (c : Connector) : Q * Q * (Q * Q) :=
  (c_startX c, c_startY c, (c_endX c, c_endY c)).

(** The two distances [sendCursorUpdate] compares with the threshold:
    [Math.abs(x - last.x)] and [Math.abs(y - last.y)], for [last] the
    recorded position. *)
Definition deltaX (x : float) (last : FPoint) : float :=
  PrimFloat.abs (PrimFloat.sub x (fx last)).





(** The component right after construction, with no call in flight. *)
Definition freshPresence : Cursor.Presence := Cursor.mkPresence emptyCanvas [].

(** ** Interleavings of history operations

    [OpEdit] stands for any change of the Scene and of the selection made
    between two history operations (local edits, remote events). *)

Inductive HistoryOp :=
| OpRecord (data : UndoData) (now : Z)
| OpUndo (now : Z)
| OpRedo (now : Z)
| OpEdit (sc : Scene) (selObject selConnector : option string).

Definition applyOp (s : Canvas) (op : HistoryOp) : Canvas :=
  match op with
  | OpRecord data now => History.recordAction data now s
  | OpUndo now => History.undo now s
  | OpRedo now => History.redo now s
  | OpEdit sc so scn =>
      set_selectedConnector scn
        (set_selectedObject so
           (set_connectors (sc_connectors sc)
              (set_strokes (sc_strokes sc) (set_objects (sc_objects sc) s))))
  end.

Definition runOps (ops : list HistoryOp) (s : Canvas) : Canvas :=
  fold_left applyOp ops s.

(** ** Local edits that record an undo entry

    Values produced outside the component ([generateId()], [Math.random()],
    the text typed by the user, the geometry reached at the end of a drag) are
    parameters.  State captured when a gesture starts ([dragStartState],
    [resizeStartState], [previousTextValue], [currentStroke],
    [currentConnector]) is passed to the function that ends the gesture. *)

Module Local.

(** The last three statements of every object creator:
    [this.objects.push(obj); this.publishObjectAdd(obj);
     this.recordAction('object_add', { objectId: obj.id })]. *)
Definition pushObject (obj : CanvasObject) (now : Z) (s : Canvas) : Canvas :=
  let s1 := set_objects (objects s ++ [obj]) s in
  let s2 := emit (Publish "object_add" (o_id obj)) s1 in
  History.recordAction (U_object_add (o_id obj)) now s2.

(** [addSticky(color)]; [id] is [generateId()], [rx] and [ry] are the two
    values of [Math.random()]. *)
Definition addSticky (color : string) (id : string) (rx ry : Q) (now : Z)
    (s : Canvas) : Canvas :=
  pushObject
    (mkObject id "sticky" (100 + rx * 200)%Q (100 + ry * 200)%Q 150%Q 150%Q
       (Some (getNextZIndex s)) (Some color) None None
       (Some "Double-click to edit") None None None None None None)
    now s.

(** [addShape(type, width, height)] *)
Definition addShape (type : string) (width height : Q) (id : string) (rx ry : Q)
    (now : Z) (s : Canvas) : Canvas :=
  pushObject
    (mkObject id type (100 + rx * 200)%Q (100 + ry * 200)%Q width height
       (Some (getNextZIndex s)) (Some "#E8E8E8") None None None None None None
       None None None)
    now s.

(** The single-object branch of [handleSelection]: the object found under the
    pointer becomes the selection. *)
Definition selectObject (id : string) (s : Canvas) : Canvas :=
  set_selection [] [] (set_selectedConnector None (set_selectedObject (Some id) s)).

(** The connector branch of [handleSelection]. *)
Definition selectConnector (id : string) (s : Canvas) : Canvas :=
  set_selection [] [] (set_selectedObject None (set_selectedConnector (Some id) s)).

(** [c.startAnchor.objectId === objectId || c.endAnchor.objectId === objectId] *)
Definition anchoredTo (objectId_ : string) (c : Connector) : bool :=
  (match c_startAnchor c with Some a => objectId a =? objectId_ | None => false end)
  || (match c_endAnchor c with Some a => objectId a =? objectId_ | None => false end).

(** The loop [for (const connId of ids) { this.connectors = ...filter...;
    this.publishConnectorDelete(connId); }]. *)
Definition removeConnectors (ids : list string) (s : Canvas) : Canvas :=
  fold_left
    (fun acc connId =>
       emit (Publish "connector_delete" connId)
         (set_connectors (removeId c_id connId (connectors acc)) acc))
    ids s.

(** [deleteGroup(group)]: nothing is recorded. *)
Definition deleteGroup (group : CanvasObject) (s : Canvas) : Canvas :=
  let s1 := removeConnectors (Group.orEmpty (o_connectorIds group)) s in
  let s2 :=
    fold_left
      (fun acc childId =>
         let connected := map c_id (filter (anchoredTo childId) (connectors acc)) in
         let acc1 := removeConnectors connected acc in
         emit (Publish "object_delete" childId)
           (set_objects (removeId o_id childId (objects acc1)) acc1))
      (Group.orEmpty (o_children group)) s1 in
  emit (Publish "object_delete" (o_id group))
    (set_objects (removeId o_id (o_id group) (objects s2)) s2).

(** [deleteSelectedObject()] *)
Definition deleteSelectedObject (now : Z) (s : Canvas) : Canvas :=
  match selectedObject s with
  | None => s
  | Some sel =>
      match findById o_id sel (objects s) with
      | None => s
      | Some obj =>
          if o_type obj =? "group"
          then set_selectedObject None (deleteGroup obj s)
          else
            let s1 := History.recordAction (U_object_delete obj) now s in
            let objectId_ := o_id obj in
            let connected :=
              map c_id (filter (anchoredTo objectId_) (connectors s1)) in
            let s2 := removeConnectors connected s1 in
            let s3 := set_objects (removeId o_id objectId_ (objects s2)) s2 in
            set_selectedObject None (emit (Publish "object_delete" objectId_) s3)
      end
  end.

(** [deleteSelectedConnector()] *)
Definition deleteSelectedConnector (now : Z) (s : Canvas) : Canvas :=
  match selectedConnector s with
  | None => s
  | Some sel =>
      match findById c_id sel (connectors s) with
      | None => s
      | Some conn =>
          let s1 := History.recordAction (U_connector_delete conn) now s in
          let s2 := set_connectors (removeId c_id (c_id conn) (connectors s1)) s1 in
          set_selectedConnector None (emit (Publish "connector_delete" (c_id conn)) s2)
      end
  end.

(** [a !== b] on numbers. *)
Definition differ (a b : Q) : bool := negb (Qeq_bool a b).

(** The object-drag part of [handleMouseUp]; [dragStartState] was captured
    when the drag was armed. *)
Definition handleMouseUp (dragStartState : option Point) (now : Z) (s : Canvas) : Canvas :=
  match selectedObject s with
  | None => s
  | Some sel =>
      match findById o_id sel (objects s) with
      | None => s
      | Some obj =>
          let s1 :=
            match dragStartState with
            | Some st =>
                if differ (px st) (o_x obj) || differ (py st) (o_y obj)
                then History.recordAction (U_object_move (o_id obj) (px st) (py st)) now s
                else s
            | None => s
            end in
          let s2 := emit (Publish "object_move" (o_id obj)) s1 in
          if o_type obj =? "group"
          then fold_left (fun acc child => emit (Publish "object_move" (o_id child)) acc)
                 (Group.lookupAll (Group.orEmpty (o_children obj)) (objects s2)) s2
          else s2
      end
  end.

(** Mouse-down on an object, pointer moved so that the object lands on
    [(newX, newY)], mouse-up. *)
Definition moveObject (id : string) (newX newY : Q) (now : Z) (s : Canvas) : Canvas :=
  match findById o_id id (objects s) with
  | None => s
  | Some found =>
      let s1 := selectObject id s in
      let dragStartState := Some (mkPoint (o_x found) (o_y found)) in
      handleMouseUp dragStartState now (Group.dragSelectedObject newX newY s1)
  end.

(** [finishResize()]; [resizeStartState] was captured by [startResize], and
    [performResize] has already written the new geometry. *)
Definition finishResize (resizeStartState : option (Q * Q * (Q * Q))) (now : Z)
    (s : Canvas) : Canvas :=
  match selectedObject s with
  | None => s
  | Some sel =>
      match findById o_id sel (objects s) with
      | None => s
      | Some obj =>
          let s1 :=
            match resizeStartState with
            | Some (x0, y0, (w0, h0)) =>
                if differ x0 (o_x obj) || differ y0 (o_y obj)
                   || differ w0 (o_width obj) || differ h0 (o_height obj)
                then History.recordAction
                       (U_object_resize (o_id obj) x0 y0 w0 h0) now s
                else s
            | None => s
            end in
          emit (Publish "object_resize" (o_id obj)) s1
      end
  end.

(** A resize gesture on the selected object that ends with the geometry
    [(newX, newY, newWidth, newHeight)]. *)
Definition resizeObject (id : string) (newX newY newWidth newHeight : Q) (now : Z)
    (s : Canvas) : Canvas :=
  match findById o_id id (objects s) with
  | None => s
  | Some found =>
      let s1 := selectObject id s in
      let start := Some (o_x found, o_y found, (o_width found, o_height found)) in
      let s2 := set_objects
                  (updateFirst o_id id
                     (Remote.resizeTo newX newY newWidth newHeight) (objects s1)) s1 in
      finishResize start now s2
  end.

Definition setTextAndColor (text textColor : option string) (obj : CanvasObject)
    : CanvasObject :=
  mkObject (o_id obj) (o_type obj) (o_x obj) (o_y obj) (o_width obj)
    (o_height obj) (o_zIndex obj) (o_color obj) (o_borderColor obj)
    (o_borderWidth obj) text textColor (o_textAlign obj) (o_textOverflow obj)
    (o_fontSize obj) (o_children obj) (o_connectorIds obj).

(** [a !== b] on possibly undefined strings. *)
Definition differText (a b : option string) : bool :=
  match a, b with
  | Some u, Some v => negb (u =? v)
  | None, None => false
  | _, _ => true
  end.

(** The object part of [finishTextEditing()]: [editingObject] and
    [previousTextValue] were set when editing started, [trimmedText] is the
    trimmed content of the editor and [contrast] the value of
    [getContrastColor] for the object's colour. *)
Definition finishTextEditing (editingObject : option string)
    (previousTextValue : option string) (trimmedText contrast : string) (now : Z)
    (s : Canvas) : Canvas :=
  match editingObject with
  | None => s
  | Some eid =>
      match findById o_id eid (objects s) with
      | None => s
      | Some obj =>
          let newText :=
            if o_type obj =? "sticky"
            then (if trimmedText =? "" then "Double-click to edit" else trimmedText)
            else trimmedText in
          let newColor :=
            if o_type obj =? "sticky" then o_textColor obj
            else if negb (trimmedText =? "") && negb (truthyStr (o_textColor obj))
                 then Some contrast else o_textColor obj in
          let s1 := set_objects
                      (updateFirst o_id eid (setTextAndColor (Some newText) newColor)
                         (objects s)) s in
          let s2 := if differText (Some newText) previousTextValue
                    then History.recordAction
                           (U_object_text (o_id obj) previousTextValue) now s1
                    else s1 in
          emit (Publish "object_move" (o_id obj)) s2
      end
  end.

(** Double-click on an object, typing, leaving the editor.
    [startTextEditing] captures [obj.text], [startShapeTextEditing] captures
    [obj.text || '']. *)
Definition editText (id : string) (sticky : bool) (trimmedText contrast : string)
    (now : Z) (s : Canvas) : Canvas :=
  match findById o_id id (objects s) with
  | None => s
  | Some found =>
      let previous :=
        if sticky then o_text found
        else Some (if truthyStr (o_text found)
                   then match o_text found with Some t => t | None => "" end
                   else "") in
      finishTextEditing (Some id) previous trimmedText contrast now s
  end.

(** [finishConnector()] once the route has been computed; [longEnough] is the
    test [length > 20]. *)
Definition finishConnector (currentConnector : option Connector) (longEnough : bool)
    (now : Z) (s : Canvas) : Canvas :=
  match currentConnector with
  | None => s
  | Some conn =>
      if longEnough then
        let s1 := set_connectors (connectors s ++ [conn]) s in
        let s2 := emit (Publish "connector_add" (c_id conn)) s1 in
        History.recordAction (U_connector_add (c_id conn)) now s2
      else s
  end.

(** [finishDrawing()] *)
Definition finishDrawing (currentStroke : option Stroke) (now : Z) (s : Canvas) : Canvas :=
  match currentStroke with
  | Some stroke =>
      if (1 <? Z.of_nat (List.length (s_points stroke)))%Z then
        let s1 := set_strokes (strokes s ++ [stroke]) s in
        let s2 := emit (Publish "draw_stroke" (s_id stroke)) s1 in
        History.recordAction (U_stroke_add (s_id stroke)) now s2
      else s
  | None => s
  end.

(** [deleteStroke(stroke)] for a stroke of the Scene. *)
Definition deleteStroke (stroke : option Stroke) (now : Z) (s : Canvas) : Canvas :=
  match stroke with
  | None => s
  | Some st =>
      let s1 := History.recordAction (U_stroke_delete st) now s in
      let s2 := set_strokes (removeId s_id (s_id st) (strokes s1)) s1 in
      emit (Publish "stroke_delete" (s_id st)) (set_hoveredStroke None s2)
  end.

(** The eraser over a stroke, then a click. *)
Definition eraseStroke (id : string) (now : Z) (s : Canvas) : Canvas :=
  match findById s_id id (strokes s) with
  | None => s
  | Some st => deleteStroke (Some st) now (set_hoveredStroke (Some id) s)
  end.

(** The points [calculateConnectorBounds] folds over for one connector:
    both resolved endpoints, the waypoints and the control points. *)
Definition connectorPoints (objs : list CanvasObject) (c : Connector) : list Point :=
  ([resolveConnectorPoint objs c StartPoint; resolveConnectorPoint objs c EndPoint]
   ++ match c_waypoints c with Some w => w | None => [] end
   ++ match c_controlPoint1 c with Some q => [q] | None => [] end
   ++ match c_controlPoint2 c with Some q => [q] | None => [] end)%list.

Fixpoint lookupConnectors (ids : list string) (conns : list Connector)
    : list Connector :=
  match ids with
  | [] => []
  | id :: r =>
      match findById c_id id conns with
      | Some c => c :: lookupConnectors r conns
      | None => lookupConnectors r conns
      end
  end.

(** [calculateConnectorBounds(connectorIds)], with its padding of 10. *)
Definition calculateConnectorBounds (connectorIds : list string) (s : Canvas)
    : option Group.Bounds :=
  match flat_map (connectorPoints (objects s))
          (lookupConnectors connectorIds (connectors s)) with
  | [] => None
  | q :: r =>
      let minX := fold_left (fun m t => Qmin m (px t)) r (px q) in
      let minY := fold_left (fun m t => Qmin m (py t)) r (py q) in
      let maxX := fold_left (fun m t => Qmax m (px t)) r (px q) in
      let maxY := fold_left (fun m t => Qmax m (py t)) r (py q) in
      Some (Group.mkBounds (minX - 10)%Q (minY - 10)%Q
              ((maxX - minX) + 10 * 2)%Q ((maxY - minY) + 10 * 2)%Q)
  end.

(** Ids of the selected objects, a selected group standing for its children. *)
Definition flattenSelection (selected : list CanvasObject) : list string :=
  flat_map (fun obj => if o_type obj =? "group"
                       then Group.orEmpty (o_children obj)
                       else [o_id obj]) selected.

(** [createGroupFromSelection()]; [id] is [generateId()]. *)
Definition createGroupFromSelection (id : string) (now : Z) (s : Canvas) : Canvas :=
  let totalItems := (List.length (selectedObjects s)
                     + List.length (selectedConnectors s))%nat in
  if (totalItems <? 2)%nat then s
  else
    let selected := Group.lookupAll (selectedObjects s) (objects s) in
    let childIds := flattenSelection selected in
    let connectorIds := selectedConnectors s in
    if ((List.length childIds <? 1)%nat && (List.length connectorIds <? 2)%nat)%bool
    then s
    else
      let bounds :=
        match childIds with
        | [] => calculateConnectorBounds connectorIds s
        | _ => Group.calculateBoundingBox childIds (objects s)
        end in
      match bounds with
      | None => emit (ConsoleError "Could not calculate bounding box for group") s
      | Some b =>
          let group :=
            mkObject id "group" (Group.b_x b) (Group.b_y b) (Group.b_width b)
              (Group.b_height b) (Some (getNextZIndex s)) None None None None
              None None None None (Some childIds) (Some connectorIds) in
          let kept :=
            filter (fun o => negb (o_type o =? "group")
                             || negb (existsb (String.eqb (o_id o)) (selectedObjects s)))
              (objects s) in
          let s1 := set_objects (kept ++ [group]) s in
          let s2 := set_selection [] [] (set_selectedObject (Some id) s1) in
          let s3 := emit (Publish "group_create" id) s2 in
          History.recordAction (U_group_create id) now s3
      end.

(** A multi-selection (marquee or ctrl-click) followed by the group command. *)
Definition groupObjects (objectIds connectorIds : list string) (id : string)
    (now : Z) (s : Canvas) : Canvas :=
  createGroupFromSelection id now
    (set_selection objectIds connectorIds
       (set_selectedConnector None (set_selectedObject None s))).

(** [ungroupSelection()] *)
Definition ungroupSelection (now : Z) (s : Canvas) : Canvas :=
  match selectedObject s with
  | None => s
  | Some sel =>
      match findById o_id sel (objects s) with
      | None => s
      | Some group =>
          if negb (o_type group =? "group") then s
          else
            let childIds := Group.orEmpty (o_children group) in
            let connectorIds := Group.orEmpty (o_connectorIds group) in
            let s1 := History.recordAction (U_group_ungroup group) now s in
            let s2 := emit (Publish "group_ungroup" (o_id group)) s1 in
            let s3 := set_objects (removeId o_id (o_id group) (objects s2)) s2 in
            set_selection
              (map o_id (Group.lookupAll childIds (objects s3)))
              (map c_id (lookupConnectors connectorIds (connectors s3)))
              (set_selectedObject None s3)
      end
  end.

End Local.

(** ** Sequences of recorded edits followed by undo and redo *)

(** One recorded forward action, with the values the user and the platform
    supply. *)
Inductive ForwardAction :=
| FAddSticky (color id : string) (rx ry : Q)
| FAddShape (type : string) (width height : Q) (id : string) (rx ry : Q)
| FAddObject (obj : CanvasObject)
| FDeleteObject (id : string)
| FMoveObject (id : string) (newX newY : Q)
| FResizeObject (id : string) (newX newY newWidth newHeight : Q)
| FEditText (id : string) (sticky : bool) (trimmedText contrast : string)
| FAddConnector (conn : Connector) (longEnough : bool)
| FDeleteConnector (id : string)
| FDrawStroke (stroke : Stroke)
| FEraseStroke (id : string)
| FGroup (objectIds connectorIds : list string) (id : string)
| FUngroup (id : string).

Definition doForward (now : Z) (a : ForwardAction) (s : Canvas) : Canvas :=
  match a with
  | FAddSticky color id rx ry => Local.addSticky color id rx ry now s
  | FAddShape type w h id rx ry => Local.addShape type w h id rx ry now s
  | FAddObject obj => Local.pushObject obj now s
  | FDeleteObject id =>
      match findById o_id id (objects s) with
      | Some _ => Local.deleteSelectedObject now (Local.selectObject id s)
      | None => s
      end
  | FMoveObject id x y => Local.moveObject id x y now s
  | FResizeObject id x y w h => Local.resizeObject id x y w h now s
  | FEditText id sticky text contrast => Local.editText id sticky text contrast now s
  | FAddConnector conn longEnough => Local.finishConnector (Some conn) longEnough now s
  | FDeleteConnector id =>
      match findById c_id id (connectors s) with
      | Some _ => Local.deleteSelectedConnector now (Local.selectConnector id s)
      | None => s
      end
  | FDrawStroke stroke => Local.finishDrawing (Some stroke) now s
  | FEraseStroke id => Local.eraseStroke id now s
  | FGroup objectIds connectorIds id => Local.groupObjects objectIds connectorIds id now s
  | FUngroup id =>
      match findById o_id id (objects s) with
      | Some _ => Local.ungroupSelection now (Local.selectObject id s)
      | None => s
      end
  end.

(** The id a forward action gives to the entity it creates is new in the
    collection it goes to ([generateId] combines the user id, the clock and a
    random suffix). *)
Definition freshFor (a : ForwardAction) (s : Canvas) : Prop :=
  match a with
  | FAddSticky _ id _ _ | FAddShape _ _ _ id _ _ | FGroup _ _ id =>
      someId o_id id (objects s) = false
  | FAddObject obj => someId o_id (o_id obj) (objects s) = false
  | FAddConnector conn _ => someId c_id (c_id conn) (connectors s) = false
  | FDrawStroke stroke => someId s_id (s_id stroke) (strokes s) = false
  | _ => True
  end.

(** Forward actions performed in order, each at its own time. *)
Fixpoint runForward (acts : list (Z * ForwardAction)) (s : Canvas) : Canvas :=
  match acts with
  | [] => s
  | (now, a) :: r => runForward r (doForward now a s)
  end.

Fixpoint freshRun (acts : list (Z * ForwardAction)) (s : Canvas) : Prop :=
  match acts with
  | [] => True
  | (now, a) :: r => freshFor a s /\ freshRun r (doForward now a s)
  end.

(** [undo()] called once per element of [nows]. *)
Definition undoTimes (nows : list Z) (s : Canvas) : Canvas :=
  fold_left (fun acc now => History.undo now acc) nows s.

(** [redo()] called once per element of [nows]. *)
Definition redoTimes (nows : list Z) (s : Canvas) : Canvas :=
  fold_left (fun acc now => History.redo now acc) nows s.

(** ** Vocabulary of the undo/redo symmetry proof *)

(** The editor reduced to a Scene: empty stacks, nothing selected. *)
Definition sceneCanvas (sc : Scene) : Canvas :=
  set_connectors (sc_connectors sc)
    (set_strokes (sc_strokes sc) (set_objects (sc_objects sc) emptyCanvas)).

(** [executeUndo] and [executeRedo] as functions of the Scene alone. *)
Definition undoSc (d : UndoData) (sc : Scene) : Scene * option RedoData :=
  let r := History.executeUndo d (sceneCanvas sc) in (scene (fst r), snd r).

Definition redoSc (d : RedoData) (sc : Scene) : Scene * option UndoData :=
  let r := History.executeRedo d (sceneCanvas sc) in (scene (fst r), snd r).

Definition optCons {T : Type} (o : option T) (l : list T) : list T :=
  match o with Some v => v :: l | None => l end.

(** Undoing the entries [tops] (most recent first): the Scene reached and the
    redo entries produced, oldest first. *)
Fixpoint undoAllSc (tops : list UndoData) (sc : Scene) : Scene * list RedoData :=
  match tops with
  | [] => (sc, [])
  | d :: rest =>
      let (sc1, r) := undoSc d sc in
      let (sc2, gen) := undoAllSc rest sc1 in
      (sc2, optCons r gen)
  end.

(** Redoing the entries [rs] in the given order. *)
Definition redoAllSc (rs : list RedoData) (sc : Scene) : Scene :=
  fold_left (fun acc r => fst (redoSc r acc)) rs sc.

(** Undo everything, then redo everything that undo produced. *)
Definition roundTrip (tops : list UndoData) (sc : Scene) : Scene :=
  let (sc1, gen) := undoAllSc tops sc in redoAllSc (rev gen) sc1.

(** The data of the undo stack, most recent first. *)
Definition topsOf (s : Canvas) : list UndoData := map u_data (rev (undoStack s)).

(** The ids of the three collections, in array order. *)
Record Ids := mkIds {
  i_objects : list string;
  i_strokes : list string;
  i_connectors : list string
}.

Definition idsOf (sc : Scene) : Ids :=
  mkIds (map o_id (sc_objects sc)) (map s_id (sc_strokes sc))
    (map c_id (sc_connectors sc)).

Definition dropId (x : string) (l : list string) : list string :=
  removeId (fun y : string => y) x l.

(** [x] is either absent from [l] or its last element and nowhere else. *)
Definition lastOrAbsent (x : string) (l : list string) : Prop :=
  In x l -> l = (dropId x l ++ [x])%list.

(** A history (most recent entry first) that fits the ids of a Scene: walking
    down the entries as [undo] does, an entry that recorded an insertion finds
    its entity, if at all, last in its collection, and an entry that recorded
    a removal finds the entity's id free.  The two entry types that no call
    of [recordAction] in the component produces are excluded. *)
Fixpoint replayable (tops : list UndoData) (V : Ids) : Prop :=
  match tops with
  | [] => True
  | d :: rest =>
      match d with
      | U_object_add x | U_group_create x =>
          lastOrAbsent x (i_objects V)
          /\ replayable rest
               (mkIds (dropId x (i_objects V)) (i_strokes V) (i_connectors V))
      | U_object_delete obj | U_group_ungroup obj =>
          ~ In (o_id obj) (i_objects V) /\ replayable rest V
      | U_connector_add x =>
          lastOrAbsent x (i_connectors V)
          /\ replayable rest
               (mkIds (i_objects V) (i_strokes V) (dropId x (i_connectors V)))
      | U_connector_delete c =>
          ~ In (c_id c) (i_connectors V) /\ replayable rest V
      | U_stroke_add x =>
          lastOrAbsent x (i_strokes V)
          /\ replayable rest
               (mkIds (i_objects V) (dropId x (i_strokes V)) (i_connectors V))
      | U_stroke_delete st =>
          ~ In (s_id st) (i_strokes V) /\ replayable rest V
      | U_object_move _ _ _ | U_object_resize _ _ _ _ _ | U_object_text _ _
      | U_unknown _ => replayable rest V
      | U_object_style _ _ _ _ _ _ | U_connector_update _ _ => False
      end
  end.

(** Ids of entities that an undone removal has put back and that the
    matching redo will remove again. *)
Record Doom := mkDoom {
  d_objects : list string;
  d_strokes : list string;
  d_connectors : list string
}.

Definition alive (D : list string) (id : string) : bool :=
  negb (existsb (String.eqb id) D).

Definition visible (D : Doom) (sc : Scene) : Scene :=
  mkScene (filter (fun o => alive (d_objects D) (o_id o)) (sc_objects sc))
    (filter (fun st => alive (d_strokes D) (s_id st)) (sc_strokes sc))
    (filter (fun c => alive (d_connectors D) (c_id c)) (sc_connectors sc)).

(** [l1] is [l2] with some elements left out. *)
Inductive sub {T : Type} : list T -> list T -> Prop :=
| sub_nil : sub [] []
| sub_skip (x : T) (l1 l2 : list T) : sub l1 l2 -> sub l1 (x :: l2)
| sub_keep (x : T) (l1 l2 : list T) : sub l1 l2 -> sub (x :: l1) (x :: l2).

Definition subIds (V1 V2 : Ids) : Prop :=
  sub (i_objects V1) (i_objects V2)
  /\ sub (i_strokes V1) (i_strokes V2)
  /\ sub (i_connectors V1) (i_connectors V2).

(** A Scene with one collection replaced. *)
Definition withObjects (l : list CanvasObject) (sc : Scene) : Scene :=
  mkScene l (sc_strokes sc) (sc_connectors sc).
Definition withStrokes (l : list Stroke) (sc : Scene) : Scene :=
  mkScene (sc_objects sc) l (sc_connectors sc).
Definition withConnectors (l : list Connector) (sc : Scene) : Scene :=
  mkScene (sc_objects sc) (sc_strokes sc) l.

(** The history of [s] fits its Scene. *)
Definition historyFits (s : Canvas) : Prop :=
  replayable (topsOf s) (idsOf (scene s)).

(** [s'] has the two stacks of [s] and, collection by collection, the ids of
    [s] in the same order with some possibly left out. *)
Definition frame (s s' : Canvas) : Prop :=
  undoStack s' = undoStack s
  /\ redoStack s' = redoStack s
  /\ subIds (idsOf (scene s')) (idsOf (scene s)).

(** What one recorded edit may do to the stacks: an empty redo stack stays
    empty and the undo stack grows by at most one entry. *)
Definition stacksAfter (s s' : Canvas) : Prop :=
  (redoStack s = [] -> redoStack s' = [])
  /\ (List.length (undoStack s') <= S (List.length (undoStack s)))%nat.
(** * The rest of the editor: fit to content, marquee, hit testing, routing,
    layers, deletions, inbound updates

    The functions below are the ones the handlers and the undo history above
    sit next to in [collab_collaborativeCanvas.js], together with the helpers
    of [collab_canvasDrawingUtils.js] they call.  The statements made about
    them compare and copy coordinates, and hold whichever way the sums that
    are compared have been rounded. *)

From Stdlib Require Import Permutation Sorted.

(** ** Numbers *)

(** [a < b] on numbers. *)
Definition Qltb (a b : Q) : bool := negb (Qle_bool b a).

(** [a > b] on numbers. *)
Definition Qgtb (a b : Q) : bool := negb (Qle_bool a b).

(** [arr.find(p)] followed by a mutation of the element found: the first
    element satisfying [p] is changed in place. *)
Fixpoint updateWhere {A : Type} (p : A -> bool) (f : A -> A) (l : list A) : list A :=
  match l with
  | [] => []
  | e :: r => if p e then f e :: r else e :: updateWhere p f r
  end.

(** ** Fit to content: the bounds of the content *)

Module Viewport.
Local Open Scope Q_scope.

(** The running bounds of [calculateFitToContent]: [None] while the four
    variables still hold their infinite initial values. *)
Record Extent := mkExtent { minX : Q; minY : Q; maxX : Q; maxY : Q }.




End Viewport.



(** The running bounds only ever widen. *)
Definition grows (e e' : option Viewport.Extent) : Prop :=
  match e, e' with
  | None, _ => True
  | Some b, Some b' =>
      (Viewport.minX b' <= Viewport.minX b /\ Viewport.minY b' <= Viewport.minY b
       /\ Viewport.maxX b <= Viewport.maxX b' /\ Viewport.maxY b <= Viewport.maxY b')%Q
  | Some _, None => False
  end.


(** ** Marquee selection *)

Module Marquee.
Local Open Scope Q_scope.




End Marquee.

(** ** Hit testing *)

Module HitTest.

(** One step of [[...arr].sort((a, b) => (b.zIndex || 0) - (a.zIndex || 0))]:
    [obj] goes in front of the first element that is not above it, so that
    equal elements keep their array order (the sort is stable). *)
Fixpoint insertByZ (obj : CanvasObject) (sorted : list CanvasObject)
    : list CanvasObject :=
  match sorted with
  | [] => [obj]
  | e :: r =>
      if (zOr0 (o_zIndex obj) <? zOr0 (o_zIndex e))%Z
      then e :: insertByZ obj r
      else obj :: e :: r
  end.

(** [[...this.objects].sort((a, b) => (b.zIndex || 0) - (a.zIndex || 0))] *)
Definition sortedByZ (objs : list CanvasObject) : list CanvasObject :=
  fold_right insertByZ [] objs.

(** [findObjectAt(x, y)]: the topmost object under the point.  The hit test
    [this.isPointInObject], called once per object, is a parameter. *)
Definition findObjectAt (isPointInObject : Q -> Q -> CanvasObject -> bool)
    (x y : Q) (s : Canvas) : option CanvasObject :=
  find (isPointInObject x y) (sortedByZ (objects s)).

End HitTest.

(** ** Connector routing and curves *)

Module Routing.
Local Open Scope Q_scope.

(** [getAnchorDirection(anchorPosition)]; the position of a floating end is
    [undefined]. *)
Definition getAnchorDirection (anchorPosition : option string) : string :=
  match anchorPosition with
  | Some p =>
      if ((p =? "left") || (p =? "right"))%string then "horizontal"
      else if ((p =? "top") || (p =? "bottom"))%string then "vertical"
      else "horizontal"
  | None => "horizontal"
  end.

(** [calculateElbowRoute(start, end, startAnchorPos, endAnchorPos)] *)
Definition calculateElbowRoute (start end_ : Point)
    (startAnchorPos endAnchorPos : option string) : list Point :=
  let startDir := getAnchorDirection startAnchorPos in
  let endDir := getAnchorDirection endAnchorPos in
  let midX := (px start + px end_) / 2 in
  let midY := (py start + py end_) / 2 in
  if ((startDir =? "horizontal") && (endDir =? "horizontal"))%string then
    [mkPoint midX (py start); mkPoint midX (py end_)]%list
  else if ((startDir =? "vertical") && (endDir =? "vertical"))%string then
    [mkPoint (px start) midY; mkPoint (px end_) midY]%list
  else if ((startDir =? "horizontal") && (endDir =? "vertical"))%string then
    [mkPoint (px end_) (py start)]%list
  else if ((startDir =? "vertical") && (endDir =? "horizontal"))%string then
    [mkPoint (px start) (py end_)]%list
  else if Qgtb (Qabs (px end_ - px start)) (Qabs (py end_ - py start)) then
    [mkPoint midX (py start); mkPoint midX (py end_)]%list
  else
    [mkPoint (px start) midY; mkPoint (px end_) midY]%list.

(** The polyline an elbow connector is drawn along:
    [[start, ...waypoints, end]]. *)
Definition elbowPath (start end_ : Point) (waypoints : list Point) : list Point :=
  (start :: waypoints ++ [end_])%list.

(** Every segment of a polyline is horizontal or vertical. *)
Fixpoint rectilinear (path : list Point) : Prop :=
  match path with
  | p :: (q :: _) as r => (px p == px q \/ py p == py q) /\ rectilinear r
  | _ => True
  end.

End Routing.

(** ** Layer management

    [selected] is [this.selectedObject || this.selectedConnector], read
    through the id it carries.  The z-order of all elements is the list of
    [zIndex || 0] over [[...this.objects, ...this.connectors]].  Every
    connector carries [type: 'connector'] (set by [startConnector]), which is
    what the test [e.type === 'connector'] sees for an element taken from
    [this.connectors]; for an element of [this.objects] the test reads the
    object's own [type]. *)

Module Layer.

Inductive Element :=
| ObjectEl (obj : CanvasObject)
| ConnectorEl (connector : Connector).

Definition zIndexOf (e : Element) : Z :=
  match e with
  | ObjectEl obj => zOr0 (o_zIndex obj)
  | ConnectorEl connector => zOr0 (c_zIndex connector)
  end.

Definition selected (s : Canvas) : option Element :=
  match selectedObject s with
  | Some id => option_map ObjectEl (findById o_id id (objects s))
  | None =>
      match selectedConnector s with
      | Some id => option_map ConnectorEl (findById c_id id (connectors s))
      | None => None
      end
  end.

(** [[...this.objects, ...this.connectors].map(e => e.zIndex || 0)] *)
Definition layers (s : Canvas) : list Z :=
  (map (fun o => zOr0 (o_zIndex o)) (objects s)
   ++ map (fun c => zOr0 (c_zIndex c)) (connectors s))%list.

(** [Math.min(...zs)] on a non-empty array, given as head and tail. *)
Definition minOf (z : Z) (zs : list Z) : Z := fold_left Z.min zs z.

(** [get isAtFront()] *)
Definition isAtFront (s : Canvas) : bool :=
  match selected s with
  | None => true
  | Some sel =>
      match layers s with
      | [] => true
      | [_] => true
      | z :: zs => (maxOf z zs <=? zIndexOf sel)%Z
      end
  end.

(** [get isAtBack()] *)
Definition isAtBack (s : Canvas) : bool :=
  match selected s with
  | None => true
  | Some sel =>
      match layers s with
      | [] => true
      | [_] => true
      | z :: zs => (zIndexOf sel <=? minOf z zs)%Z
      end
  end.

(** [selected.zIndex = z] *)
Definition setSelectedZ (z : Z) (s : Canvas) : Canvas :=
  match selectedObject s with
  | Some id =>
      set_objects (updateFirst o_id id (Remote.setObjectZ (Some z)) (objects s)) s
  | None =>
      match selectedConnector s with
      | Some id =>
          set_connectors
            (updateFirst c_id id (Remote.setConnectorZ (Some z)) (connectors s)) s
      | None => s
      end
  end.

(** [if (this.selectedConnector) this.publishConnectorLayerChange(
    this.selectedConnector); else this.publishLayerChange(this.selectedObject)] *)
Definition publishSelected (s : Canvas) : Canvas :=
  match selectedConnector s with
  | Some id => emit (Publish "connector_layer" id) s
  | None =>
      match selectedObject s with
      | Some id => emit (Publish "object_layer" id) s
      | None => s
      end
  end.

(** The event an element of [this.objects] is published with:
    [e.type === 'connector' ? 'connector_layer' : 'object_layer']. *)
Definition layerEventOf (obj : CanvasObject) : Effect :=
  if o_type obj =? "connector"
  then Publish "connector_layer" (o_id obj)
  else Publish "object_layer" (o_id obj).

(** [handleBringToFront()] *)
Definition handleBringToFront (s : Canvas) : Canvas :=
  match selected s with
  | None => s
  | Some _ =>
      if isAtFront s then s
      else
        match layers s with
        | [] => s
        | z :: zs => publishSelected (setSelectedZ (maxOf z zs + 1) s)
        end
  end.

(** The common part of [handleBringForward] and [handleSendBackward]: the
    first element on layer [target], if there is one, takes the selected
    element's layer [currentZ] and is published; the selected element goes to
    [target] and is published. *)
Definition swapWith (currentZ target : Z) (s : Canvas) : Canvas :=
  let onTargetO := fun o : CanvasObject => (zOr0 (o_zIndex o) =? target)%Z in
  let onTargetC := fun c : Connector => (zOr0 (c_zIndex c) =? target)%Z in
  let s1 :=
    match find onTargetO (objects s) with
    | Some other =>
        let s' := set_objects
                    (updateWhere onTargetO (Remote.setObjectZ (Some currentZ))
                       (objects s)) s in
        emit (layerEventOf other) (setSelectedZ target s')
    | None =>
        match find onTargetC (connectors s) with
        | Some other =>
            let s' := set_connectors
                        (updateWhere onTargetC (Remote.setConnectorZ (Some currentZ))
                           (connectors s)) s in
            emit (Publish "connector_layer" (c_id other)) (setSelectedZ target s')
        | None => setSelectedZ target s
        end
    end in
  publishSelected s1.

(** [handleBringForward()] *)
Definition handleBringForward (s : Canvas) : Canvas :=
  match selected s with
  | None => s
  | Some sel =>
      if isAtFront s then s
      else swapWith (zIndexOf sel) (zIndexOf sel + 1) s
  end.

(** [handleSendBackward()] *)
Definition handleSendBackward (s : Canvas) : Canvas :=
  match selected s with
  | None => s
  | Some sel =>
      if isAtBack s then s
      else if (zIndexOf sel <=? 1)%Z then s
      else swapWith (zIndexOf sel) (zIndexOf sel - 1) s
  end.

(** [handleSendToBack()].  The test [e !== selected] of the loop is implied
    by [(e.zIndex || 0) < currentZ], which is false for the selected element
    itself. *)
Definition handleSendToBack (s : Canvas) : Canvas :=
  match selected s with
  | None => s
  | Some sel =>
      if isAtBack s then s
      else
        let currentZ := zIndexOf sel in
        let belowO := fun o : CanvasObject => (zOr0 (o_zIndex o) <? currentZ)%Z in
        let belowC := fun c : Connector => (zOr0 (c_zIndex c) <? currentZ)%Z in
        let raiseO := fun o : CanvasObject =>
                        if belowO o
                        then Remote.setObjectZ (Some (zOr0 (o_zIndex o) + 1)) o
                        else o in
        let raiseC := fun c : Connector =>
                        if belowC c
                        then Remote.setConnectorZ (Some (zOr0 (c_zIndex c) + 1)) c
                        else c in
        let published :=
          (map layerEventOf (filter belowO (objects s))
           ++ map (fun c => Publish "connector_layer" (c_id c))
                (filter belowC (connectors s)))%list in
        let s1 := set_connectors (map raiseC (connectors s))
                    (set_objects (map raiseO (objects s)) s) in
        let s2 := fold_left (fun acc e => emit e acc) published s1 in
        publishSelected (setSelectedZ 1 s2)
  end.

End Layer.

(** The element the layer commands act on,
    [this.selectedObject || this.selectedConnector], is in the Scene. *)
Definition selectionInScene (s : Canvas) : Prop :=
  match selectedObject s with
  | Some id => someId o_id id (objects s) = true
  | None =>
      match selectedConnector s with
      | Some id => someId c_id id (connectors s) = true
      | None => True
      end
  end.

(** The z-order is well formed: every element has a layer of its own, and
    the layers start at 1. *)
Definition distinctLayers (s : Canvas) : Prop :=
  NoDup (Layer.layers s) /\ Forall (fun z => 1 <= z) (Layer.layers s).

(** The four layer commands of the context toolbar. *)
Inductive LayerCommand := BringToFront | BringForward | SendBackward | SendToBack.

Definition runLayerCommand (c : LayerCommand) (s : Canvas) : Canvas :=
  match c with
  | BringToFront => Layer.handleBringToFront s
  | BringForward => Layer.handleBringForward s
  | SendBackward => Layer.handleSendBackward s
  | SendToBack => Layer.handleSendToBack s
  end.

(** What the commands do to a layer [a] when the selected element is on
    layer [cur]. *)
Definition swapZ (cur tgt a : Z) : Z :=
  if (a =? cur)%Z then tgt else if (a =? tgt)%Z then cur else a.

Definition toBackZ (cur a : Z) : Z :=
  if (a =? cur)%Z then 1%Z else if (a <? cur)%Z then (a + 1)%Z else a.

Definition toFrontZ (cur top a : Z) : Z :=
  if (a =? cur)%Z then (top + 1)%Z else a.

(** ** Deletions that are not recorded *)

Module Erase.

(** One round of the loop over [objectIds] in [deleteSelectedObjects]: the
    connectors anchored to the object go first, then the object. *)
Definition deleteWithConnectors (acc : Canvas) (objectId_ : string) : Canvas :=
  let connected :=
    map c_id (filter (Local.anchoredTo objectId_) (connectors acc)) in
  let acc1 := Local.removeConnectors connected acc in
  emit (Publish "object_delete" objectId_)
    (set_objects (removeId o_id objectId_ (objects acc1)) acc1).

(** [deleteSelectedObjects()]: the multi-selection delete. *)
Definition deleteSelectedObjects (s : Canvas) : Canvas :=
  match selectedObjects s, selectedConnectors s with
  | [], [] => s
  | objectIds, connectorIds =>
      let s1 := Local.removeConnectors connectorIds s in
      let s2 := fold_left deleteWithConnectors objectIds s1 in
      set_selection [] [] s2
  end.

(** The connector loop of [deleteObjectWithEraser]: a connector is removed
    and its deletion published only if it is still there. *)
Definition eraseConnectors (ids : list string) (s : Canvas) : Canvas :=
  fold_left
    (fun acc connId =>
       match findById c_id connId (connectors acc) with
       | Some _ =>
           emit (Publish "connector_delete" connId)
             (set_connectors (removeId c_id connId (connectors acc)) acc)
       | None => acc
       end)
    ids s.

(** [deleteObjectWithEraser(obj)] *)
Definition deleteObjectWithEraser (obj : option CanvasObject) (s : Canvas) : Canvas :=
  match obj with
  | None => s
  | Some o =>
      let connected :=
        map c_id (filter (Local.anchoredTo (o_id o)) (connectors s)) in
      let s1 := eraseConnectors connected s in
      let s2 := set_objects (removeId o_id (o_id o) (objects s1)) s1 in
      set_hoveredObject None (emit (Publish "object_delete" (o_id o)) s2)
  end.

(** [deleteConnectorWithEraser(connector)] *)
Definition deleteConnectorWithEraser (connector : option Connector) (s : Canvas)
    : Canvas :=
  match connector with
  | None => s
  | Some c =>
      let s1 := set_connectors (removeId c_id (c_id c) (connectors s)) s in
      set_hoveredConnector None (emit (Publish "connector_delete" (c_id c)) s1)
  end.

End Erase.

(** ** Inbound updates

    The events that change one existing object, with the id they look up and
    the change they make to the object found. *)
Definition objectUpdate (e : RemoteEvent)
    : option (string * (CanvasObject -> CanvasObject)) :=
  match e with
  | Ev_object_move payload =>
      Some (op_id payload, fun obj => assignObject obj payload)
  | Ev_object_resize id x y w h => Some (id, Remote.resizeTo x y w h)
  | Ev_object_style id c b w => Some (id, Remote.restyle c b w)
  | Ev_object_layer id z => Some (id, Remote.setObjectZ z)
  | _ => None
  end.

(** The id an update event refers to, in [objects] or in [connectors]. *)
Definition updatedObject (e : RemoteEvent) : option string :=
  option_map fst (objectUpdate e).

Definition updatedConnector (e : RemoteEvent) : option string :=
  match e with
  | Ev_connector_update payload => Some (cp_id payload)
  | Ev_connector_layer id _ => Some id
  | _ => None
  end.
(** * Properties *)

(** ** Facts about the array helpers *)

Section ArrayFacts.
Variable A : Type.
Variable idOf : A -> string.

Lemma someId_false_count (id : string) (l : list A) :
  someId idOf id l = false -> countId idOf id l = 0%nat.
Proof.
  unfold someId, countId. induction l as [|e r IH]; simpl; intro H; [reflexivity|].
  apply orb_false_iff in H. destruct H as [He Hr]. rewrite He. auto.
Qed.

Lemma someId_true_count (id : string) (l : list A) :
  someId idOf id l = true -> (1 <= countId idOf id l)%nat.
Proof.
  unfold someId, countId. induction l as [|e r IH]; simpl; intro H; [discriminate|].
  destruct (idOf e =? id); simpl in *; [lia | auto].
Qed.

Lemma count_zero_someId (id : string) (l : list A) :
  countId idOf id l = 0%nat -> someId idOf id l = false.
Proof.
  intro H. destruct (someId idOf id l) eqn:E; [|reflexivity].
  apply someId_true_count in E. lia.
Qed.

Lemma countId_app (id : string) (l1 l2 : list A) :
  countId idOf id (l1 ++ l2) = (countId idOf id l1 + countId idOf id l2)%nat.
Proof. unfold countId. rewrite filter_app, length_app. reflexivity. Qed.

Lemma removeId_absent (id : string) (l : list A) :
  countId idOf id l = 0%nat -> removeId idOf id l = l.
Proof.
  unfold countId, removeId. induction l as [|e r IH]; simpl; [reflexivity|].
  destruct (idOf e =? id); simpl; intro H; [discriminate|]. now rewrite IH.
Qed.

Lemma countId_removeId (id : string) (l : list A) :
  countId idOf id (removeId idOf id l) = 0%nat.
Proof.
  unfold countId, removeId. induction l as [|e r IH]; simpl; [reflexivity|].
  destruct (idOf e =? id) eqn:E; simpl; [assumption|]. now rewrite E.
Qed.

Lemma findById_some_id (id : string) (l : list A) (e : A) :
  findById idOf id l = Some e -> idOf e = id.
Proof.
  unfold findById. intro H. apply find_some in H. destruct H as [_ H].
  now apply String.eqb_eq.
Qed.

Lemma findById_updateFirst (id : string) (f : A -> A) (l : list A) (e : A) :
  idOf (f e) = id ->
  findById idOf id l = Some e ->
  findById idOf id (updateFirst idOf id f l) = Some (f e).
Proof.
  unfold findById. intros Hf. induction l as [|a r IH]; simpl; [discriminate|].
  destruct (idOf a =? id) eqn:E; simpl.
  - intro H. injection H as ->. rewrite Hf, String.eqb_refl. reflexivity.
  - rewrite E. exact IH.
Qed.

Lemma count_le_one_NoDup (id : string) (l : list A) :
  NoDup (map idOf l) -> (countId idOf id l <= 1)%nat.
Proof.
  unfold countId. induction l as [|e r IH]; simpl; intro H; [lia|].
  inversion H as [|? ? Hnin Hnd]; subst.
  destruct (idOf e =? id) eqn:E; simpl; [|auto].
  apply String.eqb_eq in E. subst id.
  assert (Hz : filter (fun e0 => idOf e0 =? idOf e) r = []).
  { clear -Hnin. induction r as [|a r IH]; simpl; [reflexivity|].
    destruct (idOf a =? idOf e) eqn:E.
    - apply String.eqb_eq in E. exfalso. apply Hnin. simpl. now left.
    - apply IH. intro Hin. apply Hnin. simpl. now right. }
  rewrite Hz. simpl. lia.
Qed.

Lemma count_zero_not_in (id : string) (l : list A) :
  ~ In id (map idOf l) -> countId idOf id l = 0%nat.
Proof.
  unfold countId. induction l as [|e r IH]; simpl; intro H; [reflexivity|].
  destruct (idOf e =? id) eqn:E.
  - apply String.eqb_eq in E. exfalso. apply H. now left.
  - apply IH. intro Hin. apply H. now right.
Qed.
End ArrayFacts.

(** ** Idempotent remote add and delete *)

Lemma accepted_dispatch (userId : string) (saveOk : bool) (m : PlatformMessage)
    (s : Canvas) :
  accepted userId m s ->
  handlePlatformEvent userId saveOk m s =
  dispatch (collab_User_Name m) saveOk (collab_Event m) s.
Proof.
  intros [Hu Hc]. unfold handlePlatformEvent.
  apply String.eqb_neq in Hu. rewrite Hu, Hc, String.eqb_refl. reflexivity.
Qed.

Lemma uniqueIds_counts (id : string) (sc : Scene) :
  uniqueIds sc -> (sceneCount id sc <= 1)%nat.
Proof.
  unfold uniqueIds, sceneIds, sceneCount. intro H.
  destruct sc as [os ss cs]. simpl in *.
  assert (Hall : forall (l : list string),
             NoDup l -> (List.length (filter (fun x => String.eqb x id) l) <= 1)%nat).
  { intros l Hl.
    pose proof (count_le_one_NoDup (fun x : string => x) id l) as Hc.
    unfold countId in Hc. apply Hc. now rewrite map_id. }
  specialize (Hall _ H). rewrite !filter_app, !length_app in Hall.
  unfold countId.
  assert (Hm : forall (T : Type) (f : T -> string) (l : list T),
             List.length (filter (fun x => x =? id) (map f l))
             = List.length (filter (fun e => f e =? id) l)).
  { intros T f l. induction l as [|a r IH]; simpl; [reflexivity|].
    destruct (f a =? id); simpl; now rewrite IH. }
  rewrite !Hm in Hall. lia.
Qed.

Lemma canvasId_dispatch (userName : string) (saveOk : bool) (e : RemoteEvent)
    (s : Canvas) :
  canvasId (dispatch userName saveOk e s) = canvasId s.
Proof.
  destruct e; simpl;
    unfold Remote.handleRemoteObjectAdd, Remote.handleRemoteObjectMove,
      Remote.handleRemoteObjectResize, Remote.handleRemoteObjectStyle,
      Remote.handleRemoteObjectDelete, Remote.handleRemoteStroke,
      Remote.handleRemoteStrokeDelete, Remote.handleRemoteConnectorAdd,
      Remote.handleRemoteConnectorUpdate, Remote.handleRemoteConnectorDelete,
      Remote.handleRemoteLayerChange, Remote.handleRemoteConnectorLayerChange,
      Remote.handleRemoteGroupCreate, Remote.handleRemoteGroupUngroup,
      saveStateForNewUser, showToast;
    repeat match goal with
           | |- context [match ?x with _ => _ end] => destruct x
           end; reflexivity.
Qed.

Lemma someId_pushed (A : Type) (idOf : A -> string) (l : list A) (e : A) :
  someId idOf (idOf e) (l ++ [e]) = true.
Proof.
  unfold someId. rewrite existsb_app. simpl. rewrite String.eqb_refl.
  apply orb_true_iff. right. reflexivity.
Qed.

Lemma countId_pushed (A : Type) (idOf : A -> string) (l : list A) (e : A) :
  countId idOf (idOf e) (l ++ [e]) = S (countId idOf (idOf e) l).
Proof.
  rewrite countId_app. unfold countId at 2. simpl. rewrite String.eqb_refl.
  simpl. lia.
Qed.

(** C1.  For a remote add event ([object_add], [connector_add], and the stroke
    add event, whose wire name is [draw_stroke]) that passes the inbound
    filters, on a Scene with unique ids where no entity of another kind
    already carries the event's id: applying the event twice gives the same
    state as applying it once, and exactly one entity of the Scene then
    carries that id.  A remote delete event whose id matches no entity of its
    collection leaves the Scene unchanged. *)
Theorem remote_add_delete_idempotent
    (userId : string) (saveOk : bool) (m : PlatformMessage) (s : Canvas)
    (id : string) :
  accepted userId m s ->
  let apply := handlePlatformEvent userId saveOk m in
  (addedId (collab_Event m) = Some id ->
   uniqueIds (scene s) ->
   sceneCount id (scene s) = ownCount (collab_Event m) id (scene s) ->
   apply (apply s) = apply s
   /\ sceneCount id (scene (apply (apply s))) = 1%nat)
  /\ (deletedId (collab_Event m) = Some id ->
      ownCount (collab_Event m) id (scene s) = 0%nat ->
      scene (apply s) = scene s).
Proof.
  intros Hacc apply.
  assert (Hacc1 : accepted userId m (apply s)).
  { destruct Hacc as [Hu Hc]. split; [exact Hu|].
    unfold apply. rewrite (accepted_dispatch saveOk (conj Hu Hc)).
    now rewrite canvasId_dispatch. }
  split.
  - intros Hadd Huniq Hown.
    pose proof (uniqueIds_counts id Huniq) as Hle.
    unfold apply in *.
    rewrite (accepted_dispatch saveOk Hacc1).
    rewrite (accepted_dispatch saveOk Hacc).
    destruct (collab_Event m) as
      [p| | | | |p| |p| | | | | | | | |]; simpl in Hadd; try discriminate;
      injection Hadd as <-; simpl in Hown |- *.
    + unfold Remote.handleRemoteObjectAdd.
      destruct (someId o_id (o_id p) (objects s)) eqn:E; simpl.
      * rewrite E. simpl. split; [reflexivity|].
        apply someId_true_count in E. unfold sceneCount, scene in *.
        simpl in *. lia.
      * apply someId_false_count in E.
        destruct s; simpl in *. rewrite someId_pushed. simpl.
        split; [reflexivity|]. unfold sceneCount in *. simpl in *.
        rewrite countId_pushed. lia.
    + unfold Remote.handleRemoteStroke.
      destruct (someId s_id (s_id p) (strokes s)) eqn:E; simpl.
      * rewrite E. simpl. split; [reflexivity|].
        apply someId_true_count in E. unfold sceneCount, scene in *.
        simpl in *. lia.
      * apply someId_false_count in E.
        destruct s; simpl in *. rewrite someId_pushed. simpl.
        split; [reflexivity|]. unfold sceneCount in *. simpl in *.
        rewrite countId_pushed. lia.
    + unfold Remote.handleRemoteConnectorAdd.
      destruct (someId c_id (c_id p) (connectors s)) eqn:E; simpl.
      * rewrite E. simpl. split; [reflexivity|].
        apply someId_true_count in E. unfold sceneCount, scene in *.
        simpl in *. lia.
      * apply someId_false_count in E.
        destruct s; simpl in *. rewrite someId_pushed. simpl.
        split; [reflexivity|]. unfold sceneCount in *. simpl in *.
        rewrite countId_pushed. lia.
  - intros Hdel Hown. unfold apply.
    rewrite (accepted_dispatch saveOk Hacc).
    destruct (collab_Event m); simpl in Hdel; try discriminate;
      injection Hdel as <-; simpl in Hown |- *.
    + unfold Remote.handleRemoteObjectDelete, scene. simpl.
      now rewrite (removeId_absent _ _ _ Hown).
    + unfold Remote.handleRemoteStrokeDelete, scene.
      rewrite (removeId_absent _ _ _ Hown).
      destruct (refersTo _ _); reflexivity.
    + unfold Remote.handleRemoteConnectorDelete, scene.
      rewrite (removeId_absent _ _ _ Hown).
      destruct (refersTo _ _); reflexivity.
Qed.

Lemma remote_add_delete_idempotent_witness :
  let s0 := set_objects [plainObject "a" "sticky" 0 0 150 150] emptyCanvas in
  let add := mkMessage "peer" "default-canvas" "Peer"
               (Ev_object_add (plainObject "b" "circle" 5 5 80 80)) in
  let del := mkMessage "peer" "default-canvas" "Peer" (Ev_stroke_delete "z") in
  sceneCount "b"
    (scene (handlePlatformEvent "me" true add
              (handlePlatformEvent "me" true add s0))) = 1%nat
  /\ scene (handlePlatformEvent "me" true del s0) = scene s0.
Proof.
  intros s0 add del.
  assert (Hacc : forall e,
             accepted "me" (mkMessage "peer" "default-canvas" "Peer" e) s0).
  { intro e. split; [discriminate | reflexivity]. }
  split.
  - refine (proj2 (proj1 (@remote_add_delete_idempotent "me" true add s0 "b"
                            (Hacc _)) eq_refl _ eq_refl)).
    unfold uniqueIds, sceneIds. simpl.
    constructor; [intros [] | constructor].
  - exact (proj2 (@remote_add_delete_idempotent "me" true del s0 "z" (Hacc _))
             eq_refl eq_refl).
Defined.

(** ** Remote deletes and local references *)

(** C6.  The editor has one object ["a"], which is both selected and hovered.
    The remote [object_delete] of ["a"] removes it from the Scene, but
    [selectedObject] and [hoveredObject] still refer to ["a"] afterwards;
    the stroke and connector handlers do clear [hoveredStroke] and
    [selectedConnector] in the same situation. *)
Theorem remote_object_delete_keeps_references :
  let s0 := set_hoveredObject (Some "a")
              (set_selectedObject (Some "a")
                 (set_objects [plainObject "a" "sticky" 0 0 150 150] emptyCanvas)) in
  let s1 := handlePlatformEvent "me" true
              (mkMessage "peer" "default-canvas" "Peer" (Ev_object_delete "a")) s0 in
  objects s1 = []
  /\ selectedObject s1 = Some "a"
  /\ hoveredObject s1 = Some "a"
  /\ (forall id s, hoveredStroke s = Some id ->
        hoveredStroke (Remote.handleRemoteStrokeDelete id s) = None)
  /\ (forall id s, selectedConnector s = Some id ->
        selectedConnector (Remote.handleRemoteConnectorDelete id s) = None).
Proof.
  simpl. repeat split.
  - intros id s H. unfold Remote.handleRemoteStrokeDelete. simpl.
    rewrite H. simpl. now rewrite String.eqb_refl.
  - intros id s H. unfold Remote.handleRemoteConnectorDelete. simpl.
    rewrite H. simpl. now rewrite String.eqb_refl.
Qed.

(** ** Remote events and the local history *)

(** C10.  No inbound event, whatever its type and payload and whether or not
    it passes the filters, changes the undo stack or the redo stack. *)
Theorem remote_events_preserve_history
    (userId : string) (saveOk : bool) (m : PlatformMessage) (s : Canvas) :
  undoStack (handlePlatformEvent userId saveOk m s) = undoStack s
  /\ redoStack (handlePlatformEvent userId saveOk m s) = redoStack s.
Proof.
  unfold handlePlatformEvent.
  destruct (collab_User_Id m =? userId); [now split|].
  destruct (negb (collab_Canvas_Id m =? canvasId s)); [now split|].
  destruct (collab_Event m); simpl;
    unfold Remote.handleRemoteObjectAdd, Remote.handleRemoteObjectMove,
      Remote.handleRemoteObjectResize, Remote.handleRemoteObjectStyle,
      Remote.handleRemoteObjectDelete, Remote.handleRemoteStroke,
      Remote.handleRemoteStrokeDelete, Remote.handleRemoteConnectorAdd,
      Remote.handleRemoteConnectorUpdate, Remote.handleRemoteConnectorDelete,
      Remote.handleRemoteLayerChange, Remote.handleRemoteConnectorLayerChange,
      Remote.handleRemoteGroupCreate, Remote.handleRemoteGroupUngroup,
      saveStateForNewUser, showToast;
    repeat match goal with
           | |- context [match ?x with _ => _ end] => destruct x
           end; split; reflexivity.
Qed.

(** ** Z-order *)

Lemma maxOf_spec (zs : list Z) (z : Z) :
  In (maxOf z zs) (z :: zs) /\ (forall v, In v (z :: zs) -> v <= maxOf z zs).
Proof.
  unfold maxOf. revert z. induction zs as [|a r IH]; intro z; simpl.
  - split; [now left | intros v [<-|[]]; lia].
  - destruct (IH (Z.max z a)) as [Hin Hle]. split.
    + destruct Hin as [Hin|Hin]; [|now right; right].
      rewrite <- Hin. destruct (Z.max_spec z a) as [[_ ->]|[_ ->]];
        [right; now left | now left].
    + intros v [Hv|[Hv|Hv]].
      * specialize (Hle (Z.max z a) (or_introl eq_refl)). lia.
      * specialize (Hle (Z.max z a) (or_introl eq_refl)). lia.
      * apply Hle. now right.
Qed.

(** C3.  [getNextZIndex] returns one plus the greatest z-index present in
    the Scene, and 1 when the Scene holds no z-index at all; the value is
    therefore strictly above the z-index of every object and of every
    connector.  A stroke carries no z-index ([startDrawing]), so the objects
    and the connectors are all there is to exceed.  The z-indices are safe
    integers, as all those the program assigns are, and so is the sum: the
    number the code computes is this integer. *)
Theorem next_z_index_above_all (s : Canvas) :
  Forall isSafeInteger (sceneZs s) ->
  (sceneZs s = [] -> getNextZIndex s = 1)
  /\ (sceneZs s <> [] ->
      In (getNextZIndex s - 1) (sceneZs s)
      /\ forall z, In z (sceneZs s) -> z <= getNextZIndex s - 1)
  /\ (forall o, In o (objects s) -> zOr0 (o_zIndex o) < getNextZIndex s)
  /\ (forall c, In c (connectors s) -> zOr0 (c_zIndex c) < getNextZIndex s)
  /\ Z.abs (getNextZIndex s) <= 2 ^ 53.
Proof.
  intro Hsafe.
  assert (Hbound : forall z, In z (sceneZs s) -> z < getNextZIndex s).
  { unfold getNextZIndex, sceneZs. intros z Hz.
    destruct (map _ (objects s) ++ map _ (connectors s))%list as [|a r];
      [destruct Hz|].
    destruct (maxOf_spec r a) as [_ Hle]. specialize (Hle z Hz). lia. }
  assert (Hmax : sceneZs s <> [] -> In (getNextZIndex s - 1) (sceneZs s)).
  { unfold getNextZIndex, sceneZs.
    destruct (map _ (objects s) ++ map _ (connectors s))%list as [|a r];
      [contradiction|]. intros _.
    replace (maxOf a r + 1 - 1) with (maxOf a r) by lia.
    apply maxOf_spec. }
  repeat split.
  - unfold getNextZIndex, sceneZs. now intros ->.
  - exact (Hmax H).
  - intros z Hz. specialize (Hbound z Hz). lia.
  - intros o Ho. apply Hbound. unfold sceneZs. apply in_or_app. left.
    now apply (in_map (fun o => zOr0 (o_zIndex o))).
  - intros c Hc. apply Hbound. unfold sceneZs. apply in_or_app. right.
    now apply (in_map (fun c => zOr0 (c_zIndex c))).
  - destruct (sceneZs s) as [|a r] eqn:E.
    + unfold getNextZIndex. unfold sceneZs in E. rewrite E. simpl. lia.
    + assert (Hne : a :: r <> []) by discriminate.
      specialize (Hmax Hne).
      rewrite Forall_forall in Hsafe. specialize (Hsafe _ Hmax).
      unfold isSafeInteger in Hsafe. lia.
Qed.

Lemma next_z_index_above_all_witness :
  let s := set_connectors [plainConnector "k" 0 0 9 9 None None]
             (set_strokes [plainStroke "s1"]
                (set_objects
                   [Remote.setObjectZ (Some 4) (plainObject "a" "sticky" 0 0 1 1)]
                   emptyCanvas)) in
  getNextZIndex s = 5 /\ In (getNextZIndex s - 1) (sceneZs s).
Proof.
  intro s. split; [reflexivity|].
  assert (Hsafe : Forall isSafeInteger (sceneZs s)).
  { repeat constructor; unfold isSafeInteger; simpl; lia. }
  refine (proj1 (proj1 (proj2 (next_z_index_above_all s Hsafe)) _)).
  discriminate.
Defined.

(** ** Anchor re-resolution *)




(** ** Moving a group *)

Lemma updateFirst_map_invariant (A B : Type) (idOf : A -> string) (g : A -> B)
    (f : A -> A) (id : string) (l : list A) :
  (forall a, g (f a) = g a) ->
  map g (updateFirst idOf id f l) = map g l.
Proof.
  intro Hf. induction l as [|a r IH]; simpl; [reflexivity|].
  destruct (idOf a =? id); simpl; [now rewrite Hf | now rewrite IH].
Qed.

Lemma moveGroupChildren_stored_endpoints (group : CanvasObject) (dx dy : Q)
    (s : Canvas) :
  map storedEndpoints (connectors (Group.moveGroupChildren group dx dy s))
  = map storedEndpoints (connectors s).
Proof.
  unfold Group.moveGroupChildren. simpl.
  generalize (connectors s) as l.
  induction (Group.orEmpty (o_connectorIds group)) as [|i r IH]; intro l; simpl;
    [reflexivity|].
  rewrite IH. apply updateFirst_map_invariant. intro a. reflexivity.
Qed.

(** C4, on the code.  Objects [O1] at (0,0) and [O2] at (50,0) are grouped
    with the floating connector [K] that runs from (0,0) to (50,0).  Moving
    the group by (10,20) puts [O1] at (10,20) and [O2] at (60,20), but the
    endpoints of [K] stay where they were: [moveGroupChildren] shifts the
    fields [startPoint] and [endPoint], while a floating endpoint is stored
    in, and resolved from, [startX], [startY], [endX] and [endY], which no
    group move ever changes. *)
Theorem group_move_leaves_floating_endpoints :
  let O1 := plainObject "O1" "rectangle" 0 0 40 40 in
  let O2 := plainObject "O2" "rectangle" 50 0 40 40 in
  let K := plainConnector "K" 0 0 50 0 None None in
  let G := groupObject "G" 0 0 90 40 ["O1"; "O2"] ["K"] in
  let s0 := set_connectors [K] (set_objects [O1; O2; G] emptyCanvas) in
  let s1 := Group.moveGroupChildren G 10 20 s0 in
  map (fun o => (o_id o, o_x o, o_y o)) (objects s1)
    = [("O1", 10, 20); ("O2", 60, 20); ("G", 0, 0)]%Q
  /\ map (fun c => resolveConnectorPoint (objects s1) c StartPoint) (connectors s1)
     = [mkPoint 0 0]
  /\ map (fun c => resolveConnectorPoint (objects s1) c EndPoint) (connectors s1)
     = [mkPoint 50 0]
  /\ (forall group dx dy s,
        map storedEndpoints (connectors (Group.moveGroupChildren group dx dy s))
        = map storedEndpoints (connectors s)).
Proof.
  repeat split; try reflexivity. intros. apply moveGroupChildren_stored_endpoints.
Qed.

(** ** Cursor delta-compression and throttle *)








(** The record is written when the call resolves, not when it is made: three
    moves 1ms apart, made while the first call is still in flight, are all
    sent. *)
Lemma moves_during_a_call_in_flight :
  Cursor.sends
    (Cursor.run [Cursor.MouseMove 20 0 1000; Cursor.MouseMove 40 0 1001;
                 Cursor.MouseMove 60 0 1002] freshPresence) = 3%nat.
Proof. reflexivity. Qed.

(** The distance compared with the threshold is the rounded difference: from
    0.3 to 10.3 it is exactly 10, and the move is not sent. *)
Lemma rounded_distance_at_threshold :
  let s := set_cursor (mkFPoint 0.3 0) 0 emptyCanvas in
  deltaX 10.3 (lastSentCursor s) = 10%float
  /\ Cursor.gate 10.3 0 1000 s = false.
Proof. vm_compute. split; reflexivity. Qed.



(** ** Persistence failures *)

(** C8, as the code has it: not every persistence failure reaches the user.
    When a [user_join] event triggers the courtesy save and that save fails,
    the failure is logged to the console and nothing else happens: the only
    toast is the informational one about the user who joined, and no error
    state is set. *)
Lemma courtesy_save_failure_counterexample :
  let s1 := handlePlatformEvent "me" false
              (mkMessage "peer" "default-canvas" "Peer" Ev_user_join) emptyCanvas in
  In (SaveCanvasState "default-canvas" (mkScene [] [] [])) (effects s1)
  /\ In (ConsoleError "Auto-save for new user failed") (effects s1)
  /\ existsb Persistence.isErrorToast (effects s1) = false
  /\ errorMessage s1 = "".
Proof. simpl. repeat split; auto. Qed.

(** The editor's [loadState] catches a failed load and logs it: no toast is
    raised, the Scene and the error message stay as they were, and
    initialisation ends with the canvas shown. *)
Lemma editor_load_failure_logged_only (s : Canvas) :
  let s1 := Persistence.loadState Persistence.LoadFailed s in
  filter Persistence.isToast (effects s1) = filter Persistence.isToast (effects s)
  /\ errorMessage s1 = errorMessage s
  /\ scene s1 = scene s
  /\ Persistence.isReady
       (Persistence.initializeCanvas true Persistence.LoadFailed emptyCanvas) = true.
Proof.
  unfold Persistence.loadState. simpl. repeat split.
  rewrite <- app_assoc, filter_app. simpl. apply app_nil_r.
Qed.

(** C8, amended.  A failed user-initiated save ([handleSave]) raises an error
    toast.  A failed load in the read-only viewer sets an error message that
    keeps the canvas hidden, also after a later load.  The courtesy save on
    [user_join] is silent: its failure raises no toast. *)
Theorem persistence_failures
    (s : Canvas) (v : Persistence.Viewer) (r : Persistence.LoadResult) :
  existsb Persistence.isErrorToast (effects (Persistence.handleSave false s)) = true
  /\ filter Persistence.isToast (effects (saveStateForNewUser false s))
     = filter Persistence.isToast (effects s)
  /\ (let v1 := Persistence.viewerLoadState Persistence.LoadFailed v in
      Persistence.showCanvas v1 = false
      /\ Persistence.showCanvas (Persistence.viewerLoadState r v1) = false).
Proof.
  split; [|split].
  - unfold Persistence.handleSave, showToast. simpl.
    rewrite existsb_app. simpl. apply orb_true_r.
  - unfold saveStateForNewUser. simpl. rewrite <- app_assoc, filter_app. simpl.
    apply app_nil_r.
  - unfold Persistence.showCanvas, Persistence.viewerHasError. simpl.
    split; [reflexivity|].
    destruct r as [|o st c]; simpl; [reflexivity|].
    destruct (Persistence.nonEmpty o), (Persistence.nonEmpty st),
      (Persistence.nonEmpty c); simpl; reflexivity.
Qed.

(** ** The bound on the undo stack *)

Lemma pop_length (T : Type) (l : list T) (e : T) (r : list T) :
  History.pop l = Some (e, r) -> List.length l = S (List.length r).
Proof.
  unfold History.pop. intro H. rewrite <- (length_rev l).
  destruct (rev l) as [|a q]; [discriminate|]. injection H as <- <-.
  simpl. now rewrite length_rev.
Qed.

Lemma pop_snoc (T : Type) (l : list T) (e : T) :
  History.pop (l ++ [e]) = Some (e, l).
Proof. unfold History.pop. rewrite rev_app_distr. simpl. now rewrite rev_involutive. Qed.

Lemma pop_nil (T : Type) (l : list T) : History.pop l = None -> l = [].
Proof.
  unfold History.pop. intro H. destruct (rev l) eqn:E; [|discriminate].
  rewrite <- (rev_involutive l), E. reflexivity.
Qed.

Ltac crush_stacks :=
  repeat match goal with
         | |- context [match ?x with _ => _ end] => destruct x
         end; simpl; auto.

Lemma executeUndo_stacks (d : UndoData) (s : Canvas) :
  undoStack (fst (History.executeUndo d s)) = undoStack s
  /\ redoStack (fst (History.executeUndo d s)) = redoStack s.
Proof. destruct d; simpl; crush_stacks. Qed.

Lemma executeRedo_stacks (d : RedoData) (s : Canvas) :
  undoStack (fst (History.executeRedo d s)) = undoStack s
  /\ redoStack (fst (History.executeRedo d s)) = redoStack s.
Proof.
  destruct d; simpl; unfold History.viaUndo;
    try match goal with
        | |- context [History.executeUndo ?d ?s] =>
            pose proof (executeUndo_stacks d s);
            destruct (History.executeUndo d s); simpl in *; assumption
        end; crush_stacks.
Qed.

(** Sum of the two stack sizes. *)
Lemma history_size_step (s : Canvas) (op : HistoryOp) :
  (List.length (undoStack s) + List.length (redoStack s) <= 5)%nat ->
  (List.length (undoStack (applyOp s op))
   + List.length (redoStack (applyOp s op)) <= 5)%nat.
Proof.
  intro H. destruct op as [d now|now|now|sc so scn]; simpl.
  - unfold History.recordAction. simpl. rewrite length_app. simpl.
    destruct (5 <? _)%Z eqn:E.
    + destruct (undoStack s) as [|a r]; simpl in *; [lia|].
      rewrite length_app in *. simpl in *. lia.
    + apply Z.ltb_ge in E. rewrite length_app. simpl. lia.
  - unfold History.undo. destruct (History.pop (undoStack s)) as [[a rest]|] eqn:E;
      [|exact H].
    apply pop_length in E.
    pose proof (executeUndo_stacks (u_data a) (set_undoStack rest s)) as [Hu Hr].
    destruct (History.executeUndo (u_data a) (set_undoStack rest s)) as [s2 [d|]];
      simpl in *.
    + rewrite Hu, Hr, length_app. simpl. lia.
    + rewrite Hu, Hr. lia.
  - unfold History.redo. destruct (History.pop (redoStack s)) as [[a rest]|] eqn:E;
      [|exact H].
    apply pop_length in E.
    pose proof (executeRedo_stacks (r_data a) (set_redoStack rest s)) as [Hu Hr].
    destruct (History.executeRedo (r_data a) (set_redoStack rest s)) as [s2 [d|]];
      simpl in *.
    + rewrite Hu, Hr, length_app. simpl. lia.
    + rewrite Hu, Hr. lia.
  - exact H.
Qed.

(** C9.  Starting from empty stacks, after any interleaving of
    [recordAction], [undo] and [redo] (with arbitrary edits of the Scene in
    between) the undo stack holds at most 5 entries; indeed the two stacks
    together never hold more than 5. *)
Theorem undo_stack_bounded (ops : list HistoryOp) (s : Canvas) :
  undoStack s = [] ->
  redoStack s = [] ->
  (List.length (undoStack (runOps ops s)) <= 5)%nat
  /\ (List.length (undoStack (runOps ops s))
      + List.length (redoStack (runOps ops s)) <= 5)%nat.
Proof.
  intros Hu Hr.
  assert (H : (List.length (undoStack s) + List.length (redoStack s) <= 5)%nat).
  { rewrite Hu, Hr. simpl. lia. }
  clear Hu Hr. unfold runOps. revert s H.
  induction ops as [|op r IH]; intros s H; simpl.
  - split; lia.
  - apply IH. now apply history_size_step.
Qed.

Lemma undo_stack_bounded_witness :
  let ops := [OpRecord (U_object_add "a") 1; OpRecord (U_object_add "b") 2;
              OpRecord (U_stroke_add "c") 3; OpRecord (U_object_add "d") 4;
              OpRecord (U_object_add "e") 5; OpRecord (U_object_add "f") 6;
              OpEdit (mkScene [plainObject "f" "sticky" 0 0 1 1] [] []) None None;
              OpUndo 7; OpUndo 8; OpRedo 9; OpRecord (U_object_add "g") 10] in
  (List.length (undoStack (runOps ops emptyCanvas)) <= 5)%nat.
Proof.
  intro ops. exact (proj1 (@undo_stack_bounded ops emptyCanvas eq_refl eq_refl)).
Defined.

(** ** Undo/redo symmetry *)

(** *** The engine depends on the Scene only *)

Arguments undoSc : simpl never.
Arguments redoSc : simpl never.

Lemma scene_sceneCanvas (sc : Scene) : scene (sceneCanvas sc) = sc.
Proof. destruct sc. reflexivity. Qed.

Lemma executeUndo_scene (d : UndoData) (s : Canvas) :
  scene (fst (History.executeUndo d s)) = fst (undoSc d (scene s))
  /\ snd (History.executeUndo d s) = snd (undoSc d (scene s)).
Proof.
  unfold undoSc. destruct d; simpl;
    repeat match goal with
           | |- context [match findById ?f ?i ?l with _ => _ end] =>
               destruct (findById f i l)
           | |- context [if refersTo ?a ?b then _ else _] =>
               destruct (refersTo a b)
           end; simpl; split; reflexivity.
Qed.

Lemma executeRedo_scene (d : RedoData) (s : Canvas) :
  scene (fst (History.executeRedo d s)) = fst (redoSc d (scene s))
  /\ snd (History.executeRedo d s) = snd (redoSc d (scene s)).
Proof.
  unfold redoSc. destruct d; simpl; unfold History.viaUndo; simpl;
    repeat match goal with
           | |- context [match findById ?f ?i ?l with _ => _ end] =>
               destruct (findById f i l)
           | |- context [if refersTo ?a ?b then _ else _] =>
               destruct (refersTo a b)
           end; simpl; split; reflexivity.
Qed.

(** *** [undo] and [redo] called in a row *)

Lemma undo_empty (now : Z) (s : Canvas) : undoStack s = [] -> History.undo now s = s.
Proof. unfold History.undo. now intros ->. Qed.

Lemma redo_empty (now : Z) (s : Canvas) : redoStack s = [] -> History.redo now s = s.
Proof. unfold History.redo. now intros ->. Qed.

Lemma undo_step (now : Z) (s : Canvas) (l : list UndoAction) (a : UndoAction) :
  undoStack s = (l ++ [a])%list ->
  scene (History.undo now s) = fst (undoSc (u_data a) (scene s))
  /\ undoStack (History.undo now s) = l
  /\ map r_data (redoStack (History.undo now s))
     = (map r_data (redoStack s) ++ optCons (snd (undoSc (u_data a) (scene s))) [])%list.
Proof.
  intro H. unfold History.undo. rewrite H, pop_snoc.
  pose proof (executeUndo_scene (u_data a) (set_undoStack l s)) as [Hs Hr].
  pose proof (executeUndo_stacks (u_data a) (set_undoStack l s)) as [Hu Hd].
  change (scene (set_undoStack l s)) with (scene s) in Hs, Hr.
  destruct (History.executeUndo (u_data a) (set_undoStack l s)) as [s2 r].
  simpl in *. rewrite <- Hr, <- Hs. destruct r; simpl.
  - rewrite map_app, Hd. simpl. auto.
  - rewrite Hd, app_nil_r. auto.
Qed.

Lemma redo_step (now : Z) (s : Canvas) (l : list RedoAction) (a : RedoAction) :
  redoStack s = (l ++ [a])%list ->
  scene (History.redo now s) = fst (redoSc (r_data a) (scene s))
  /\ redoStack (History.redo now s) = l.
Proof.
  intro H. unfold History.redo. rewrite H, pop_snoc.
  pose proof (executeRedo_scene (r_data a) (set_redoStack l s)) as [Hs Hr].
  pose proof (executeRedo_stacks (r_data a) (set_redoStack l s)) as [Hu Hd].
  change (scene (set_redoStack l s)) with (scene s) in Hs, Hr.
  destruct (History.executeRedo (r_data a) (set_redoStack l s)) as [s2 r].
  simpl in *. rewrite <- Hs. destruct r; simpl; auto.
Qed.

Lemma undoTimes_all (stack : list UndoAction) :
  forall (nows : list Z) (s : Canvas),
    undoStack s = stack ->
    (List.length stack <= List.length nows)%nat ->
    scene (undoTimes nows s) = fst (undoAllSc (topsOf s) (scene s))
    /\ map r_data (redoStack (undoTimes nows s))
       = (map r_data (redoStack s) ++ snd (undoAllSc (topsOf s) (scene s)))%list.
Proof.
  induction stack as [|a l IH] using rev_ind; intros nows s Hst Hlen.
  - assert (Hid : undoTimes nows s = s).
    { unfold undoTimes. clear Hlen. induction nows as [|n r IHn]; simpl;
        [reflexivity|]. now rewrite (undo_empty n s Hst). }
    rewrite Hid. unfold topsOf. rewrite Hst. simpl. now rewrite app_nil_r.
  - destruct nows as [|now nows]; [rewrite length_app in Hlen; simpl in Hlen; lia|].
    rewrite length_app in Hlen. simpl in Hlen.
    destruct (@undo_step now s l a Hst) as [Hsc [Hu Hr]].
    change (undoTimes (now :: nows) s) with (undoTimes nows (History.undo now s)).
    destruct (IH nows (History.undo now s) Hu ltac:(lia)) as [IHs IHr].
    unfold topsOf in *. rewrite Hu in IHs, IHr. rewrite Hst, rev_app_distr.
    cbn [rev app map undoAllSc].
    rewrite Hsc in IHs, IHr. rewrite IHr, Hr, IHs.
    destruct (undoSc (u_data a) (scene s)) as [sc1 r]. cbn [fst snd].
    destruct (undoAllSc (map u_data (rev l)) sc1) as [sc2 gen]. cbn [fst snd].
    split; [reflexivity|]. rewrite <- app_assoc. destruct r; reflexivity.
Qed.

Lemma redoTimes_all (stack : list RedoAction) :
  forall (nows : list Z) (s : Canvas),
    redoStack s = stack ->
    (List.length stack <= List.length nows)%nat ->
    scene (redoTimes nows s) = redoAllSc (map r_data (rev stack)) (scene s).
Proof.
  induction stack as [|a l IH] using rev_ind; intros nows s Hst Hlen.
  - assert (Hid : redoTimes nows s = s).
    { unfold redoTimes. clear Hlen. induction nows as [|n r IHn]; simpl;
        [reflexivity|]. now rewrite (redo_empty n s Hst). }
    now rewrite Hid.
  - destruct nows as [|now nows]; [rewrite length_app in Hlen; simpl in Hlen; lia|].
    rewrite length_app in Hlen. simpl in Hlen.
    destruct (@redo_step now s l a Hst) as [Hsc Hr].
    change (redoTimes (now :: nows) s) with (redoTimes nows (History.redo now s)).
    rewrite (IH nows (History.redo now s) Hr ltac:(lia)).
    rewrite rev_app_distr. simpl. now rewrite Hsc.
Qed.

Lemma undoAllSc_gen_length (tops : list UndoData) (sc : Scene) :
  (List.length (snd (undoAllSc tops sc)) <= List.length tops)%nat.
Proof.
  revert sc. induction tops as [|d rest IH]; intro sc; [simpl; lia|].
  cbn [undoAllSc]. destruct (undoSc d sc) as [sc1 r]. specialize (IH sc1).
  destruct (undoAllSc rest sc1) as [sc2 gen]. cbn [fst snd length] in *.
  destruct r; simpl; lia.
Qed.

Lemma undo_redo_roundTrip (s : Canvas) (nowsU nowsR : list Z) :
  redoStack s = [] ->
  (List.length (undoStack s) <= List.length nowsU)%nat ->
  (List.length (undoStack s) <= List.length nowsR)%nat ->
  scene (redoTimes nowsR (undoTimes nowsU s)) = roundTrip (topsOf s) (scene s).
Proof.
  intros Hr HU HR.
  destruct (@undoTimes_all (undoStack s) nowsU s eq_refl HU) as [Hsc Hgen].
  rewrite Hr in Hgen. cbn [map app] in Hgen.
  pose proof (undoAllSc_gen_length (topsOf s) (scene s)) as Hlen.
  rewrite (@redoTimes_all (redoStack (undoTimes nowsU s)) nowsR
             (undoTimes nowsU s) eq_refl).
  - rewrite map_rev, Hgen, Hsc. unfold roundTrip.
    destruct (undoAllSc (topsOf s) (scene s)). reflexivity.
  - rewrite <- (length_map r_data (redoStack (undoTimes nowsU s))), Hgen.
    unfold topsOf in Hlen at 2. rewrite length_map, length_rev in Hlen. lia.
Qed.

Lemma roundTrip_cons (d : UndoData) (rest : list UndoData) (sc : Scene) :
  roundTrip (d :: rest) sc
  = match snd (undoSc d sc) with
    | Some r => fst (redoSc r (roundTrip rest (fst (undoSc d sc))))
    | None => roundTrip rest (fst (undoSc d sc))
    end.
Proof.
  unfold roundTrip. cbn [undoAllSc]. destruct (undoSc d sc) as [sc1 r].
  cbn [fst snd]. destruct (undoAllSc rest sc1) as [sc2 gen].
  destruct r; cbn [optCons rev]; [|reflexivity].
  unfold redoAllSc. now rewrite fold_left_app.
Qed.

(** *** Lists seen through the set of doomed ids *)

Section Visible.
Variable A : Type.
Variable idOf : A -> string.

Let vis (D : list string) (l : list A) : list A :=
  filter (fun e => alive D (idOf e)) l.

Lemma removeId_none (x : string) (l : list A) :
  findById idOf x l = None -> removeId idOf x l = l.
Proof.
  unfold findById, removeId. induction l as [|e r IH]; simpl; [reflexivity|].
  destruct (idOf e =? x); simpl; [discriminate|]. intro H. now rewrite IH.
Qed.

Lemma updateFirst_none (x : string) (f : A -> A) (l : list A) :
  findById idOf x l = None -> updateFirst idOf x f l = l.
Proof.
  unfold findById. induction l as [|e r IH]; simpl; [reflexivity|].
  destruct (idOf e =? x); simpl; [discriminate|]. intro H. now rewrite IH.
Qed.

Lemma map_removeId (x : string) (l : list A) :
  map idOf (removeId idOf x l) = dropId x (map idOf l).
Proof.
  unfold dropId, removeId. induction l as [|e r IH]; simpl; [reflexivity|].
  destruct (idOf e =? x); simpl; now rewrite IH.
Qed.

Lemma map_updateFirst (x : string) (f : A -> A) (l : list A) :
  (forall e, idOf (f e) = idOf e) ->
  map idOf (updateFirst idOf x f l) = map idOf l.
Proof. intro Hf. now apply updateFirst_map_invariant. Qed.

Lemma map_vis (D : list string) (l : list A) :
  map idOf (vis D l) = filter (alive D) (map idOf l).
Proof.
  unfold vis. induction l as [|e r IH]; simpl; [reflexivity|].
  destruct (alive D (idOf e)); simpl; now rewrite IH.
Qed.

Lemma vis_removeId (D : list string) (x : string) (l : list A) :
  vis D (removeId idOf x l) = removeId idOf x (vis D l).
Proof.
  unfold vis, removeId. induction l as [|e r IH]; simpl; [reflexivity|].
  destruct (idOf e =? x) eqn:E1, (alive D (idOf e)) eqn:E2; simpl;
    rewrite ?E1, ?E2; simpl; now rewrite IH.
Qed.

Lemma vis_removeId_doomed (D : list string) (x : string) (l : list A) :
  alive D x = false -> vis D (removeId idOf x l) = vis D l.
Proof.
  intro Hx. unfold vis, removeId. induction l as [|e r IH]; simpl; [reflexivity|].
  destruct (idOf e =? x) eqn:E1; simpl.
  - apply String.eqb_eq in E1. rewrite E1, Hx. exact IH.
  - destruct (alive D (idOf e)); now rewrite IH.
Qed.

Lemma alive_cons (D : list string) (x y : string) :
  alive (x :: D) y = negb (y =? x) && alive D y.
Proof. unfold alive. simpl. now rewrite negb_orb. Qed.

Lemma vis_cons (D : list string) (x : string) (l : list A) :
  vis (x :: D) l = removeId idOf x (vis D l).
Proof.
  unfold vis, removeId. induction l as [|e r IH]; simpl; [reflexivity|].
  rewrite alive_cons.
  destruct (idOf e =? x) eqn:E1, (alive D (idOf e)) eqn:E2; simpl;
    rewrite ?E1; simpl; now rewrite IH.
Qed.

Lemma findById_vis (D : list string) (x : string) (l : list A) :
  alive D x = true -> findById idOf x (vis D l) = findById idOf x l.
Proof.
  intro Hx. unfold vis, findById. induction l as [|e r IH]; simpl; [reflexivity|].
  destruct (idOf e =? x) eqn:E1.
  - pose proof E1 as E. apply String.eqb_eq in E. rewrite E, Hx. simpl.
    rewrite E in E1. rewrite <- E at 1. now rewrite String.eqb_refl.
  - destruct (alive D (idOf e)); simpl; [now rewrite E1|exact IH].
Qed.

Lemma vis_updateFirst_doomed (D : list string) (x : string) (f : A -> A)
    (l : list A) :
  (forall e, idOf (f e) = idOf e) ->
  alive D x = false -> vis D (updateFirst idOf x f l) = vis D l.
Proof.
  intros Hf Hx. unfold vis. induction l as [|e r IH]; simpl; [reflexivity|].
  destruct (idOf e =? x) eqn:E1; simpl.
  - rewrite Hf. apply String.eqb_eq in E1. now rewrite E1, Hx.
  - destruct (alive D (idOf e)); now rewrite IH.
Qed.

Lemma vis_updateFirst_alive (D : list string) (x : string) (f : A -> A)
    (l : list A) :
  (forall e, idOf (f e) = idOf e) ->
  alive D x = true ->
  vis D (updateFirst idOf x f l) = updateFirst idOf x f (vis D l).
Proof.
  intros Hf Hx. unfold vis. induction l as [|e r IH]; simpl; [reflexivity|].
  destruct (idOf e =? x) eqn:E1; simpl.
  - rewrite Hf. pose proof E1 as E. apply String.eqb_eq in E.
    rewrite E, Hx. simpl. rewrite <- E at 1. now rewrite String.eqb_refl.
  - destruct (alive D (idOf e)); simpl; rewrite ?E1; now rewrite IH.
Qed.

Lemma updateFirst_undo (x : string) (f g : A -> A) (l : list A) (o : A) :
  findById idOf x l = Some o ->
  idOf (f o) = idOf o ->
  g (f o) = o ->
  updateFirst idOf x g (updateFirst idOf x f l) = l.
Proof.
  unfold findById. intros Hfind Hid Hgf.
  induction l as [|e r IH]; simpl in *; [discriminate|].
  destruct (idOf e =? x) eqn:E1; simpl.
  - injection Hfind as ->. rewrite Hid, E1. now rewrite Hgf.
  - rewrite E1. now rewrite IH.
Qed.

Lemma dropId_not_in (x : string) (l : list string) : ~ In x (dropId x l).
Proof.
  unfold dropId, removeId. intro H. apply filter_In in H. destruct H as [_ H].
  now rewrite String.eqb_refl in H.
Qed.

Lemma dropId_absent (x : string) (l : list string) : ~ In x l -> dropId x l = l.
Proof.
  unfold dropId, removeId. induction l as [|e r IH]; simpl; [reflexivity|].
  intro H. destruct (e =? x) eqn:E; simpl.
  - apply String.eqb_eq in E. exfalso. apply H. now left.
  - rewrite IH; [reflexivity|]. intro Hin. apply H. now right.
Qed.

Lemma removeId_absent_ids (x : string) (l : list A) :
  ~ In x (map idOf l) -> removeId idOf x l = l.
Proof.
  intro H. apply removeId_absent. now apply count_zero_not_in.
Qed.

Lemma findById_in (x : string) (l : list A) (o : A) :
  findById idOf x l = Some o -> In x (map idOf l).
Proof.
  intro H. pose proof (findById_some_id _ _ _ H) as Hid.
  unfold findById in H. apply find_some in H. destruct H as [Hin _].
  rewrite <- Hid. now apply in_map.
Qed.

Lemma findById_app (x : string) (l1 l2 : list A) :
  findById idOf x (l1 ++ l2)
  = match findById idOf x l1 with
    | Some e => Some e
    | None => findById idOf x l2
    end.
Proof.
  unfold findById. induction l1 as [|e r IH]; simpl; [reflexivity|].
  destruct (idOf e =? x); [reflexivity|exact IH].
Qed.

(** An entity found by id that is last and alone with this id. *)
Lemma last_split (x : string) (l : list A) (o : A) :
  lastOrAbsent x (map idOf l) ->
  findById idOf x l = Some o ->
  l = (removeId idOf x l ++ [o])%list.
Proof.
  intros Hlast Hfind. specialize (Hlast (findById_in _ _ Hfind)).
  pose proof (dropId_not_in x (map idOf l)) as Hnot.
  rewrite <- map_removeId in Hlast, Hnot.
  destruct (exists_last (l := l)) as [l0 [z Hl]].
  { intro Hnil. rewrite Hnil in Hfind. discriminate. }
  subst l. rewrite map_app in Hlast. simpl in Hlast.
  unfold removeId in *. rewrite filter_app in *. simpl in *.
  destruct (idOf z =? x) eqn:Ez; simpl in *.
  - rewrite app_nil_r in *. apply app_inj_tail in Hlast. destruct Hlast as [Hm _].
    assert (Hl0 : filter (fun e => negb (idOf e =? x)) l0 = l0).
    { apply removeId_absent_ids. rewrite Hm. exact Hnot. }
    rewrite Hl0. f_equal. f_equal.
    rewrite findById_app in Hfind.
    destruct (findById idOf x l0) as [w|] eqn:Ew.
    + exfalso. apply findById_in in Ew. apply Hnot. now rewrite <- Hm.
    + unfold findById in Hfind. simpl in Hfind. rewrite Ez in Hfind.
      now injection Hfind.
  - rewrite map_app in Hlast. simpl in Hlast.
    apply app_inj_tail in Hlast. destruct Hlast as [_ Hz].
    rewrite Hz, String.eqb_refl in Ez. discriminate.
Qed.

(** Undoing an insertion and redoing it. *)
Lemma add_case (D : list string) (x : string) (L Z : list A) (o : A) :
  findById idOf x L = Some o ->
  lastOrAbsent x (map idOf (vis D L)) ->
  vis D Z = vis D (removeId idOf x L) ->
  vis D (Z ++ [o])%list = vis D L.
Proof.
  intros Hfind Hlast HZ. pose proof (findById_some_id _ _ _ Hfind) as Hid.
  unfold vis in *. rewrite filter_app, HZ. simpl. rewrite Hid.
  destruct (alive D x) eqn:Hx.
  - fold (vis D (removeId idOf x L)). rewrite vis_removeId.
    symmetry. apply last_split; [exact Hlast|].
    fold (vis D L). now rewrite findById_vis.
  - rewrite app_nil_r. now apply vis_removeId_doomed.
Qed.

(** Undoing a removal and redoing it. *)
Lemma del_case (D : list string) (L Z : list A) (e : A) :
  ~ In (idOf e) (map idOf (vis D L)) ->
  vis (idOf e :: D) Z = vis (idOf e :: D) (L ++ [e])%list ->
  vis D (removeId idOf (idOf e) Z) = vis D L.
Proof.
  intros Hnot HZ. rewrite vis_removeId, <- vis_cons, HZ, vis_cons.
  unfold vis at 1. rewrite filter_app. simpl.
  unfold removeId. rewrite filter_app.
  assert (Hlast : filter (fun e0 => negb (idOf e0 =? idOf e))
                    (if alive D (idOf e) then [e] else []) = []).
  { destruct (alive D (idOf e)); simpl; [|reflexivity].
    now rewrite String.eqb_refl. }
  rewrite Hlast, app_nil_r. now apply removeId_absent_ids.
Qed.

(** Restoring captured fields and restoring them back. *)
Lemma upd_case (D : list string) (x : string) (f g : A -> A) (L Z : list A) (o : A) :
  (forall e, idOf (f e) = idOf e) ->
  (forall e, idOf (g e) = idOf e) ->
  findById idOf x L = Some o ->
  g (f o) = o ->
  vis D Z = vis D (updateFirst idOf x f L) ->
  vis D (updateFirst idOf x g Z) = vis D L.
Proof.
  intros Hf Hg Hfind Hgf HZ. destruct (alive D x) eqn:Hx.
  - rewrite vis_updateFirst_alive by assumption. rewrite HZ.
    rewrite vis_updateFirst_alive by assumption.
    apply updateFirst_undo with (o := o); [|apply Hf|exact Hgf].
    now rewrite findById_vis.
  - rewrite vis_updateFirst_doomed by assumption. rewrite HZ.
    now apply vis_updateFirst_doomed.
Qed.

End Visible.

(** *** What one undo or redo does to the Scene *)

Ltac scene_eq :=
  unfold undoSc, redoSc, withObjects, withStrokes, withConnectors;
  match goal with |- context [sceneCanvas ?sc] => destruct sc end;
  simpl; unfold History.viaUndo; simpl;
  repeat match goal with
         | |- context [match findById ?f ?i ?l with _ => _ end] =>
             let E := fresh "E" in
             destruct (findById f i l) eqn:E; simpl;
             [ try rewrite (findById_some_id _ _ _ E)
             | try rewrite (removeId_none _ _ _ E);
               try rewrite (updateFirst_none _ _ _ _ E) ]
         end;
  try reflexivity.

Lemma undoSc_object_add (x : string) (sc : Scene) :
  undoSc (U_object_add x) sc
  = (withObjects (removeId o_id x (sc_objects sc)) sc,
     option_map R_object_add (findById o_id x (sc_objects sc))).
Proof. scene_eq. Qed.

Lemma undoSc_group_create (x : string) (sc : Scene) :
  undoSc (U_group_create x) sc
  = (withObjects (removeId o_id x (sc_objects sc)) sc,
     option_map R_group_create (findById o_id x (sc_objects sc))).
Proof. scene_eq. Qed.

Lemma undoSc_object_delete (obj : CanvasObject) (sc : Scene) :
  undoSc (U_object_delete obj) sc
  = (withObjects (sc_objects sc ++ [obj]) sc, Some (R_object_delete (o_id obj))).
Proof. scene_eq. Qed.

Lemma undoSc_group_ungroup (g : CanvasObject) (sc : Scene) :
  undoSc (U_group_ungroup g) sc
  = (withObjects (sc_objects sc ++ [g]) sc,
     Some (R_group_ungroup (o_id g) (o_children g))).
Proof. scene_eq. Qed.

Lemma undoSc_object_move (x : string) (px0 py0 : Q) (sc : Scene) :
  undoSc (U_object_move x px0 py0) sc
  = (withObjects (updateFirst o_id x (History.moveTo px0 py0) (sc_objects sc)) sc,
     option_map (fun o => R_object_move (o_id o) (o_x o) (o_y o))
       (findById o_id x (sc_objects sc))).
Proof. scene_eq. Qed.

Lemma undoSc_object_resize (x : string) (a b c d : Q) (sc : Scene) :
  undoSc (U_object_resize x a b c d) sc
  = (withObjects (updateFirst o_id x (Remote.resizeTo a b c d) (sc_objects sc)) sc,
     option_map (fun o => R_object_resize (o_id o) (o_x o) (o_y o) (o_width o)
                            (o_height o))
       (findById o_id x (sc_objects sc))).
Proof. scene_eq. Qed.

Lemma undoSc_object_text (x : string) (t : option string) (sc : Scene) :
  undoSc (U_object_text x t) sc
  = (withObjects (updateFirst o_id x (History.setText t) (sc_objects sc)) sc,
     option_map (fun o => R_object_text (o_id o) (o_text o))
       (findById o_id x (sc_objects sc))).
Proof. scene_eq. Qed.

Lemma undoSc_connector_add (x : string) (sc : Scene) :
  undoSc (U_connector_add x) sc
  = (withConnectors (removeId c_id x (sc_connectors sc)) sc,
     option_map R_connector_add (findById c_id x (sc_connectors sc))).
Proof. scene_eq. Qed.

Lemma undoSc_connector_delete (c : Connector) (sc : Scene) :
  undoSc (U_connector_delete c) sc
  = (withConnectors (sc_connectors sc ++ [c]) sc, Some (R_connector_delete (c_id c))).
Proof. scene_eq. Qed.

Lemma undoSc_stroke_add (x : string) (sc : Scene) :
  undoSc (U_stroke_add x) sc
  = (withStrokes (removeId s_id x (sc_strokes sc)) sc,
     option_map R_stroke_add (findById s_id x (sc_strokes sc))).
Proof. scene_eq. Qed.

Lemma undoSc_stroke_delete (st : Stroke) (sc : Scene) :
  undoSc (U_stroke_delete st) sc
  = (withStrokes (sc_strokes sc ++ [st]) sc, Some (R_stroke_delete (s_id st))).
Proof. scene_eq. Qed.

Lemma undoSc_unknown (t : string) (sc : Scene) :
  undoSc (U_unknown t) sc = (sc, None).
Proof. scene_eq. Qed.

Lemma redoSc_object_add (o : CanvasObject) (sc : Scene) :
  fst (redoSc (R_object_add o) sc) = withObjects (sc_objects sc ++ [o]) sc.
Proof. scene_eq. Qed.

Lemma redoSc_group_create (o : CanvasObject) (sc : Scene) :
  fst (redoSc (R_group_create o) sc) = withObjects (sc_objects sc ++ [o]) sc.
Proof. scene_eq. Qed.

Lemma redoSc_object_delete (x : string) (sc : Scene) :
  fst (redoSc (R_object_delete x) sc)
  = withObjects (removeId o_id x (sc_objects sc)) sc.
Proof. scene_eq. Qed.

Lemma redoSc_group_ungroup (x : string) (ch : option (list string)) (sc : Scene) :
  fst (redoSc (R_group_ungroup x ch) sc)
  = withObjects (removeId o_id x (sc_objects sc)) sc.
Proof. scene_eq. Qed.

Lemma redoSc_object_move (x : string) (px0 py0 : Q) (sc : Scene) :
  fst (redoSc (R_object_move x px0 py0) sc)
  = withObjects (updateFirst o_id x (History.moveTo px0 py0) (sc_objects sc)) sc.
Proof. scene_eq. Qed.

Lemma redoSc_object_resize (x : string) (a b c d : Q) (sc : Scene) :
  fst (redoSc (R_object_resize x a b c d) sc)
  = withObjects (updateFirst o_id x (Remote.resizeTo a b c d) (sc_objects sc)) sc.
Proof. scene_eq. Qed.

Lemma redoSc_object_text (x : string) (t : option string) (sc : Scene) :
  fst (redoSc (R_object_text x t) sc)
  = withObjects (updateFirst o_id x (History.setText t) (sc_objects sc)) sc.
Proof. scene_eq. Qed.

Lemma redoSc_connector_add (c : Connector) (sc : Scene) :
  fst (redoSc (R_connector_add c) sc) = withConnectors (sc_connectors sc ++ [c]) sc.
Proof. scene_eq. Qed.

Lemma redoSc_connector_delete (x : string) (sc : Scene) :
  fst (redoSc (R_connector_delete x) sc)
  = withConnectors (removeId c_id x (sc_connectors sc)) sc.
Proof. scene_eq. Qed.

Lemma redoSc_stroke_add (st : Stroke) (sc : Scene) :
  fst (redoSc (R_stroke_add st) sc) = withStrokes (sc_strokes sc ++ [st]) sc.
Proof. scene_eq. Qed.

Lemma redoSc_stroke_delete (x : string) (sc : Scene) :
  fst (redoSc (R_stroke_delete x) sc)
  = withStrokes (removeId s_id x (sc_strokes sc)) sc.
Proof. scene_eq. Qed.

(** *** Undoing everything and redoing everything *)

Lemma moveTo_id (a b : Q) (e : CanvasObject) : o_id (History.moveTo a b e) = o_id e.
Proof. reflexivity. Qed.

Lemma resizeTo_id (a b c d : Q) (e : CanvasObject) :
  o_id (Remote.resizeTo a b c d e) = o_id e.
Proof. reflexivity. Qed.

Lemma setText_id (t : option string) (e : CanvasObject) :
  o_id (History.setText t e) = o_id e.
Proof. reflexivity. Qed.

Ltac norm_scene :=
  unfold idsOf, visible, withObjects, withStrokes, withConnectors in *;
  cbn [sc_objects sc_strokes sc_connectors i_objects i_strokes i_connectors
         d_objects d_strokes d_connectors fst snd] in *.

Ltac close_scene H :=
  let Ho := fresh "Ho" in
  let Hs := fresh "Hs" in
  let Hc := fresh "Hc" in
  injection H as Ho Hs Hc; f_equal; try assumption.

Lemma roundTrip_visible (tops : list UndoData) :
  forall (sc : Scene) (D : Doom),
    replayable tops (idsOf (visible D sc)) ->
    visible D (roundTrip tops sc) = visible D sc.
Proof.
  induction tops as [|d rest IH]; intros sc D Hwf; [reflexivity|].
  rewrite roundTrip_cons. destruct sc as [objs strks conns].
  destruct D as [dmo dms dmc].
  destruct d as [x|obj|x a b|x a b c e|x a b c e f|x t|x|conn|x st|x|st|x|g|t];
    cbn [replayable] in Hwf; try contradiction.
  - (* object_add *)
    destruct Hwf as [Hlast Hrest]. rewrite undoSc_object_add.
    assert (IH' := IH (withObjects (removeId o_id x objs) (mkScene objs strks conns))
                     (mkDoom dmo dms dmc)).
    norm_scene. rewrite <- map_removeId, <- vis_removeId in Hrest.
    specialize (IH' Hrest).
    destruct (findById o_id x objs) as [o|] eqn:Hf; cbn [option_map].
    + rewrite redoSc_object_add. norm_scene. close_scene IH'.
      now apply add_case with (x := x).
    + rewrite (removeId_none _ _ _ Hf) in IH' |- *. exact IH'.
  - (* object_delete *)
    destruct Hwf as [Hnot Hrest]. rewrite undoSc_object_delete. cbn [fst snd].
    rewrite redoSc_object_delete.
    assert (IH' := IH (withObjects (objs ++ [obj]) (mkScene objs strks conns))
                     (mkDoom (o_id obj :: dmo) dms dmc)).
    norm_scene.
    assert (Hids : map o_id
                     (filter (fun o => alive (o_id obj :: dmo) (o_id o))
                        (objs ++ [obj]))
                   = map o_id (filter (fun o => alive dmo (o_id o)) objs)).
    { rewrite vis_cons, map_removeId, filter_app, map_app.
      unfold dropId, removeId. rewrite filter_app.
      replace (filter (fun e => negb (e =? o_id obj))
                 (map o_id (filter (fun o => alive dmo (o_id o)) [obj])))
        with (@nil string).
      - rewrite app_nil_r. now apply dropId_absent.
      - simpl. destruct (alive dmo (o_id obj)); simpl;
          [now rewrite String.eqb_refl | reflexivity]. }
    rewrite Hids in IH'. specialize (IH' Hrest).
    close_scene IH'. now apply del_case.
  - (* object_move *)
    rewrite undoSc_object_move.
    assert (IH' := IH (withObjects (updateFirst o_id x (History.moveTo a b) objs)
                         (mkScene objs strks conns))
                     (mkDoom dmo dms dmc)).
    norm_scene.
    rewrite (map_vis o_id), (map_updateFirst _ _ _ _ (moveTo_id a b)),
      <- (map_vis o_id) in IH'.
    specialize (IH' Hwf).
    destruct (findById o_id x objs) as [o|] eqn:Hf; cbn [option_map].
    + rewrite redoSc_object_move. norm_scene. close_scene IH'.
      rewrite (findById_some_id _ _ _ Hf).
      apply upd_case with (f := History.moveTo a b) (o := o); auto.
      now destruct o.
    + rewrite (updateFirst_none _ _ _ _ Hf) in IH' |- *. exact IH'.
  - (* object_resize *)
    rewrite undoSc_object_resize.
    assert (IH' := IH (withObjects (updateFirst o_id x (Remote.resizeTo a b c e) objs)
                         (mkScene objs strks conns))
                     (mkDoom dmo dms dmc)).
    norm_scene.
    rewrite (map_vis o_id), (map_updateFirst _ _ _ _ (resizeTo_id a b c e)),
      <- (map_vis o_id) in IH'.
    specialize (IH' Hwf).
    destruct (findById o_id x objs) as [o|] eqn:Hf; cbn [option_map].
    + rewrite redoSc_object_resize. norm_scene. close_scene IH'.
      rewrite (findById_some_id _ _ _ Hf).
      apply upd_case with (f := Remote.resizeTo a b c e) (o := o); auto.
      now destruct o.
    + rewrite (updateFirst_none _ _ _ _ Hf) in IH' |- *. exact IH'.
  - (* object_text *)
    rewrite undoSc_object_text.
    assert (IH' := IH (withObjects (updateFirst o_id x (History.setText t) objs)
                         (mkScene objs strks conns))
                     (mkDoom dmo dms dmc)).
    norm_scene.
    rewrite (map_vis o_id), (map_updateFirst _ _ _ _ (setText_id t)),
      <- (map_vis o_id) in IH'.
    specialize (IH' Hwf).
    destruct (findById o_id x objs) as [o|] eqn:Hf; cbn [option_map].
    + rewrite redoSc_object_text. norm_scene. close_scene IH'.
      rewrite (findById_some_id _ _ _ Hf).
      apply upd_case with (f := History.setText t) (o := o); auto.
      now destruct o.
    + rewrite (updateFirst_none _ _ _ _ Hf) in IH' |- *. exact IH'.
  - (* connector_add *)
    destruct Hwf as [Hlast Hrest]. rewrite undoSc_connector_add.
    assert (IH' := IH (withConnectors (removeId c_id x conns) (mkScene objs strks conns))
                     (mkDoom dmo dms dmc)).
    norm_scene. rewrite <- map_removeId, <- vis_removeId in Hrest.
    specialize (IH' Hrest).
    destruct (findById c_id x conns) as [o|] eqn:Hf; cbn [option_map].
    + rewrite redoSc_connector_add. norm_scene. close_scene IH'.
      now apply add_case with (x := x).
    + rewrite (removeId_none _ _ _ Hf) in IH' |- *. exact IH'.
  - (* connector_delete *)
    destruct Hwf as [Hnot Hrest]. rewrite undoSc_connector_delete. cbn [fst snd].
    rewrite redoSc_connector_delete.
    assert (IH' := IH (withConnectors (conns ++ [conn]) (mkScene objs strks conns))
                     (mkDoom dmo dms (c_id conn :: dmc))).
    norm_scene.
    assert (Hids : map c_id
                     (filter (fun o => alive (c_id conn :: dmc) (c_id o))
                        (conns ++ [conn]))
                   = map c_id (filter (fun o => alive dmc (c_id o)) conns)).
    { rewrite vis_cons, map_removeId, filter_app, map_app.
      unfold dropId, removeId. rewrite filter_app.
      replace (filter (fun e => negb (e =? c_id conn))
                 (map c_id (filter (fun o => alive dmc (c_id o)) [conn])))
        with (@nil string).
      - rewrite app_nil_r. now apply dropId_absent.
      - simpl. destruct (alive dmc (c_id conn)); simpl;
          [now rewrite String.eqb_refl | reflexivity]. }
    rewrite Hids in IH'. specialize (IH' Hrest).
    close_scene IH'. now apply del_case.
  - (* stroke_add *)
    destruct Hwf as [Hlast Hrest]. rewrite undoSc_stroke_add.
    assert (IH' := IH (withStrokes (removeId s_id x strks) (mkScene objs strks conns))
                     (mkDoom dmo dms dmc)).
    norm_scene. rewrite <- map_removeId, <- vis_removeId in Hrest.
    specialize (IH' Hrest).
    destruct (findById s_id x strks) as [o|] eqn:Hf; cbn [option_map].
    + rewrite redoSc_stroke_add. norm_scene. close_scene IH'.
      now apply add_case with (x := x).
    + rewrite (removeId_none _ _ _ Hf) in IH' |- *. exact IH'.
  - (* stroke_delete *)
    destruct Hwf as [Hnot Hrest]. rewrite undoSc_stroke_delete. cbn [fst snd].
    rewrite redoSc_stroke_delete.
    assert (IH' := IH (withStrokes (strks ++ [st]) (mkScene objs strks conns))
                     (mkDoom dmo (s_id st :: dms) dmc)).
    norm_scene.
    assert (Hids : map s_id
                     (filter (fun o => alive (s_id st :: dms) (s_id o))
                        (strks ++ [st]))
                   = map s_id (filter (fun o => alive dms (s_id o)) strks)).
    { rewrite vis_cons, map_removeId, filter_app, map_app.
      unfold dropId, removeId. rewrite filter_app.
      replace (filter (fun e => negb (e =? s_id st))
                 (map s_id (filter (fun o => alive dms (s_id o)) [st])))
        with (@nil string).
      - rewrite app_nil_r. now apply dropId_absent.
      - simpl. destruct (alive dms (s_id st)); simpl;
          [now rewrite String.eqb_refl | reflexivity]. }
    rewrite Hids in IH'. specialize (IH' Hrest).
    close_scene IH'. now apply del_case.
  - (* group_create *)
    destruct Hwf as [Hlast Hrest]. rewrite undoSc_group_create.
    assert (IH' := IH (withObjects (removeId o_id x objs) (mkScene objs strks conns))
                     (mkDoom dmo dms dmc)).
    norm_scene. rewrite <- map_removeId, <- vis_removeId in Hrest.
    specialize (IH' Hrest).
    destruct (findById o_id x objs) as [o|] eqn:Hf; cbn [option_map].
    + rewrite redoSc_group_create. norm_scene. close_scene IH'.
      now apply add_case with (x := x).
    + rewrite (removeId_none _ _ _ Hf) in IH' |- *. exact IH'.
  - (* group_ungroup *)
    destruct Hwf as [Hnot Hrest]. rewrite undoSc_group_ungroup. cbn [fst snd].
    rewrite redoSc_group_ungroup.
    assert (IH' := IH (withObjects (objs ++ [g]) (mkScene objs strks conns))
                     (mkDoom (o_id g :: dmo) dms dmc)).
    norm_scene.
    assert (Hids : map o_id
                     (filter (fun o => alive (o_id g :: dmo) (o_id o))
                        (objs ++ [g]))
                   = map o_id (filter (fun o => alive dmo (o_id o)) objs)).
    { rewrite vis_cons, map_removeId, filter_app, map_app.
      unfold dropId, removeId. rewrite filter_app.
      replace (filter (fun e => negb (e =? o_id g))
                 (map o_id (filter (fun o => alive dmo (o_id o)) [g])))
        with (@nil string).
      - rewrite app_nil_r. now apply dropId_absent.
      - simpl. destruct (alive dmo (o_id g)); simpl;
          [now rewrite String.eqb_refl | reflexivity]. }
    rewrite Hids in IH'. specialize (IH' Hrest).
    close_scene IH'. now apply del_case.
  - (* unknown *)
    rewrite undoSc_unknown. cbn [fst snd]. now apply IH.
Qed.

Lemma visible_nothing_doomed (sc : Scene) : visible (mkDoom [] [] []) sc = sc.
Proof.
  destruct sc as [o s c]. unfold visible, alive. simpl.
  assert (H : forall (T : Type) (l : list T), filter (fun _ => true) l = l).
  { intros T l. induction l as [|e r IH]; simpl; [reflexivity|now rewrite IH]. }
  now rewrite !H.
Qed.

Lemma roundTrip_replayable (tops : list UndoData) (sc : Scene) :
  replayable tops (idsOf sc) -> roundTrip tops sc = sc.
Proof.
  intro H. rewrite <- (visible_nothing_doomed sc) in H.
  apply roundTrip_visible in H. now rewrite !visible_nothing_doomed in H.
Qed.

(** *** Leaving entities out keeps a history replayable *)

Lemma sub_refl (T : Type) (l : list T) : sub l l.
Proof. induction l; constructor; assumption. Qed.

Lemma sub_nil_l (T : Type) (l : list T) : sub [] l.
Proof. induction l; constructor; assumption. Qed.

Lemma sub_trans (T : Type) (l1 l2 l3 : list T) : sub l1 l2 -> sub l2 l3 -> sub l1 l3.
Proof.
  intros H12 H23. revert l1 H12.
  induction H23 as [|x l2 l3 H IH|x l2 l3 H IH]; intros l1 H12.
  - exact H12.
  - constructor. now apply IH.
  - inversion H12; subst; constructor; now apply IH.
Qed.

Lemma sub_filter (T : Type) (p : T -> bool) (l : list T) : sub (filter p l) l.
Proof.
  induction l as [|e r IH]; simpl; [constructor|].
  destruct (p e); constructor; assumption.
Qed.

Lemma sub_map (T U : Type) (f : T -> U) (l1 l2 : list T) :
  sub l1 l2 -> sub (map f l1) (map f l2).
Proof. induction 1; simpl; constructor; assumption. Qed.

Lemma sub_in (T : Type) (l1 l2 : list T) (x : T) : sub l1 l2 -> In x l1 -> In x l2.
Proof.
  induction 1 as [|y l1 l2 H IH|y l1 l2 H IH]; simpl; intro Hin; auto.
  destruct Hin as [->|Hin]; auto.
Qed.

Lemma sub_app (T : Type) (l1 l2 m1 m2 : list T) :
  sub l1 l2 -> sub m1 m2 -> sub (l1 ++ m1) (l2 ++ m2).
Proof.
  induction 1 as [|y l1 l2 H IH|y l1 l2 H IH]; simpl; intro Hm.
  - exact Hm.
  - apply sub_skip. now apply IH.
  - apply sub_keep. now apply IH.
Qed.

Lemma sub_dropId (x : string) (l1 l2 : list string) :
  sub l1 l2 -> sub (dropId x l1) (dropId x l2).
Proof.
  unfold dropId, removeId.
  induction 1 as [|y l1 l2 H IH|y l1 l2 H IH]; simpl.
  - constructor.
  - destruct (y =? x); simpl; [assumption | now constructor].
  - destruct (y =? x); simpl; [assumption | now constructor].
Qed.

Lemma sub_snoc_inv (T : Type) (l1 Y : list T) (x : T) :
  sub l1 (Y ++ [x]) ->
  sub l1 Y \/ exists Y1, l1 = (Y1 ++ [x])%list /\ sub Y1 Y.
Proof.
  revert l1. induction Y as [|y Y IH]; intros l1 H; simpl in H.
  - inversion H as [|? ? ? H1|? ? ? H1]; subst.
    + inversion H1; subst. left. constructor.
    + inversion H1; subst. right. exists []. split; [reflexivity|constructor].
  - inversion H as [|? ? ? H1|? l0 ? H1]; subst.
    + destruct (IH _ H1) as [Hs|[Y1 [-> Hs]]].
      * left. now constructor.
      * right. exists Y1. split; [reflexivity|now constructor].
    + destruct (IH _ H1) as [Hs|[Y1 [-> Hs]]].
      * left. now constructor.
      * right. exists (y :: Y1). split; [reflexivity|now constructor].
Qed.

Lemma sub_lastOrAbsent (x : string) (l1 l2 : list string) :
  sub l1 l2 -> lastOrAbsent x l2 -> lastOrAbsent x l1.
Proof.
  intros Hsub Hlast Hin. specialize (Hlast (@sub_in _ _ _ x Hsub Hin)).
  pose proof (@dropId_not_in x l2) as Hnot.
  rewrite Hlast in Hsub. apply sub_snoc_inv in Hsub.
  destruct Hsub as [Hs|[Y1 [-> Hs]]].
  - exfalso. apply Hnot. exact (@sub_in _ _ _ x Hs Hin).
  - f_equal. unfold dropId, removeId. rewrite filter_app. simpl.
    rewrite String.eqb_refl. simpl. rewrite app_nil_r. symmetry.
    apply dropId_absent. intro H. apply Hnot. exact (@sub_in _ _ _ x Hs H).
Qed.

Lemma replayable_sub (tops : list UndoData) :
  forall V V', replayable tops V -> subIds V' V -> replayable tops V'.
Proof.
  induction tops as [|d rest IH]; intros V V' H [Ho [Hs Hc]]; [exact I|].
  destruct d; cbn [replayable] in *; try contradiction;
    try (destruct H as [H1 H2]; split);
    try (eapply sub_lastOrAbsent; eassumption);
    try (intro Hin; apply H1; eapply sub_in; eassumption);
    try (eapply IH; [eassumption|];
         repeat split; cbn [i_objects i_strokes i_connectors];
         try assumption; now apply sub_dropId).
Qed.

Lemma replayable_prefix (T1 T2 : list UndoData) :
  forall V, replayable (T1 ++ T2) V -> replayable T1 V.
Proof.
  induction T1 as [|d rest IH]; intros V H; [exact I|].
  simpl app in H. destruct d; cbn [replayable] in *; try contradiction;
    try (destruct H as [H1 H2]; split; [assumption|]); now apply IH.
Qed.

(** *** Recorded edits keep the history fitting the Scene *)

Lemma subIds_refl (V : Ids) : subIds V V.
Proof. repeat split; apply sub_refl. Qed.

Lemma subIds_trans (V1 V2 V3 : Ids) : subIds V1 V2 -> subIds V2 V3 -> subIds V1 V3.
Proof.
  intros [A1 [B1 C1]] [A2 [B2 C2]]. repeat split; eapply sub_trans; eassumption.
Qed.

Lemma frame_refl (s : Canvas) : frame s s.
Proof. split; [reflexivity|split; [reflexivity|apply subIds_refl]]. Qed.

Lemma frame_trans (s1 s2 s3 : Canvas) : frame s1 s2 -> frame s2 s3 -> frame s1 s3.
Proof.
  intros [U1 [R1 S1]] [U2 [R2 S2]]. split; [congruence|]. split; [congruence|].
  eapply subIds_trans; eassumption.
Qed.

Lemma frame_same (s s' : Canvas) :
  undoStack s' = undoStack s ->
  redoStack s' = redoStack s ->
  map o_id (objects s') = map o_id (objects s) ->
  map s_id (strokes s') = map s_id (strokes s) ->
  map c_id (connectors s') = map c_id (connectors s) ->
  frame s s'.
Proof.
  intros Hu Hr Ho Hs Hc. split; [exact Hu|]. split; [exact Hr|].
  unfold subIds, idsOf, scene. simpl.
  rewrite Ho, Hs, Hc. repeat split; apply sub_refl.
Qed.

Lemma historyFits_frame (s s' : Canvas) : historyFits s -> frame s s' -> historyFits s'.
Proof.
  unfold historyFits, topsOf. intros H [Hu [_ Hs]]. rewrite Hu.
  eapply replayable_sub; eassumption.
Qed.

Lemma topsOf_recordAction (d : UndoData) (now : Z) (s : Canvas) :
  exists T T2, topsOf s = (T ++ T2)%list
               /\ topsOf (History.recordAction d now s) = d :: T.
Proof.
  unfold topsOf, History.recordAction. simpl.
  destruct (5 <? _)%Z eqn:Hlt.
  - destruct (undoStack s) as [|a st] eqn:E; simpl.
    + simpl in Hlt. discriminate.
    + exists (map u_data (rev st)), [u_data a]. split.
      * now rewrite map_app.
      * rewrite rev_app_distr. reflexivity.
  - exists (map u_data (rev (undoStack s))), []. split.
    + now rewrite app_nil_r.
    + rewrite rev_app_distr. reflexivity.
Qed.

Lemma replayable_record (d : UndoData) (now : Z) (s : Canvas) (V : Ids) :
  replayable (d :: topsOf s) V ->
  replayable (topsOf (History.recordAction d now s)) V.
Proof.
  intro H. destruct (topsOf_recordAction d now s) as [T [T2 [E1 E2]]].
  rewrite E2. rewrite E1 in H. now apply (replayable_prefix (d :: T) T2).
Qed.

Lemma someId_false_not_in (A : Type) (idOf : A -> string) (x : string) (l : list A) :
  someId idOf x l = false -> ~ In x (map idOf l).
Proof.
  unfold someId. intros H Hin. apply in_map_iff in Hin.
  destruct Hin as [e [He Hin]].
  assert (Ht : existsb (fun e0 => idOf e0 =? x) l = true).
  { apply existsb_exists. exists e. split; [exact Hin|]. now apply String.eqb_eq. }
  congruence.
Qed.

Lemma dropId_snoc_fresh (x : string) (l : list string) :
  ~ In x l -> dropId x (l ++ [x]) = l.
Proof.
  intro H. unfold dropId, removeId. rewrite filter_app. simpl.
  rewrite String.eqb_refl. simpl. rewrite app_nil_r. now apply dropId_absent.
Qed.

Lemma lastOrAbsent_snoc_fresh (x : string) (l : list string) :
  ~ In x l -> lastOrAbsent x (l ++ [x]).
Proof. intros H _. now rewrite dropId_snoc_fresh. Qed.

Lemma removeConnectors_frame (ids : list string) :
  forall s,
    undoStack (Local.removeConnectors ids s) = undoStack s
    /\ objects (Local.removeConnectors ids s) = objects s
    /\ strokes (Local.removeConnectors ids s) = strokes s
    /\ sub (connectors (Local.removeConnectors ids s)) (connectors s)
    /\ redoStack (Local.removeConnectors ids s) = redoStack s.
Proof.
  unfold Local.removeConnectors.
  induction ids as [|i r IH]; intro s; simpl.
  - repeat split. apply sub_refl.
  - destruct (IH (emit (Publish "connector_delete" i)
                    (set_connectors (removeId c_id i (connectors s)) s)))
      as [Hu [Ho [Hs [Hc Hr]]]].
    rewrite Hu, Ho, Hs, Hr. repeat split.
    eapply sub_trans; [exact Hc|]. simpl. apply sub_filter.
Qed.

Lemma deleteGroup_frame (group : CanvasObject) (s : Canvas) :
  frame s (Local.deleteGroup group s).
Proof.
  unfold Local.deleteGroup.
  destruct (removeConnectors_frame (Group.orEmpty (o_connectorIds group)) s)
    as [Hu [Ho [Hs [Hc Hr]]]].
  set (s1 := Local.removeConnectors (Group.orEmpty (o_connectorIds group)) s) in *.
  assert (F1 : frame s s1).
  { split; [exact Hu|]. split; [exact Hr|].
    unfold subIds, idsOf, scene. simpl. rewrite Ho, Hs.
    repeat split; try apply sub_refl. now apply sub_map. }
  match goal with
  | |- frame s (emit _ (set_objects _ ?s2)) => set (s2' := s2)
  end.
  assert (F2 : frame s1 s2').
  { unfold s2'. clear. generalize s1. clear s1.
    induction (Group.orEmpty (o_children group)) as [|c r IH]; intro s1; simpl;
      [apply frame_refl|].
    eapply frame_trans; [|apply IH].
    destruct (removeConnectors_frame
                (map c_id (filter (Local.anchoredTo c) (connectors s1))) s1)
      as [Hu [Ho [Hs [Hc Hr]]]].
    split; simpl; [exact Hu|]. split; [exact Hr|].
    unfold subIds, idsOf, scene. simpl.
    rewrite Ho, Hs. repeat split.
    - apply sub_map, sub_filter.
    - apply sub_refl.
    - now apply sub_map. }
  eapply frame_trans; [exact F1|]. eapply frame_trans; [exact F2|].
  split; [reflexivity|]. split; [reflexivity|]. unfold subIds, idsOf, scene. simpl.
  repeat split; try apply sub_refl. apply sub_map, sub_filter.
Qed.

Lemma fold_updateFirst_ids (A : Type) (idOf : A -> string) (f : A -> A)
    (ids : list string) :
  (forall e, idOf (f e) = idOf e) ->
  forall l,
    map idOf (fold_left (fun acc i => updateFirst idOf i f acc) ids l)
    = map idOf l.
Proof.
  intro Hf. induction ids as [|i r IH]; intro l; simpl; [reflexivity|].
  rewrite IH. now apply updateFirst_map_invariant.
Qed.

Lemma moveGroupChildren_frame (group : CanvasObject) (dx dy : Q) (s : Canvas) :
  frame s (Group.moveGroupChildren group dx dy s)
  /\ selectedObject (Group.moveGroupChildren group dx dy s) = selectedObject s.
Proof.
  split; [|reflexivity]. apply frame_same; simpl; try reflexivity.
  - now apply fold_updateFirst_ids.
  - now apply fold_updateFirst_ids.
Qed.

Lemma dragSelectedObject_frame (x y : Q) (s : Canvas) :
  frame s (Group.dragSelectedObject x y s)
  /\ selectedObject (Group.dragSelectedObject x y s) = selectedObject s.
Proof.
  unfold Group.dragSelectedObject.
  destruct (selectedObject s) as [id|] eqn:Hsel; [|split; [apply frame_refl|exact Hsel]].
  destruct (findById o_id id (objects s)) as [obj|];
    [|split; [apply frame_refl|exact Hsel]].
  set (s1 := set_objects _ s).
  assert (F1 : frame s s1).
  { apply frame_same; simpl; try reflexivity.
    now apply updateFirst_map_invariant. }
  destruct (o_type obj =? "group").
  - destruct (moveGroupChildren_frame (History.moveTo x y obj)
                (x - o_x obj)%Q (y - o_y obj)%Q s1) as [F2 S2].
    split; [eapply frame_trans; eassumption|]. now rewrite S2.
  - split; [exact F1|exact Hsel].
Qed.

Lemma fold_emit_frame (T : Type) (f : T -> Effect) (l : list T) :
  forall s,
    frame s (fold_left (fun acc e => emit (f e) acc) l s).
Proof.
  induction l as [|e r IH]; intro s; simpl; [apply frame_refl|].
  eapply frame_trans; [|apply IH]. apply frame_same; reflexivity.
Qed.

Lemma scene_recordAction (d : UndoData) (now : Z) (s : Canvas) :
  scene (History.recordAction d now s) = scene s.
Proof. reflexivity. Qed.

Lemma pushObject_fits (obj : CanvasObject) (now : Z) (s : Canvas) :
  someId o_id (o_id obj) (objects s) = false ->
  historyFits s -> historyFits (Local.pushObject obj now s).
Proof.
  intros Hfresh H. apply someId_false_not_in in Hfresh.
  unfold historyFits, Local.pushObject. rewrite scene_recordAction.
  apply replayable_record.
  change (topsOf (emit _ (set_objects _ s))) with (topsOf s).
  unfold idsOf, scene. cbn [replayable sc_objects sc_strokes sc_connectors
    i_objects i_strokes i_connectors objects strokes connectors emit set_objects].
  rewrite map_app. cbn [map]. split.
  - now apply lastOrAbsent_snoc_fresh.
  - now rewrite dropId_snoc_fresh.
Qed.

Lemma finishConnector_fits (conn : Connector) (ok : bool) (now : Z) (s : Canvas) :
  someId c_id (c_id conn) (connectors s) = false ->
  historyFits s -> historyFits (Local.finishConnector (Some conn) ok now s).
Proof.
  intros Hfresh H. apply someId_false_not_in in Hfresh.
  unfold Local.finishConnector. destruct ok; [|exact H].
  unfold historyFits. rewrite scene_recordAction.
  apply replayable_record.
  change (topsOf (emit _ (set_connectors _ s))) with (topsOf s).
  unfold idsOf, scene. cbn [replayable sc_objects sc_strokes sc_connectors
    i_objects i_strokes i_connectors objects strokes connectors emit set_connectors].
  rewrite map_app. cbn [map]. split.
  - now apply lastOrAbsent_snoc_fresh.
  - now rewrite dropId_snoc_fresh.
Qed.

Lemma finishDrawing_fits (stroke : Stroke) (now : Z) (s : Canvas) :
  someId s_id (s_id stroke) (strokes s) = false ->
  historyFits s -> historyFits (Local.finishDrawing (Some stroke) now s).
Proof.
  intros Hfresh H. apply someId_false_not_in in Hfresh.
  unfold Local.finishDrawing. destruct (1 <? _)%Z; [|exact H].
  unfold historyFits. rewrite scene_recordAction.
  apply replayable_record.
  change (topsOf (emit _ (set_strokes _ s))) with (topsOf s).
  unfold idsOf, scene. cbn [replayable sc_objects sc_strokes sc_connectors
    i_objects i_strokes i_connectors objects strokes connectors emit set_strokes].
  rewrite map_app. cbn [map]. split.
  - now apply lastOrAbsent_snoc_fresh.
  - now rewrite dropId_snoc_fresh.
Qed.

Lemma selectObject_fits (id : string) (s : Canvas) :
  historyFits s -> historyFits (Local.selectObject id s).
Proof. intro H. apply (historyFits_frame H). apply frame_same; reflexivity. Qed.

Lemma selectConnector_fits (id : string) (s : Canvas) :
  historyFits s -> historyFits (Local.selectConnector id s).
Proof. intro H. apply (historyFits_frame H). apply frame_same; reflexivity. Qed.

Lemma deleteSelectedObject_fits (now : Z) (s : Canvas) :
  historyFits s -> historyFits (Local.deleteSelectedObject now s).
Proof.
  intro H. unfold Local.deleteSelectedObject.
  destruct (selectedObject s) as [sel|]; [|exact H].
  destruct (findById o_id sel (objects s)) as [obj|]; [|exact H].
  destruct (o_type obj =? "group").
  - apply (historyFits_frame H).
    eapply frame_trans; [apply deleteGroup_frame|]. apply frame_same; reflexivity.
  - set (s1 := History.recordAction (U_object_delete obj) now s).
    destruct (removeConnectors_frame
                (map c_id (filter (Local.anchoredTo (o_id obj)) (connectors s1))) s1)
      as [Hu [Ho [Hs [Hc Hr]]]].
    set (s2 := Local.removeConnectors _ s1) in *.
    unfold historyFits, topsOf, idsOf, scene.
    cbn [undoStack objects strokes connectors set_selectedObject emit set_objects
           sc_objects sc_strokes sc_connectors].
    rewrite Hu, Ho, Hs. fold (topsOf s1). unfold s1 at 1.
    apply replayable_record. cbn [replayable i_objects]. split.
    + cbn [objects History.recordAction set_redoStack set_undoStack].
      rewrite map_removeId. apply dropId_not_in.
    + eapply replayable_sub; [exact H|].
      unfold subIds, idsOf, scene. cbn. repeat split.
      * apply sub_map, sub_filter.
      * apply sub_refl.
      * apply (sub_map c_id) in Hc. exact Hc.
Qed.

Lemma deleteSelectedConnector_fits (now : Z) (s : Canvas) :
  historyFits s -> historyFits (Local.deleteSelectedConnector now s).
Proof.
  intro H. unfold Local.deleteSelectedConnector.
  destruct (selectedConnector s) as [sel|]; [|exact H].
  destruct (findById c_id sel (connectors s)) as [conn|]; [|exact H].
  unfold historyFits.
  change (topsOf (set_selectedConnector _ _))
    with (topsOf (History.recordAction (U_connector_delete conn) now s)).
  apply replayable_record. unfold idsOf, scene.
  cbn [replayable i_connectors objects strokes connectors set_selectedConnector
         emit set_connectors sc_objects sc_strokes sc_connectors
         History.recordAction set_redoStack set_undoStack].
  split.
  - rewrite map_removeId. apply dropId_not_in.
  - eapply replayable_sub; [exact H|].
    unfold subIds, idsOf, scene. cbn. repeat split; try apply sub_refl.
    apply sub_map, sub_filter.
Qed.

Lemma deleteStroke_fits (st : Stroke) (now : Z) (s : Canvas) :
  historyFits s -> historyFits (Local.deleteStroke (Some st) now s).
Proof.
  intro H. unfold Local.deleteStroke, historyFits.
  change (topsOf (emit _ _))
    with (topsOf (History.recordAction (U_stroke_delete st) now s)).
  apply replayable_record. unfold idsOf, scene.
  cbn [replayable i_strokes objects strokes connectors set_hoveredStroke
         emit set_strokes sc_objects sc_strokes sc_connectors
         History.recordAction set_redoStack set_undoStack].
  split.
  - rewrite map_removeId. apply dropId_not_in.
  - eapply replayable_sub; [exact H|].
    unfold subIds, idsOf, scene. cbn. repeat split; try apply sub_refl.
    apply sub_map, sub_filter.
Qed.

Lemma ungroupSelection_fits (now : Z) (s : Canvas) :
  historyFits s -> historyFits (Local.ungroupSelection now s).
Proof.
  intro H. unfold Local.ungroupSelection.
  destruct (selectedObject s) as [sel|]; [|exact H].
  destruct (findById o_id sel (objects s)) as [group|]; [|exact H].
  destruct (negb (o_type group =? "group")); [exact H|].
  unfold historyFits.
  change (topsOf (set_selection _ _ _))
    with (topsOf (History.recordAction (U_group_ungroup group) now s)).
  apply replayable_record. unfold idsOf, scene.
  cbn [replayable i_objects objects strokes connectors set_selection
         set_selectedObject emit set_objects sc_objects sc_strokes sc_connectors
         History.recordAction set_redoStack set_undoStack].
  split.
  - rewrite map_removeId. apply dropId_not_in.
  - eapply replayable_sub; [exact H|].
    unfold subIds, idsOf, scene. cbn. repeat split; try apply sub_refl.
    apply sub_map, sub_filter.
Qed.

Lemma record_update_fits (d : UndoData) (now : Z) (s : Canvas) :
  (forall rest V, replayable (d :: rest) V <-> replayable rest V) ->
  historyFits s -> historyFits (History.recordAction d now s).
Proof.
  intros Hd H. unfold historyFits. rewrite scene_recordAction.
  apply replayable_record. apply Hd. exact H.
Qed.

Lemma emit_fits (e : Effect) (s : Canvas) : historyFits s -> historyFits (emit e s).
Proof. intro H. apply (historyFits_frame H). apply frame_same; reflexivity. Qed.

Lemma handleMouseUp_fits (st : option Point) (now : Z) (s : Canvas) :
  historyFits s -> historyFits (Local.handleMouseUp st now s).
Proof.
  intro H. unfold Local.handleMouseUp.
  destruct (selectedObject s) as [sel|]; [|exact H].
  destruct (findById o_id sel (objects s)) as [obj|]; [|exact H].
  match goal with
  | |- historyFits (if _ then fold_left _ _ (emit _ ?s1) else emit _ ?s1) =>
      assert (H1 : historyFits s1)
  end.
  { destruct st as [p|]; [|exact H].
    destruct (Local.differ (px p) (o_x obj) || Local.differ (py p) (o_y obj));
      [|exact H].
    apply record_update_fits; [|exact H]. intros rest V. reflexivity. }
  destruct (o_type obj =? "group").
  - eapply historyFits_frame; [apply emit_fits; exact H1|].
    apply (fold_emit_frame (fun child => Publish "object_move" (o_id child))).
  - now apply emit_fits.
Qed.

Lemma moveObject_fits (id : string) (x y : Q) (now : Z) (s : Canvas) :
  historyFits s -> historyFits (Local.moveObject id x y now s).
Proof.
  intro H. unfold Local.moveObject.
  destruct (findById o_id id (objects s)) as [found|]; [|exact H].
  apply handleMouseUp_fits.
  apply historyFits_frame with (s := Local.selectObject id s);
    [apply selectObject_fits; exact H|].
  apply dragSelectedObject_frame.
Qed.

Lemma finishResize_fits (st : option (Q * Q * (Q * Q))) (now : Z) (s : Canvas) :
  historyFits s -> historyFits (Local.finishResize st now s).
Proof.
  intro H. unfold Local.finishResize.
  destruct (selectedObject s) as [sel|]; [|exact H].
  destruct (findById o_id sel (objects s)) as [obj|]; [|exact H].
  apply emit_fits. destruct st as [[[x0 y0] [w0 h0]]|]; [|exact H].
  destruct (_ || _); [|exact H].
  apply record_update_fits; [|exact H]. intros rest V. reflexivity.
Qed.

Lemma resizeObject_fits (id : string) (x y w h : Q) (now : Z) (s : Canvas) :
  historyFits s -> historyFits (Local.resizeObject id x y w h now s).
Proof.
  intro H. unfold Local.resizeObject.
  destruct (findById o_id id (objects s)) as [found|]; [|exact H].
  apply finishResize_fits.
  apply historyFits_frame with (s := Local.selectObject id s);
    [apply selectObject_fits; exact H|].
  apply frame_same; simpl; try reflexivity.
  now apply updateFirst_map_invariant.
Qed.

Lemma finishTextEditing_fits (eo prev : option string) (text contrast : string)
    (now : Z) (s : Canvas) :
  historyFits s -> historyFits (Local.finishTextEditing eo prev text contrast now s).
Proof.
  intro H. unfold Local.finishTextEditing.
  destruct eo as [eid|]; [|exact H].
  destruct (findById o_id eid (objects s)) as [obj|]; [|exact H].
  apply emit_fits.
  match goal with
  | |- historyFits (if _ then History.recordAction _ _ ?s1 else ?s1) =>
      assert (H1 : historyFits s1)
  end.
  { apply (historyFits_frame H). apply frame_same; simpl; try reflexivity.
    now apply updateFirst_map_invariant. }
  destruct (Local.differText _ _); [|exact H1].
  apply record_update_fits; [|exact H1]. intros rest V. reflexivity.
Qed.

Lemma createGroupFromSelection_fits (id : string) (now : Z) (s : Canvas) :
  someId o_id id (objects s) = false ->
  historyFits s -> historyFits (Local.createGroupFromSelection id now s).
Proof.
  intros Hfresh H. apply someId_false_not_in in Hfresh.
  unfold Local.createGroupFromSelection.
  destruct (_ <? 2)%nat; [exact H|].
  destruct (_ && _)%bool; [exact H|].
  match goal with
  | |- historyFits (match ?bounds with _ => _ end) => destruct bounds as [bd|]
  end; [|now apply emit_fits].
  unfold historyFits. rewrite scene_recordAction.
  apply replayable_record.
  match goal with
  | |- replayable _ (idsOf (scene (emit _ (set_selection _ _
                       (set_selectedObject _ (set_objects (?kept ++ _) s)))))) =>
      set (k := kept)
  end.
  change (topsOf (emit _ _)) with (topsOf s).
  unfold idsOf, scene.
  cbn [replayable sc_objects sc_strokes sc_connectors i_objects i_strokes
         i_connectors objects strokes connectors emit set_objects set_selection
         set_selectedObject].
  rewrite map_app. cbn [map o_id].
  assert (Hk : sub (map o_id k) (map o_id (objects s))).
  { apply sub_map. unfold k. apply sub_filter. }
  assert (Hfk : ~ In id (map o_id k)).
  { intro Hin. apply Hfresh. exact (@sub_in _ _ _ id Hk Hin). }
  split.
  - now apply lastOrAbsent_snoc_fresh.
  - rewrite dropId_snoc_fresh by exact Hfk.
    eapply replayable_sub; [exact H|].
    unfold subIds, idsOf, scene. cbn. repeat split; try apply sub_refl. exact Hk.
Qed.

(** Every recorded forward action keeps the history fitting the Scene. *)
Lemma doForward_fits (now : Z) (a : ForwardAction) (s : Canvas) :
  freshFor a s -> historyFits s -> historyFits (doForward now a s).
Proof.
  intros Hfresh H. destruct a; cbn [doForward freshFor] in *.
  - now apply pushObject_fits.
  - now apply pushObject_fits.
  - now apply pushObject_fits.
  - destruct (findById o_id id (objects s)); [|exact H].
    now apply deleteSelectedObject_fits, selectObject_fits.
  - now apply moveObject_fits.
  - now apply resizeObject_fits.
  - unfold Local.editText.
    destruct (findById o_id id (objects s)); [|exact H].
    now apply finishTextEditing_fits.
  - now apply finishConnector_fits.
  - destruct (findById c_id id (connectors s)); [|exact H].
    now apply deleteSelectedConnector_fits, selectConnector_fits.
  - now apply finishDrawing_fits.
  - unfold Local.eraseStroke.
    destruct (findById s_id id (strokes s)); [|exact H].
    apply deleteStroke_fits. apply (historyFits_frame H).
    apply frame_same; reflexivity.
  - unfold Local.groupObjects. apply createGroupFromSelection_fits; [exact Hfresh|].
    apply (historyFits_frame H). apply frame_same; reflexivity.
  - destruct (findById o_id id (objects s)); [|exact H].
    now apply ungroupSelection_fits, selectObject_fits.
Qed.

(** *** The stacks after recorded edits *)

Lemma stacksAfter_refl (s : Canvas) : stacksAfter s s.
Proof. split; [auto|lia]. Qed.

Lemma stacksAfter_frame (s s1 s2 : Canvas) :
  stacksAfter s s1 -> frame s1 s2 -> stacksAfter s s2.
Proof.
  intros [Hr Hl] [Fu [Fr _]]. split; [intro H; rewrite Fr; auto|now rewrite Fu].
Qed.

Lemma stacksAfter_record (d : UndoData) (now : Z) (s s1 : Canvas) :
  undoStack s1 = undoStack s -> stacksAfter s (History.recordAction d now s1).
Proof.
  intros Fu. split; [reflexivity|].
  unfold History.recordAction. cbn [undoStack set_redoStack set_undoStack].
  rewrite Fu. destruct (5 <? _)%Z.
  - destruct (undoStack s) as [|a r]; simpl; [lia|]. rewrite length_app. simpl. lia.
  - rewrite length_app. simpl. lia.
Qed.

Lemma stacksAfter_record_here (d : UndoData) (now : Z) (s : Canvas) :
  stacksAfter s (History.recordAction d now s).
Proof. now apply stacksAfter_record. Qed.

Lemma frame_set_objects_ids (l : list CanvasObject) (s : Canvas) :
  map o_id l = map o_id (objects s) -> frame s (set_objects l s).
Proof. intro H. apply frame_same; try reflexivity. exact H. Qed.

Lemma removeConnectors_is_frame (ids : list string) (s : Canvas) :
  frame s (Local.removeConnectors ids s).
Proof.
  destruct (removeConnectors_frame ids s) as [Hu [Ho [Hs [Hc Hr]]]].
  split; [exact Hu|]. split; [exact Hr|].
  unfold subIds, idsOf, scene.
  cbn [sc_objects sc_strokes sc_connectors i_objects i_strokes i_connectors].
  rewrite Ho, Hs. repeat split; try apply sub_refl. now apply sub_map.
Qed.

Lemma frame_filter_objects (p : CanvasObject -> bool) (s : Canvas) :
  frame s (set_objects (filter p (objects s)) s).
Proof.
  split; [reflexivity|]. split; [reflexivity|].
  unfold subIds, idsOf, scene. cbn. repeat split; try apply sub_refl.
  apply sub_map, sub_filter.
Qed.

Lemma deleteSelectedObject_stacks (now : Z) (s : Canvas) :
  stacksAfter s (Local.deleteSelectedObject now s).
Proof.
  unfold Local.deleteSelectedObject.
  destruct (selectedObject s) as [sel|]; [|apply stacksAfter_refl].
  destruct (findById o_id sel (objects s)) as [obj|]; [|apply stacksAfter_refl].
  destruct (o_type obj =? "group").
  - apply stacksAfter_frame with (s1 := s); [apply stacksAfter_refl|].
    eapply frame_trans; [apply deleteGroup_frame|]. apply frame_same; reflexivity.
  - set (s1 := History.recordAction (U_object_delete obj) now s).
    apply stacksAfter_frame with (s1 := s1); [apply stacksAfter_record_here|].
    eapply frame_trans; [apply removeConnectors_is_frame|].
    eapply frame_trans; [apply frame_filter_objects|].
    apply frame_same; reflexivity.
Qed.

Lemma handleMouseUp_stacks (st : option Point) (now : Z) (s : Canvas) :
  stacksAfter s (Local.handleMouseUp st now s).
Proof.
  unfold Local.handleMouseUp.
  destruct (selectedObject s) as [sel|]; [|apply stacksAfter_refl].
  destruct (findById o_id sel (objects s)) as [obj|]; [|apply stacksAfter_refl].
  match goal with
  | |- stacksAfter s (if _ then fold_left _ _ (emit _ ?s1) else emit _ ?s1) =>
      assert (H1 : stacksAfter s s1)
  end.
  { destruct st as [p|]; [|apply stacksAfter_refl].
    destruct (Local.differ (px p) (o_x obj) || Local.differ (py p) (o_y obj));
      [apply stacksAfter_record_here|apply stacksAfter_refl]. }
  destruct (o_type obj =? "group").
  - eapply stacksAfter_frame; [exact H1|].
    eapply frame_trans;
      [|apply (fold_emit_frame (fun child => Publish "object_move" (o_id child)))].
    apply frame_same; reflexivity.
  - eapply stacksAfter_frame; [exact H1|]. apply frame_same; reflexivity.
Qed.

Lemma finishResize_stacks (st : option (Q * Q * (Q * Q))) (now : Z) (s : Canvas) :
  stacksAfter s (Local.finishResize st now s).
Proof.
  unfold Local.finishResize.
  destruct (selectedObject s) as [sel|]; [|apply stacksAfter_refl].
  destruct (findById o_id sel (objects s)) as [obj|]; [|apply stacksAfter_refl].
  match goal with
  | |- stacksAfter s (emit _ ?mid) =>
      apply stacksAfter_frame with (s1 := mid); [|apply frame_same; reflexivity]
  end.
  destruct st as [[[x0 y0] [w0 h0]]|]; [|apply stacksAfter_refl].
  destruct (_ || _); [apply stacksAfter_record_here|apply stacksAfter_refl].
Qed.

Lemma finishTextEditing_stacks (eo prev : option string) (text contrast : string)
    (now : Z) (s : Canvas) :
  stacksAfter s (Local.finishTextEditing eo prev text contrast now s).
Proof.
  unfold Local.finishTextEditing.
  destruct eo as [eid|]; [|apply stacksAfter_refl].
  destruct (findById o_id eid (objects s)) as [obj|]; [|apply stacksAfter_refl].
  match goal with
  | |- stacksAfter s (emit _ ?mid) =>
      apply stacksAfter_frame with (s1 := mid); [|apply frame_same; reflexivity]
  end.
  assert (F : frame s
                (set_objects
                   (updateFirst o_id eid
                      (Local.setTextAndColor
                         (Some (if o_type obj =? "sticky"
                                then if text =? "" then "Double-click to edit" else text
                                else text))
                         (if o_type obj =? "sticky" then o_textColor obj
                          else if negb (text =? "") && negb (truthyStr (o_textColor obj))
                               then Some contrast else o_textColor obj))
                      (objects s)) s)).
  { apply frame_set_objects_ids. now apply updateFirst_map_invariant. }
  destruct (Local.differText _ _).
  - now apply stacksAfter_record.
  - apply stacksAfter_frame with (s1 := s); [apply stacksAfter_refl|exact F].
Qed.

Lemma deleteSelectedConnector_stacks (now : Z) (s : Canvas) :
  stacksAfter s (Local.deleteSelectedConnector now s).
Proof.
  unfold Local.deleteSelectedConnector.
  destruct (selectedConnector s) as [sel|]; [|apply stacksAfter_refl].
  destruct (findById c_id sel (connectors s)) as [conn|]; [|apply stacksAfter_refl].
  apply stacksAfter_frame
    with (s1 := History.recordAction (U_connector_delete conn) now s);
    [apply stacksAfter_record_here|].
  split; [reflexivity|]. split; [reflexivity|].
  unfold subIds, idsOf, scene. cbn. repeat split; try apply sub_refl.
  apply sub_map, sub_filter.
Qed.

Lemma createGroupFromSelection_stacks (id : string) (now : Z) (s : Canvas) :
  stacksAfter s (Local.createGroupFromSelection id now s).
Proof.
  unfold Local.createGroupFromSelection.
  destruct (_ <? 2)%nat; [apply stacksAfter_refl|].
  destruct (_ && _)%bool; [apply stacksAfter_refl|].
  match goal with
  | |- stacksAfter s (match ?bounds with _ => _ end) => destruct bounds
  end.
  - split; [reflexivity|].
    pose proof (stacksAfter_record_here (U_group_create id) now s) as [_ Hl].
    exact Hl.
  - apply stacksAfter_frame with (s1 := s); [apply stacksAfter_refl|].
    apply frame_same; reflexivity.
Qed.

Lemma ungroupSelection_stacks (now : Z) (s : Canvas) :
  stacksAfter s (Local.ungroupSelection now s).
Proof.
  unfold Local.ungroupSelection.
  destruct (selectedObject s) as [sel|]; [|apply stacksAfter_refl].
  destruct (findById o_id sel (objects s)) as [group|]; [|apply stacksAfter_refl].
  destruct (negb _); [apply stacksAfter_refl|].
  split; [reflexivity|].
  pose proof (stacksAfter_record_here (U_group_ungroup group) now s) as [_ Hl].
  exact Hl.
Qed.

Lemma stacksAfter_selected (s s0 s' : Canvas) :
  frame s s0 -> stacksAfter s0 s' -> stacksAfter s s'.
Proof.
  intros [Fu [Fr _]] [Hr Hl]. split; [intro H; apply Hr; now rewrite Fr|].
  now rewrite <- Fu.
Qed.

Lemma doForward_stacks (now : Z) (a : ForwardAction) (s : Canvas) :
  stacksAfter s (doForward now a s).
Proof.
  destruct a; cbn [doForward].
  - now apply stacksAfter_record.
  - now apply stacksAfter_record.
  - now apply stacksAfter_record.
  - destruct (findById o_id id (objects s)); [|apply stacksAfter_refl].
    apply stacksAfter_selected with (s0 := Local.selectObject id s);
      [apply frame_same; reflexivity|apply deleteSelectedObject_stacks].
  - unfold Local.moveObject.
    destruct (findById o_id id (objects s)); [|apply stacksAfter_refl].
    eapply stacksAfter_selected; [|apply handleMouseUp_stacks].
    eapply frame_trans; [|apply dragSelectedObject_frame].
    apply frame_same; reflexivity.
  - unfold Local.resizeObject.
    destruct (findById o_id id (objects s)); [|apply stacksAfter_refl].
    eapply stacksAfter_selected; [|apply finishResize_stacks].
    apply frame_same; try reflexivity. simpl. now apply updateFirst_map_invariant.
  - unfold Local.editText.
    destruct (findById o_id id (objects s)); [|apply stacksAfter_refl].
    apply finishTextEditing_stacks.
  - unfold Local.finishConnector.
    destruct longEnough; [now apply stacksAfter_record|apply stacksAfter_refl].
  - destruct (findById c_id id (connectors s)); [|apply stacksAfter_refl].
    apply stacksAfter_selected with (s0 := Local.selectConnector id s);
      [apply frame_same; reflexivity|apply deleteSelectedConnector_stacks].
  - unfold Local.finishDrawing.
    destruct (1 <? _)%Z; [now apply stacksAfter_record|apply stacksAfter_refl].
  - unfold Local.eraseStroke, Local.deleteStroke.
    destruct (findById s_id id (strokes s)); [|apply stacksAfter_refl].
    split; [reflexivity|].
    pose proof (stacksAfter_record_here (U_stroke_delete s0) now s) as [_ Hl].
    exact Hl.
  - unfold Local.groupObjects.
    eapply stacksAfter_selected; [|apply createGroupFromSelection_stacks].
    apply frame_same; reflexivity.
  - destruct (findById o_id id (objects s)); [|apply stacksAfter_refl].
    apply stacksAfter_selected with (s0 := Local.selectObject id s);
      [apply frame_same; reflexivity|apply ungroupSelection_stacks].
Qed.

Lemma runForward_fits (acts : list (Z * ForwardAction)) :
  forall s, freshRun acts s -> historyFits s -> historyFits (runForward acts s).
Proof.
  induction acts as [|[now a] r IH]; intros s Hf H; [exact H|].
  destruct Hf as [Hf1 Hf2]. cbn [runForward]. apply IH; [exact Hf2|].
  now apply doForward_fits.
Qed.

Lemma runForward_stacks (acts : list (Z * ForwardAction)) :
  forall s,
    redoStack s = [] ->
    redoStack (runForward acts s) = []
    /\ (List.length (undoStack (runForward acts s))
        <= List.length acts + List.length (undoStack s))%nat.
Proof.
  induction acts as [|[now a] r IH]; intros s Hr; [split; [exact Hr|simpl; lia]|].
  cbn [runForward]. destruct (doForward_stacks now a s) as [H1 H2].
  destruct (IH (doForward now a s) (H1 Hr)) as [G1 G2]. split; [exact G1|].
  simpl. lia.
Qed.

(** C2.  Start from an editor whose two stacks are empty, and perform any
    sequence of recorded forward actions (adding an object, a connector or a
    stroke under a new id, deleting the selected object or connector, erasing
    a stroke, moving, resizing, editing text, grouping, ungrouping).  Calling
    [undo] once per action and then [redo] once per action gives back exactly
    the Scene -- objects, strokes and connectors, field for field and in the
    same order -- that was there before the first undo.  With at most 5
    actions every recorded entry is still on the stack when undoing starts;
    the statement also holds for longer sequences, where the oldest entries
    have been dropped. *)
Theorem undo_redo_symmetry
    (s0 : Canvas) (acts : list (Z * ForwardAction)) (nowsU nowsR : list Z) :
  undoStack s0 = [] ->
  redoStack s0 = [] ->
  freshRun acts s0 ->
  List.length nowsU = List.length acts ->
  List.length nowsR = List.length acts ->
  scene (redoTimes nowsR (undoTimes nowsU (runForward acts s0)))
  = scene (runForward acts s0).
Proof.
  intros Hu Hr Hfresh HnU HnR.
  destruct (runForward_stacks acts s0 Hr) as [Hredo Hlen].
  rewrite Hu in Hlen. simpl in Hlen. rewrite Nat.add_0_r in Hlen.
  rewrite undo_redo_roundTrip by (try assumption; lia).
  apply roundTrip_replayable. apply runForward_fits; [exact Hfresh|].
  unfold historyFits, topsOf. rewrite Hu. exact I.
Qed.

Lemma undo_redo_symmetry_witness :
  let s0 := set_connectors
              [plainConnector "k" 0 0 9 9 (Some (mkAnchor "x" "top")) None]
              (set_objects [plainObject "x" "sticky" 0 0 10 10;
                            plainObject "y" "circle" 5 5 10 10] emptyCanvas) in
  let acts := [(1, FAddShape "diamond" 80 80 "a" (1 # 2) (1 # 3));
               (2, FDeleteObject "x");
               (3, FMoveObject "a" 7 8);
               (4, FGroup ["a"; "y"] [] "g");
               (5, FEditText "y" false "hello" "#000000")] in
  scene (redoTimes [11; 12; 13; 14; 15]
           (undoTimes [6; 7; 8; 9; 10] (runForward acts s0)))
  = scene (runForward acts s0).
Proof.
  intros s0 acts.
  apply (@undo_redo_symmetry s0 acts [6; 7; 8; 9; 10] [11; 12; 13; 14; 15]);
    try reflexivity.
  vm_compute. repeat split.
Defined.
(** * Properties of the view, the gestures and the helpers *)

(** ** Comparisons *)

(** [lra] after the quotients by a constant have been turned into products. *)
Ltac qlra :=
  unfold Qdiv in *;
  repeat match goal with
         | |- context [Qinv (Qmake ?n ?d)] =>
             let v := eval compute in (Qinv (Qmake n d)) in
             change (Qinv (Qmake n d)) with v in *
         | H : context [Qinv (Qmake ?n ?d)] |- _ =>
             let v := eval compute in (Qinv (Qmake n d)) in
             change (Qinv (Qmake n d)) with v in *
         end;
  lra.

Section Comparisons.
Local Open Scope Q_scope.

Lemma Qle_bool_true (a b : Q) : Qle_bool a b = true <-> a <= b.
Proof. apply Qle_bool_iff. Qed.

Lemma Qle_bool_false (a b : Q) : Qle_bool a b = false <-> b < a.
Proof.
  split; intro H.
  - apply Qnot_le_lt. intro Hle. apply Qle_bool_iff in Hle. congruence.
  - destruct (Qle_bool a b) eqn:E; [|reflexivity].
    apply Qle_bool_iff in E. exfalso. apply (Qlt_not_le _ _ H E).
Qed.

Lemma Qltb_true (a b : Q) : Qltb a b = true <-> a < b.
Proof.
  unfold Qltb. rewrite negb_true_iff. apply Qle_bool_false.
Qed.


Lemma Qgtb_true (a b : Q) : Qgtb a b = true <-> b < a.
Proof.
  unfold Qgtb. rewrite negb_true_iff. apply Qle_bool_false.
Qed.


End Comparisons.

(** ** Fit to content *)

Section FitFacts.
Local Open Scope Q_scope.

Lemma grows_refl (e : option Viewport.Extent) : grows e e.
Proof. destruct e; simpl; auto. repeat split; apply Qle_refl. Qed.

Lemma grows_trans (a b c : option Viewport.Extent) :
  grows a b -> grows b c -> grows a c.
Proof.
  destruct a as [a|], b as [b|], c as [c|]; simpl; try tauto.
  intros (H1 & H2 & H3 & H4) (K1 & K2 & K3 & K4). repeat split; lra.
Qed.




Lemma fold_grows (A : Type) (step : option Viewport.Extent -> A -> option Viewport.Extent)
    (l : list A) (e : option Viewport.Extent) :
  (forall e' a, grows e' (step e' a)) -> grows e (fold_left step l e).
Proof.
  intro Hs. revert e. induction l as [|a r IH]; intro e; simpl.
  - apply grows_refl.
  - eapply grows_trans; [apply Hs | apply IH].
Qed.


Lemma fold_none (A : Type) (step : option Viewport.Extent -> A -> option Viewport.Extent)
    (l : list A) (e : option Viewport.Extent) :
  (forall e' a', grows e' (step e' a')) ->
  fold_left step l e = None -> e = None.
Proof.
  intros Hs H. pose proof (@fold_grows A step l e Hs) as G. rewrite H in G.
  destruct e; [destruct G | reflexivity].
Qed.


End FitFacts.

(** ** Marquee selection *)

Section MarqueeFacts.
Local Open Scope Q_scope.



End MarqueeFacts.

(** ** Hit testing *)

Section FindFacts.

Lemma In_insertByZ (a obj : CanvasObject) (l : list CanvasObject) :
  In a (HitTest.insertByZ obj l) <-> a = obj \/ In a l.
Proof.
  induction l as [|e r IH]; simpl.
  - intuition.
  - destruct (zOr0 (o_zIndex obj) <? zOr0 (o_zIndex e))%Z; simpl; rewrite ?IH; intuition.
Qed.

Lemma In_sortedByZ (a : CanvasObject) (l : list CanvasObject) :
  In a (HitTest.sortedByZ l) <-> In a l.
Proof.
  unfold HitTest.sortedByZ. induction l as [|e r IH]; simpl; [tauto|].
  rewrite In_insertByZ, IH. intuition.
Qed.

Lemma insertByZ_sorted (obj : CanvasObject) (l : list CanvasObject) :
  StronglySorted (fun a b => (zOr0 (o_zIndex b) <= zOr0 (o_zIndex a))%Z) l ->
  StronglySorted (fun a b => (zOr0 (o_zIndex b) <= zOr0 (o_zIndex a))%Z)
    (HitTest.insertByZ obj l).
Proof.
  induction l as [|e r IH]; simpl; intro H.
  - constructor; constructor.
  - inversion H as [|? ? Hr He]; subst.
    destruct (zOr0 (o_zIndex obj) <? zOr0 (o_zIndex e))%Z eqn:E.
    + apply Z.ltb_lt in E. constructor; [auto|].
      apply Forall_forall. intros a Ha. apply In_insertByZ in Ha.
      destruct Ha as [->|Ha]; [lia|]. rewrite Forall_forall in He. auto.
    + apply Z.ltb_ge in E. constructor; [assumption|].
      constructor; [assumption|]. rewrite Forall_forall in He |- *.
      intros a Ha. specialize (He a Ha). lia.
Qed.

Lemma sortedByZ_sorted (l : list CanvasObject) :
  StronglySorted (fun a b => (zOr0 (o_zIndex b) <= zOr0 (o_zIndex a))%Z)
    (HitTest.sortedByZ l).
Proof.
  unfold HitTest.sortedByZ. induction l as [|e r IH]; simpl.
  - constructor.
  - apply insertByZ_sorted. assumption.
Qed.

Lemma find_sorted_first (p : CanvasObject -> bool) (l : list CanvasObject)
    (obj : CanvasObject) :
  StronglySorted (fun a b => (zOr0 (o_zIndex b) <= zOr0 (o_zIndex a))%Z) l ->
  find p l = Some obj ->
  forall o, In o l -> p o = true -> (zOr0 (o_zIndex o) <= zOr0 (o_zIndex obj))%Z.
Proof.
  induction l as [|e r IH]; simpl; intros Hs Hf o Hin Hp; [destruct Hin|].
  inversion Hs as [|? ? Hr He]; subst.
  destruct (p e) eqn:E.
  - injection Hf as <-. destruct Hin as [->|Hin]; [lia|].
    rewrite Forall_forall in He. auto.
  - destruct Hin as [->|Hin]; [congruence|]. eauto.
Qed.

(** X3.  [findObjectAt] returns an object under the point that no other
    object under the point is above; it returns nothing only when no object
    is under the point. *)
Theorem findObjectAt_topmost (isPointInObject : Q -> Q -> CanvasObject -> bool)
    (x y : Q) (s : Canvas) :
  match HitTest.findObjectAt isPointInObject x y s with
  | Some obj =>
      In obj (objects s)
      /\ isPointInObject x y obj = true
      /\ forall o, In o (objects s) -> isPointInObject x y o = true ->
                   (zOr0 (o_zIndex o) <= zOr0 (o_zIndex obj))%Z
  | None =>
      forall o, In o (objects s) -> isPointInObject x y o = false
  end.
Proof.
  unfold HitTest.findObjectAt.
  destruct (find (isPointInObject x y) (HitTest.sortedByZ (objects s)))
    as [obj|] eqn:E.
  - pose proof (find_some _ _ E) as [Hin Hp]. rewrite In_sortedByZ in Hin.
    split; [assumption|]. split; [assumption|].
    intros o Ho Hhit.
    apply (@find_sorted_first _ _ obj (sortedByZ_sorted (objects s)) E o);
      [rewrite In_sortedByZ; assumption | assumption].
  - intros o Ho. apply (find_none _ _ E). rewrite In_sortedByZ. assumption.
Qed.

End FindFacts.

(** ** Routing and curves *)

Section RoutingFacts.
Local Open Scope Q_scope.

(** X4.  An elbow route has one or two waypoints, and the path from the
    start through the waypoints to the end consists of horizontal and
    vertical segments only. *)
Theorem elbow_route_is_rectilinear (start end_ : Point)
    (startAnchorPos endAnchorPos : option string) :
  let route := Routing.calculateElbowRoute start end_ startAnchorPos endAnchorPos in
  (1 <= List.length route <= 2)%nat
  /\ Routing.rectilinear (Routing.elbowPath start end_ route).
Proof.
  unfold Routing.calculateElbowRoute, Routing.elbowPath.
  destruct (Routing.getAnchorDirection startAnchorPos =? "horizontal")%string;
  destruct (Routing.getAnchorDirection endAnchorPos =? "horizontal")%string;
  destruct (Routing.getAnchorDirection startAnchorPos =? "vertical")%string;
  destruct (Routing.getAnchorDirection endAnchorPos =? "vertical")%string;
  cbn [andb];
  try destruct (Qgtb (Qabs (px end_ - px start)) (Qabs (py end_ - py start)));
  (split; [simpl; lia|]);
  simpl; intuition (auto using Qeq_refl).
Qed.

End RoutingFacts.

(** ** Layer management *)

Section ZLists.
Variable A : Type.
Variable idOf : A -> string.
Variable zf : A -> Z.

Lemma map_fix (B : Type) (g : B -> B) (l : list B) :
  (forall a, In a l -> g a = a) -> map g l = l.
Proof.
  induction l as [|a r IH]; simpl; intro H; [reflexivity|].
  rewrite H by now left. f_equal. apply IH. intros b Hb. apply H. now right.
Qed.

Lemma updateWhere_as_map (tgt : Z) (f : A -> A) (l : list A) :
  NoDup (map zf l) ->
  updateWhere (fun e => zf e =? tgt)%Z f l
  = map (fun e => if (zf e =? tgt)%Z then f e else e) l.
Proof.
  induction l as [|a r IH]; simpl; intro H; [reflexivity|].
  inversion H as [|? ? Hnin Hr]; subst.
  destruct (zf a =? tgt)%Z eqn:E.
  - f_equal. symmetry. apply map_fix. intros b Hb.
    destruct (zf b =? tgt)%Z eqn:Eb; [|reflexivity].
    apply Z.eqb_eq in E, Eb. exfalso. apply Hnin. rewrite E, <- Eb.
    now apply in_map.
  - f_equal. auto.
Qed.

Lemma updateFirst_over_map (id : string) (h f : A -> A) (hz : Z -> Z) (t : Z)
    (l : list A) (o : A) :
  (forall e, idOf (h e) = idOf e) ->
  (forall e, zf (h e) = hz (zf e)) ->
  (forall e, zf (f e) = t) ->
  NoDup (map zf l) ->
  findById idOf id l = Some o ->
  map zf (updateFirst idOf id f (map h l))
  = map (fun a => if (a =? zf o)%Z then t else hz a) (map zf l).
Proof.
  intros Hid Hz Hf. unfold findById.
  induction l as [|a r IH]; simpl; intros Hnd Hfind; [discriminate|].
  inversion Hnd as [|? ? Hnin Hr]; subst. rewrite Hid.
  destruct (idOf a =? id)%string eqn:E.
  - injection Hfind as ->. simpl. rewrite Hf, Z.eqb_refl. f_equal.
    rewrite !map_map. apply map_ext_in. intros b Hb. rewrite Hz.
    destruct (zf b =? zf o)%Z eqn:Eb; [|reflexivity].
    apply Z.eqb_eq in Eb. exfalso. apply Hnin. rewrite <- Eb. now apply in_map.
  - simpl. rewrite (IH Hr Hfind). f_equal. rewrite Hz.
    destruct (zf a =? zf o)%Z eqn:Ea; [|reflexivity].
    apply Z.eqb_eq in Ea. exfalso. apply Hnin. rewrite Ea.
    apply find_some in Hfind. destruct Hfind as [Hin _]. now apply in_map.
Qed.

Lemma map_over_other (h : A -> A) (hz : Z -> Z) (t cur : Z) (l : list A) :
  (forall e, zf (h e) = hz (zf e)) ->
  ~ In cur (map zf l) ->
  map zf (map h l) = map (fun a => if (a =? cur)%Z then t else hz a) (map zf l).
Proof.
  intros Hz Hnin. rewrite !map_map. apply map_ext_in. intros b Hb. rewrite Hz.
  destruct (zf b =? cur)%Z eqn:Eb; [|reflexivity].
  apply Z.eqb_eq in Eb. exfalso. apply Hnin. rewrite <- Eb. now apply in_map.
Qed.

Lemma updateFirst_elements (id : string) (h f : A -> A) (hz : Z -> Z) (t : Z)
    (l : list A) (a : Z) :
  (forall e, idOf (h e) = idOf e) ->
  (forall e, zf (h e) = hz (zf e)) ->
  (forall e, zf (f e) = t) ->
  In a (map zf (updateFirst idOf id f (map h l))) ->
  a = t \/ exists b, In b (map zf l) /\ a = hz b.
Proof.
  intros Hid Hz Hf. induction l as [|e r IH]; simpl; [tauto|].
  rewrite Hid. destruct (idOf e =? id)%string; simpl.
  - intros [<-|Hin]; [left; apply Hf|].
    right. rewrite map_map in Hin. apply in_map_iff in Hin.
    destruct Hin as (b & <- & Hb). exists (zf b). split; [right; now apply in_map|].
    apply Hz.
  - intros [<-|Hin].
    + right. exists (zf e). split; [now left | apply Hz].
    + destruct (IH Hin) as [->|(b & Hb & ->)]; [now left|].
      right. exists b. split; [now right | reflexivity].
Qed.

Lemma findById_map (id : string) (h : A -> A) (l : list A) :
  (forall e, idOf (h e) = idOf e) ->
  findById idOf id (map h l) = option_map h (findById idOf id l).
Proof.
  intro Hid. unfold findById. induction l as [|e r IH]; simpl; [reflexivity|].
  rewrite Hid. destruct (idOf e =? id)%string; [reflexivity | exact IH].
Qed.

Lemma find_z_in (tgt : Z) (l : list A) (o : A) :
  find (fun e => zf e =? tgt)%Z l = Some o -> In tgt (map zf l).
Proof.
  intro H. apply find_some in H. destruct H as [Hin Hz].
  apply Z.eqb_eq in Hz. rewrite <- Hz. now apply in_map.
Qed.

Lemma find_z_none (tgt : Z) (l : list A) :
  find (fun e => zf e =? tgt)%Z l = None -> ~ In tgt (map zf l).
Proof.
  intros H Hin. apply in_map_iff in Hin. destruct Hin as (e & He & Hin).
  pose proof (find_none _ _ H e Hin) as Hf. simpl in Hf.
  apply Z.eqb_neq in Hf. contradiction.
Qed.

Lemma updateWhere_none (p : A -> bool) (f : A -> A) (l : list A) :
  find p l = None -> updateWhere p f l = l.
Proof.
  induction l as [|e r IH]; simpl; [reflexivity|].
  destruct (p e); [discriminate|]. intro H. f_equal. auto.
Qed.

End ZLists.

Lemma NoDup_app_l (B : Type) (l1 l2 : list B) : NoDup (l1 ++ l2) -> NoDup l1.
Proof.
  induction l1 as [|a r IH]; simpl; intro H; [constructor|].
  inversion H as [|? ? Hn Hr]; subst. constructor; [|auto].
  intro Hin. apply Hn. apply in_or_app. now left.
Qed.

Lemma NoDup_app_r (B : Type) (l1 l2 : list B) : NoDup (l1 ++ l2) -> NoDup l2.
Proof.
  induction l1 as [|a r IH]; simpl; intro H; [assumption|].
  inversion H; subst. auto.
Qed.

Lemma NoDup_app_disjoint (B : Type) (l1 l2 : list B) (a : B) :
  NoDup (l1 ++ l2) -> In a l1 -> ~ In a l2.
Proof.
  induction l1 as [|b r IH]; simpl; intros H Hin; [destruct Hin|].
  inversion H as [|? ? Hn Hr]; subst. destruct Hin as [->|Hin].
  - intro H2. apply Hn. apply in_or_app. now right.
  - auto.
Qed.

Lemma NoDup_map_on (g : Z -> Z) (l : list Z) :
  NoDup l ->
  (forall a b, In a l -> In b l -> g a = g b -> a = b) ->
  NoDup (map g l).
Proof.
  induction l as [|a r IH]; simpl; intros Hnd Hinj; [constructor|].
  inversion Hnd as [|? ? Hn Hr]; subst. constructor.
  - intro Hin. apply in_map_iff in Hin. destruct Hin as (b & Hb & Hin).
    apply Hn. rewrite (Hinj a b); auto.
  - apply IH; [assumption|]. intros x y Hx Hy. apply Hinj; now right.
Qed.

Lemma minOf_spec (zs : list Z) (z : Z) :
  In (Layer.minOf z zs) (z :: zs) /\ (forall v, In v (z :: zs) -> Layer.minOf z zs <= v).
Proof.
  unfold Layer.minOf. revert z. induction zs as [|a r IH]; intro z; simpl.
  - split; [now left | intros v [<-|[]]; lia].
  - destruct (IH (Z.min z a)) as [Hin Hle]. split.
    + destruct Hin as [Hin|Hin]; [|now right; right].
      rewrite <- Hin. destruct (Z.min_spec z a) as [[_ ->]|[_ ->]];
        [now left | right; now left].
    + intros v [Hv|[Hv|Hv]].
      * specialize (Hle (Z.min z a) (or_introl eq_refl)). lia.
      * specialize (Hle (Z.min z a) (or_introl eq_refl)). lia.
      * apply Hle. now right.
Qed.

Section LayerFacts.

Let zO := fun o : CanvasObject => zOr0 (o_zIndex o).
Let zC := fun c : Connector => zOr0 (c_zIndex c).

Lemma layers_emit (e : Effect) (s : Canvas) : Layer.layers (emit e s) = Layer.layers s.
Proof. reflexivity. Qed.

Lemma layers_publishSelected (s : Canvas) :
  Layer.layers (Layer.publishSelected s) = Layer.layers s.
Proof.
  unfold Layer.publishSelected.
  destruct (selectedConnector s); [reflexivity|].
  destruct (selectedObject s); reflexivity.
Qed.

Lemma selected_publishSelected (s : Canvas) :
  Layer.selected (Layer.publishSelected s) = Layer.selected s.
Proof.
  unfold Layer.publishSelected.
  destruct (selectedConnector s) eqn:E1; [reflexivity|].
  destruct (selectedObject s) eqn:E2; reflexivity.
Qed.

Lemma layers_fold_emit (es : list Effect) (s : Canvas) :
  Layer.layers (fold_left (fun acc e => emit e acc) es s) = Layer.layers s.
Proof.
  revert s. induction es as [|e r IH]; intro s; simpl; [reflexivity|].
  rewrite IH. reflexivity.
Qed.

Lemma fold_emit_fields (es : list Effect) (s : Canvas) :
  let s' := fold_left (fun acc e => emit e acc) es s in
  objects s' = objects s /\ connectors s' = connectors s
  /\ selectedObject s' = selectedObject s
  /\ selectedConnector s' = selectedConnector s.
Proof.
  revert s. induction es as [|e r IH]; intro s; simpl; [repeat split|].
  destruct (IH (emit e s)) as (H1 & H2 & H3 & H4).
  rewrite H1, H2, H3, H4. repeat split.
Qed.

Lemma selected_cases (s : Canvas) (sel : Layer.Element) :
  Layer.selected s = Some sel ->
  (exists id o, selectedObject s = Some id
                /\ findById o_id id (objects s) = Some o /\ sel = Layer.ObjectEl o)
  \/ (exists id c, selectedObject s = None /\ selectedConnector s = Some id
                   /\ findById c_id id (connectors s) = Some c
                   /\ sel = Layer.ConnectorEl c).
Proof.
  unfold Layer.selected. destruct (selectedObject s) as [id|].
  - destruct (findById o_id id (objects s)) as [o|] eqn:E; [|discriminate].
    intro H. injection H as <-. left. exists id, o. auto.
  - destruct (selectedConnector s) as [id|]; [|discriminate].
    destruct (findById c_id id (connectors s)) as [c|] eqn:E; [|discriminate].
    intro H. injection H as <-. right. exists id, c. auto.
Qed.

Lemma selected_in_layers (s : Canvas) (sel : Layer.Element) :
  Layer.selected s = Some sel -> In (Layer.zIndexOf sel) (Layer.layers s).
Proof.
  intro H. unfold Layer.layers. apply in_or_app.
  destruct (selected_cases _ H) as [(id & o & _ & Hf & ->)|(id & c & _ & _ & Hf & ->)].
  - left. unfold findById in Hf. apply find_some in Hf.
    apply (in_map (fun o => zOr0 (o_zIndex o))). tauto.
  - right. unfold findById in Hf. apply find_some in Hf.
    apply (in_map (fun c => zOr0 (c_zIndex c))). tauto.
Qed.

(** The effect on the z-order of "apply [hO] and [hC] to every element, then
    put the selected element on layer [t]". *)
Lemma layers_reassign (s s' : Canvas) (sel : Layer.Element) (t : Z)
    (hO : CanvasObject -> CanvasObject) (hC : Connector -> Connector)
    (hz : Z -> Z) :
  NoDup (Layer.layers s) ->
  Layer.selected s = Some sel ->
  selectedObject s' = selectedObject s ->
  selectedConnector s' = selectedConnector s ->
  objects s' = map hO (objects s) ->
  connectors s' = map hC (connectors s) ->
  (forall o, o_id (hO o) = o_id o) ->
  (forall c, c_id (hC c) = c_id c) ->
  (forall o, zO (hO o) = hz (zO o)) ->
  (forall c, zC (hC c) = hz (zC c)) ->
  Layer.layers (Layer.setSelectedZ t s')
  = map (fun a => if (a =? Layer.zIndexOf sel)%Z then t else hz a) (Layer.layers s).
Proof.
  intros Hnd Hsel HsO HsC HO HC HidO HidC HzO HzC.
  unfold Layer.setSelectedZ, Layer.layers in *. rewrite HsO, HsC.
  change (fun o : CanvasObject => zOr0 (o_zIndex o)) with zO in Hnd |- *.
  change (fun c : Connector => zOr0 (c_zIndex c)) with zC in Hnd |- *.
  pose proof (NoDup_app_l _ _ Hnd) as HndO.
  pose proof (NoDup_app_r _ _ Hnd) as HndC.
  destruct (selected_cases _ Hsel)
    as [(id & o & E1 & Hf & ->)|(id & c & E1 & E2 & Hf & ->)].
  - rewrite E1. cbn [objects connectors set_objects]. rewrite HO, HC.
    rewrite map_app. f_equal.
    + apply (@updateFirst_over_map _ o_id zO id hO _ hz t (objects s) o);
        auto.
    + apply map_over_other; [assumption|].
      apply (NoDup_app_disjoint _ _ _ Hnd).
      unfold findById in Hf. apply find_some in Hf.
      apply (in_map zO). tauto.
  - rewrite E1, E2. cbn [objects connectors set_connectors]. rewrite HO, HC.
    rewrite map_app. f_equal.
    + apply map_over_other; [assumption|].
      intro Hin. apply (NoDup_app_disjoint _ _ _ Hnd Hin).
      unfold findById in Hf. apply find_some in Hf.
      apply (in_map zC). tauto.
    + apply (@updateFirst_over_map _ c_id zC id hC _ hz t (connectors s) c);
        auto.
Qed.

End LayerFacts.
Section LayerCommands.

Let zO := fun o : CanvasObject => zOr0 (o_zIndex o).
Let zC := fun c : Connector => zOr0 (c_zIndex c).

Lemma setSelectedZ_selection (t : Z) (s : Canvas) :
  selectedObject (Layer.setSelectedZ t s) = selectedObject s
  /\ selectedConnector (Layer.setSelectedZ t s) = selectedConnector s.
Proof.
  unfold Layer.setSelectedZ.
  destruct (selectedObject s) eqn:E1; [split; [exact E1 | reflexivity]|].
  destruct (selectedConnector s) eqn:E2; split; auto.
Qed.

(** After the reassignment the selection still resolves, to an element on
    layer [t]. *)
Lemma selected_reassign (s s' : Canvas) (sel : Layer.Element) (t : Z)
    (hO : CanvasObject -> CanvasObject) (hC : Connector -> Connector) :
  Layer.selected s = Some sel ->
  selectedObject s' = selectedObject s ->
  selectedConnector s' = selectedConnector s ->
  objects s' = map hO (objects s) ->
  connectors s' = map hC (connectors s) ->
  (forall o, o_id (hO o) = o_id o) ->
  (forall c, c_id (hC c) = c_id c) ->
  exists sel', Layer.selected (Layer.setSelectedZ t s') = Some sel'
               /\ Layer.zIndexOf sel' = t.
Proof.
  intros Hsel HsO HsC HO HC HidO HidC.
  unfold Layer.selected, Layer.setSelectedZ. rewrite HsO, HsC.
  destruct (selected_cases _ Hsel)
    as [(id & o & E1 & Hf & ->)|(id & c & E1 & E2 & Hf & ->)].
  - rewrite E1. cbn [selectedObject set_objects objects]. rewrite HsO, E1, HO.
    pose proof (findById_some_id _ _ _ Hf) as Hid.
    rewrite (@findById_updateFirst _ o_id id (Remote.setObjectZ (Some t))
               (map hO (objects s)) (hO o)).
    + eexists. split; reflexivity.
    + simpl. rewrite HidO. exact Hid.
    + rewrite findById_map by assumption. rewrite Hf. reflexivity.
  - rewrite E1, E2.
    cbn [selectedObject selectedConnector set_connectors connectors].
    rewrite HsO, HsC, E1, E2, HC.
    pose proof (findById_some_id _ _ _ Hf) as Hid.
    rewrite (@findById_updateFirst _ c_id id (Remote.setConnectorZ (Some t))
               (map hC (connectors s)) (hC c)).
    + eexists. split; reflexivity.
    + simpl. rewrite HidC. exact Hid.
    + rewrite findById_map by assumption. rewrite Hf. reflexivity.
Qed.

(** Every layer after the reassignment is [t] or the image of an old one. *)
Lemma layers_reassign_elements (s s' : Canvas) (t : Z)
    (hO : CanvasObject -> CanvasObject) (hC : Connector -> Connector)
    (hz : Z -> Z) (a : Z) :
  objects s' = map hO (objects s) ->
  connectors s' = map hC (connectors s) ->
  (forall o, o_id (hO o) = o_id o) ->
  (forall c, c_id (hC c) = c_id c) ->
  (forall o, zO (hO o) = hz (zO o)) ->
  (forall c, zC (hC c) = hz (zC c)) ->
  In a (Layer.layers (Layer.setSelectedZ t s')) ->
  a = t \/ exists b, In b (Layer.layers s) /\ a = hz b.
Proof.
  intros HO HC HidO HidC HzO HzC.
  assert (KO : forall l, In a (map zO (map hO l)) -> exists b, In b (map zO l) /\ a = hz b).
  { intros l Hin. rewrite map_map in Hin. apply in_map_iff in Hin.
    destruct Hin as (o & <- & Ho). exists (zO o). split; [now apply in_map | apply HzO]. }
  assert (KC : forall l, In a (map zC (map hC l)) -> exists b, In b (map zC l) /\ a = hz b).
  { intros l Hin. rewrite map_map in Hin. apply in_map_iff in Hin.
    destruct Hin as (c & <- & Hc). exists (zC c). split; [now apply in_map | apply HzC]. }
  unfold Layer.setSelectedZ, Layer.layers.
  change (fun o : CanvasObject => zOr0 (o_zIndex o)) with zO.
  change (fun c : Connector => zOr0 (c_zIndex c)) with zC.
  destruct (selectedObject s') as [id|].
  - cbn [objects connectors set_objects]. rewrite HO, HC. intro Hin.
    apply in_app_or in Hin. destruct Hin as [Hin|Hin].
    + apply (@updateFirst_elements _ o_id zO id hO _ hz t) in Hin; auto.
      destruct Hin as [->|(b & Hb & ->)]; [now left|].
      right. exists b. split; [apply in_or_app; now left | reflexivity].
    + destruct (KC _ Hin) as (b & Hb & ->).
      right. exists b. split; [apply in_or_app; now right | reflexivity].
  - destruct (selectedConnector s') as [id|].
    + cbn [objects connectors set_connectors]. rewrite HO, HC. intro Hin.
      apply in_app_or in Hin. destruct Hin as [Hin|Hin].
      * destruct (KO _ Hin) as (b & Hb & ->).
        right. exists b. split; [apply in_or_app; now left | reflexivity].
      * apply (@updateFirst_elements _ c_id zC id hC _ hz t) in Hin; auto.
        destruct Hin as [->|(b & Hb & ->)]; [now left|].
        right. exists b. split; [apply in_or_app; now right | reflexivity].
    + rewrite HO, HC. intro Hin. apply in_app_or in Hin. destruct Hin as [Hin|Hin].
      * destruct (KO _ Hin) as (b & Hb & ->).
        right. exists b. split; [apply in_or_app; now left | reflexivity].
      * destruct (KC _ Hin) as (b & Hb & ->).
        right. exists b. split; [apply in_or_app; now right | reflexivity].
Qed.

Lemma map_same (B : Type) (l : list B) : l = map (fun x => x) l.
Proof. symmetry. apply map_id. Qed.

(** X5.  After [handleBringToFront] the selected element is at the front:
    the command is then disabled ([isAtFront] holds). *)
Theorem bring_to_front_reaches_front (s : Canvas) :
  selectionInScene s ->
  Layer.isAtFront (Layer.handleBringToFront s) = true.
Proof.
  intros _. unfold Layer.handleBringToFront.
  destruct (Layer.selected s) as [sel|] eqn:Hsel.
  2:{ unfold Layer.isAtFront. rewrite Hsel. reflexivity. }
  destruct (Layer.isAtFront s) eqn:F; [exact F|].
  destruct (Layer.layers s) as [|z zs] eqn:L.
  { unfold Layer.isAtFront in F. rewrite Hsel, L in F. discriminate. }
  set (t := maxOf z zs + 1).
  unfold Layer.isAtFront. rewrite selected_publishSelected, layers_publishSelected.
  destruct (@selected_reassign s s sel t (fun o => o) (fun c => c) Hsel
              eq_refl eq_refl (map_same _) (map_same _)
              (fun _ => eq_refl) (fun _ => eq_refl)) as (sel' & -> & Hz).
  rewrite Hz.
  destruct (Layer.layers (Layer.setSelectedZ t s)) as [|z1 [|z2 zs']] eqn:L';
    [reflexivity | reflexivity |].
  apply Z.leb_le.
  destruct (maxOf_spec (z2 :: zs') z1) as [Hin _]. rewrite <- L' in Hin.
  apply (@layers_reassign_elements s s t (fun o => o) (fun c => c) (fun a => a))
    in Hin; try reflexivity; try apply map_same.
  destruct Hin as [->|(b & Hb & ->)]; [lia|].
  rewrite L in Hb. destruct (maxOf_spec zs z) as [_ Hle].
  specialize (Hle b Hb). unfold t. lia.
Qed.

Lemma bring_to_front_reaches_front_witness :
  let s := set_selectedObject (Some "a")
             (set_objects [Remote.setObjectZ (Some 1) (plainObject "a" "sticky" 0 0 1 1);
                           Remote.setObjectZ (Some 2) (plainObject "b" "sticky" 0 0 1 1)]
                emptyCanvas) in
  Layer.isAtFront (Layer.handleBringToFront s) = true.
Proof.
  intro s. apply (@bring_to_front_reaches_front s). reflexivity.
Defined.

End LayerCommands.
Section LayerCommands2.

Let zO := fun o : CanvasObject => zOr0 (o_zIndex o).
Let zC := fun c : Connector => zOr0 (c_zIndex c).

Let raiseO (cur : Z) := fun o : CanvasObject =>
  if (zOr0 (o_zIndex o) <? cur)%Z
  then Remote.setObjectZ (Some (zOr0 (o_zIndex o) + 1)) o else o.
Let raiseC (cur : Z) := fun c : Connector =>
  if (zOr0 (c_zIndex c) <? cur)%Z
  then Remote.setConnectorZ (Some (zOr0 (c_zIndex c) + 1)) c else c.
Let raiseZ (cur : Z) := fun a : Z => if (a <? cur)%Z then (a + 1)%Z else a.

Lemma raiseO_id (cur : Z) (o : CanvasObject) : o_id (raiseO cur o) = o_id o.
Proof. unfold raiseO. destruct (_ <? _)%Z; reflexivity. Qed.

Lemma raiseC_id (cur : Z) (c : Connector) : c_id (raiseC cur c) = c_id c.
Proof. unfold raiseC. destruct (_ <? _)%Z; reflexivity. Qed.

Lemma raiseO_z (cur : Z) (o : CanvasObject) : zO (raiseO cur o) = raiseZ cur (zO o).
Proof. unfold raiseO, raiseZ, zO. destruct (_ <? _)%Z; reflexivity. Qed.

Lemma raiseC_z (cur : Z) (c : Connector) : zC (raiseC cur c) = raiseZ cur (zC c).
Proof. unfold raiseC, raiseZ, zC. destruct (_ <? _)%Z; reflexivity. Qed.

(** X6.  When no layer is negative, [handleSendToBack] leaves the selected
    element at the back: the command is then disabled ([isAtBack] holds). *)
Theorem send_to_back_reaches_back (s : Canvas) :
  selectionInScene s ->
  Forall (fun z => 0 <= z) (Layer.layers s) ->
  Layer.isAtBack (Layer.handleSendToBack s) = true.
Proof.
  intros _ Hpos. unfold Layer.handleSendToBack.
  destruct (Layer.selected s) as [sel|] eqn:Hsel.
  2:{ unfold Layer.isAtBack. rewrite Hsel. reflexivity. }
  destruct (Layer.isAtBack s) eqn:B; [exact B|].
  set (cur := Layer.zIndexOf sel).
  match goal with
  | |- context [fold_left ?f ?es ?s1] => set (s2 := fold_left f es s1)
  end.
  assert (F : objects s2 = map (raiseO cur) (objects s)
              /\ connectors s2 = map (raiseC cur) (connectors s)
              /\ selectedObject s2 = selectedObject s
              /\ selectedConnector s2 = selectedConnector s).
  { subst s2.
    match goal with
    | |- context [fold_left _ ?es ?s1] =>
        destruct (@fold_emit_fields es s1) as (F1 & F2 & F3 & F4)
    end.
    rewrite F1, F2, F3, F4. repeat split. }
  destruct F as (F1 & F2 & F3 & F4).
  assert (Hcur : 1 <= cur).
  { unfold Layer.isAtBack in B. rewrite Hsel in B.
    destruct (Layer.layers s) as [|z [|z' zs]] eqn:L; try discriminate.
    apply Z.leb_gt in B. destruct (minOf_spec (z' :: zs) z) as [Hin _].
    rewrite Forall_forall in Hpos. specialize (Hpos _ Hin). fold cur in B. lia. }
  unfold Layer.isAtBack. rewrite selected_publishSelected, layers_publishSelected.
  destruct (@selected_reassign s s2 sel 1 (raiseO cur) (raiseC cur) Hsel
              F3 F4 F1 F2 (raiseO_id cur) (raiseC_id cur)) as (sel' & -> & Hz).
  rewrite Hz.
  destruct (Layer.layers (Layer.setSelectedZ 1 s2)) as [|z1 [|z2 zs']] eqn:L';
    [reflexivity | reflexivity |].
  apply Z.leb_le.
  destruct (minOf_spec (z2 :: zs') z1) as [Hin _]. rewrite <- L' in Hin.
  apply (@layers_reassign_elements s s2 1 (raiseO cur) (raiseC cur) (raiseZ cur) _
           F1 F2 (raiseO_id cur) (raiseC_id cur) (raiseO_z cur) (raiseC_z cur))
    in Hin.
  destruct Hin as [->|(b & Hb & ->)]; [lia|].
  rewrite Forall_forall in Hpos. specialize (Hpos _ Hb).
  unfold raiseZ. destruct (b <? cur)%Z eqn:E; [lia|]. apply Z.ltb_ge in E. lia.
Qed.

Lemma send_to_back_reaches_back_witness :
  let s := set_selectedObject (Some "b")
             (set_objects [Remote.setObjectZ (Some 1) (plainObject "a" "sticky" 0 0 1 1);
                           Remote.setObjectZ (Some 2) (plainObject "b" "sticky" 0 0 1 1)]
                emptyCanvas) in
  Layer.isAtBack (Layer.handleSendToBack s) = true.
Proof.
  intro s. apply (@send_to_back_reaches_back s); [reflexivity|].
  repeat constructor; discriminate.
Defined.

(** The z-order after each command, as a function of the z-order before. *)

Lemma layers_bringToFront (s : Canvas) (sel : Layer.Element) (z : Z) (zs : list Z) :
  NoDup (Layer.layers s) ->
  Layer.selected s = Some sel ->
  Layer.isAtFront s = false ->
  Layer.layers s = z :: zs ->
  Layer.layers (Layer.handleBringToFront s)
  = map (toFrontZ (Layer.zIndexOf sel) (maxOf z zs)) (Layer.layers s).
Proof.
  intros Hnd Hsel F L. unfold Layer.handleBringToFront. rewrite Hsel, F, L.
  rewrite layers_publishSelected.
  rewrite (@layers_reassign s s sel (maxOf z zs + 1) (fun o => o) (fun c => c)
             (fun a => a) Hnd Hsel eq_refl eq_refl (map_same _) (map_same _)
             (fun _ => eq_refl) (fun _ => eq_refl) (fun _ => eq_refl)
             (fun _ => eq_refl)).
  rewrite L. reflexivity.
Qed.

Lemma layers_swapWith (s : Canvas) (sel : Layer.Element) (tgt : Z) :
  NoDup (Layer.layers s) ->
  Layer.selected s = Some sel ->
  Layer.layers (Layer.swapWith (Layer.zIndexOf sel) tgt s)
  = map (swapZ (Layer.zIndexOf sel) tgt) (Layer.layers s).
Proof.
  intros Hnd Hsel. set (cur := Layer.zIndexOf sel).
  pose (hO := fun o : CanvasObject =>
                if (zO o =? tgt)%Z then Remote.setObjectZ (Some cur) o else o).
  pose (hC := fun c : Connector =>
                if (zC c =? tgt)%Z then Remote.setConnectorZ (Some cur) c else c).
  pose (hz := fun a : Z => if (a =? tgt)%Z then cur else a).
  assert (HidO : forall o, o_id (hO o) = o_id o)
    by (intro o; unfold hO; destruct (_ =? _)%Z; reflexivity).
  assert (HidC : forall c, c_id (hC c) = c_id c)
    by (intro c; unfold hC; destruct (_ =? _)%Z; reflexivity).
  assert (HzO : forall o, zO (hO o) = hz (zO o))
    by (intro o; unfold hO, hz; destruct (_ =? _)%Z; reflexivity).
  assert (HzC : forall c, zC (hC c) = hz (zC c))
    by (intro c; unfold hC, hz; destruct (_ =? _)%Z; reflexivity).
  pose proof (NoDup_app_l _ _ Hnd) as HndO.
  pose proof (NoDup_app_r _ _ Hnd) as HndC.
  assert (FixO : ~ In tgt (map zO (objects s)) -> objects s = map hO (objects s)).
  { intro Hn. symmetry. apply map_fix. intros o Ho. unfold hO.
    destruct (zO o =? tgt)%Z eqn:E; [|reflexivity].
    apply Z.eqb_eq in E. exfalso. apply Hn. rewrite <- E. now apply in_map. }
  assert (FixC : ~ In tgt (map zC (connectors s)) -> connectors s = map hC (connectors s)).
  { intro Hn. symmetry. apply map_fix. intros c Hc. unfold hC.
    destruct (zC c =? tgt)%Z eqn:E; [|reflexivity].
    apply Z.eqb_eq in E. exfalso. apply Hn. rewrite <- E. now apply in_map. }
  unfold Layer.swapWith. rewrite layers_publishSelected.
  change (fun o : CanvasObject => (zOr0 (o_zIndex o) =? tgt)%Z)
    with (fun o => (zO o =? tgt)%Z).
  change (fun c : Connector => (zOr0 (c_zIndex c) =? tgt)%Z)
    with (fun c => (zC c =? tgt)%Z).
  destruct (find (fun o => (zO o =? tgt)%Z) (objects s)) as [other|] eqn:EO.
  - rewrite layers_emit. apply find_z_in in EO.
    eapply (@layers_reassign s _ sel tgt hO hC hz Hnd Hsel);
      [ reflexivity | reflexivity
      | cbn; apply (@updateWhere_as_map _ zO); exact HndO
      | cbn; apply FixC; exact (NoDup_app_disjoint _ _ _ Hnd EO)
      | exact HidO | exact HidC | exact HzO | exact HzC ].
  - apply find_z_none in EO.
    destruct (find (fun c => (zC c =? tgt)%Z) (connectors s)) as [other|] eqn:EC.
    + rewrite layers_emit.
      eapply (@layers_reassign s _ sel tgt hO hC hz Hnd Hsel);
        [ reflexivity | reflexivity
        | cbn; apply FixO; exact EO
        | cbn; apply (@updateWhere_as_map _ zC); exact HndC
        | exact HidO | exact HidC | exact HzO | exact HzC ].
    + apply find_z_none in EC.
      eapply (@layers_reassign s s sel tgt hO hC hz Hnd Hsel);
        [ reflexivity | reflexivity | apply FixO; exact EO | apply FixC; exact EC
        | exact HidO | exact HidC | exact HzO | exact HzC ].
Qed.

Lemma layers_sendToBack (s : Canvas) (sel : Layer.Element) :
  NoDup (Layer.layers s) ->
  Layer.selected s = Some sel ->
  Layer.isAtBack s = false ->
  Layer.layers (Layer.handleSendToBack s)
  = map (toBackZ (Layer.zIndexOf sel)) (Layer.layers s).
Proof.
  intros Hnd Hsel B. unfold Layer.handleSendToBack. rewrite Hsel, B.
  set (cur := Layer.zIndexOf sel).
  match goal with
  | |- context [fold_left ?f ?es ?s1] => set (s2 := fold_left f es s1)
  end.
  assert (F : objects s2 = map (raiseO cur) (objects s)
              /\ connectors s2 = map (raiseC cur) (connectors s)
              /\ selectedObject s2 = selectedObject s
              /\ selectedConnector s2 = selectedConnector s).
  { subst s2.
    match goal with
    | |- context [fold_left _ ?es ?s1] =>
        destruct (@fold_emit_fields es s1) as (F1 & F2 & F3 & F4)
    end.
    rewrite F1, F2, F3, F4. repeat split. }
  destruct F as (F1 & F2 & F3 & F4).
  rewrite layers_publishSelected.
  exact (@layers_reassign s s2 sel 1 (raiseO cur) (raiseC cur) (raiseZ cur) Hnd Hsel
           F3 F4 F1 F2 (raiseO_id cur) (raiseC_id cur) (raiseO_z cur) (raiseC_z cur)).
Qed.

End LayerCommands2.
Section LayerInvariants.

Ltac zcases :=
  repeat match goal with
         | H : context [(?a =? ?b)%Z] |- _ => destruct (Z.eqb_spec a b)
         | H : context [(?a <? ?b)%Z] |- _ => destruct (Z.ltb_spec a b)
         | |- context [(?a =? ?b)%Z] => destruct (Z.eqb_spec a b)
         | |- context [(?a <? ?b)%Z] => destruct (Z.ltb_spec a b)
         end;
  try lia.

(** Each command acts on the z-order as a function that is injective on the
    layers in use, keeps them at 1 or above, and is increasing on the layers
    of the elements that are not selected. *)
Lemma command_layers (c : LayerCommand) (s : Canvas) :
  distinctLayers s ->
  exists g : Z -> Z,
    Layer.layers (runLayerCommand c s) = map g (Layer.layers s)
    /\ (forall a b, In a (Layer.layers s) -> In b (Layer.layers s) ->
                    g a = g b -> a = b)
    /\ (forall a, In a (Layer.layers s) -> 1 <= g a)
    /\ (forall sel a b,
          Layer.selected s = Some sel ->
          In a (Layer.layers s) -> In b (Layer.layers s) ->
          a <> Layer.zIndexOf sel -> b <> Layer.zIndexOf sel ->
          (g a < g b <-> a < b)).
Proof.
  intros [Hnd Hpos]. rewrite Forall_forall in Hpos.
  assert (Same : Layer.layers s = map (fun a => a) (Layer.layers s)
                 /\ (forall a b, In a (Layer.layers s) -> In b (Layer.layers s) ->
                                 a = b -> a = b)
                 /\ (forall a, In a (Layer.layers s) -> 1 <= a)
                 /\ (forall (sel : Layer.Element) a b,
                       Layer.selected s = Some sel ->
                       In a (Layer.layers s) -> In b (Layer.layers s) ->
                       a <> Layer.zIndexOf sel -> b <> Layer.zIndexOf sel ->
                       (a < b <-> a < b))).
  { split; [apply map_same|]. split; [auto|]. split; [auto|]. intros; tauto. }
  destruct (Layer.selected s) as [sel|] eqn:Hsel.
  2:{ exists (fun a => a).
      replace (runLayerCommand c s) with s; [exact Same|].
      destruct c; simpl;
        unfold Layer.handleBringToFront, Layer.handleBringForward,
          Layer.handleSendBackward, Layer.handleSendToBack;
        rewrite Hsel; reflexivity. }
  pose proof (selected_in_layers _ Hsel) as Hcur.
  set (cur := Layer.zIndexOf sel) in *.
  pose proof (Hpos _ Hcur) as Hcur1.
  destruct c; simpl.
  - (* bring to front *)
    destruct (Layer.isAtFront s) eqn:F.
    { exists (fun a => a). unfold Layer.handleBringToFront. rewrite Hsel, F.
      exact Same. }
    destruct (Layer.layers s) as [|z zs] eqn:L; [destruct Hcur|].
    exists (toFrontZ cur (maxOf z zs)).
    split; [rewrite <- L; apply layers_bringToFront; rewrite ?L; auto|].
    destruct (maxOf_spec zs z) as [Hin Hle].
    pose proof (Hpos _ Hin) as Hm.
    split; [|split].
    + intros a b Ha Hb. pose proof (Hle a Ha). pose proof (Hle b Hb).
      unfold toFrontZ. zcases.
    + intros a Ha. pose proof (Hpos a Ha). unfold toFrontZ. zcases.
    + intros sel' a b Hs' Ha Hb Hna Hnb. injection Hs' as <-. fold cur in Hna, Hnb.
      unfold toFrontZ. zcases.
  - (* bring forward *)
    unfold Layer.handleBringForward. rewrite Hsel.
    destruct (Layer.isAtFront s); [exists (fun a => a); exact Same|].
    exists (swapZ cur (cur + 1)).
    split; [apply layers_swapWith; assumption|].
    split; [|split].
    + intros a b _ _. unfold swapZ. zcases.
    + intros a Ha. pose proof (Hpos a Ha). unfold swapZ. zcases.
    + intros sel' a b Hs' Ha Hb Hna Hnb. injection Hs' as <-. fold cur in Hna, Hnb.
      unfold swapZ. zcases.
  - (* send backward *)
    unfold Layer.handleSendBackward. rewrite Hsel.
    destruct (Layer.isAtBack s); [exists (fun a => a); exact Same|].
    fold cur. destruct (Z.leb_spec cur 1); [exists (fun a => a); exact Same|].
    exists (swapZ cur (cur - 1)).
    split; [apply layers_swapWith; assumption|].
    split; [|split].
    + intros a b _ _. unfold swapZ. zcases.
    + intros a Ha. pose proof (Hpos a Ha). unfold swapZ. zcases.
    + intros sel' a b Hs' Ha Hb Hna Hnb. injection Hs' as <-. fold cur in Hna, Hnb.
      unfold swapZ. zcases.
  - (* send to back *)
    destruct (Layer.isAtBack s) eqn:B.
    { exists (fun a => a). unfold Layer.handleSendToBack. rewrite Hsel, B.
      exact Same. }
    exists (toBackZ cur).
    split; [apply layers_sendToBack; assumption|].
    split; [|split].
    + intros a b Ha Hb. pose proof (Hpos a Ha). pose proof (Hpos b Hb).
      unfold toBackZ. zcases.
    + intros a Ha. pose proof (Hpos a Ha). unfold toBackZ. zcases.
    + intros sel' a b Hs' Ha Hb Hna Hnb. injection Hs' as <-. fold cur in Hna, Hnb.
      unfold toBackZ. zcases.
Qed.

(** X7.  The layer commands keep the z-order well formed: if every object
    and connector has a layer of its own and the layers start at 1, this is
    still so after bring to front, bring forward, send backward or send to
    back. *)
Theorem layer_commands_keep_layers_distinct (c : LayerCommand) (s : Canvas) :
  selectionInScene s ->
  distinctLayers s -> distinctLayers (runLayerCommand c s).
Proof.
  intros _ H. destruct (command_layers c H) as (g & E & Hinj & Hpos & _).
  destruct H as [Hnd _]. unfold distinctLayers. rewrite E. split.
  - apply NoDup_map_on; assumption.
  - apply Forall_forall. intros a Ha. apply in_map_iff in Ha.
    destruct Ha as (b & <- & Hb). auto.
Qed.

Lemma layer_commands_keep_layers_distinct_witness :
  let s := set_selectedObject (Some "a")
             (set_objects [Remote.setObjectZ (Some 1) (plainObject "a" "sticky" 0 0 1 1);
                           Remote.setObjectZ (Some 2) (plainObject "b" "sticky" 0 0 1 1)]
                emptyCanvas) in
  distinctLayers (runLayerCommand BringForward s).
Proof.
  intro s. apply (@layer_commands_keep_layers_distinct BringForward s);
    [reflexivity|].
  split.
  - repeat constructor; simpl; intuition discriminate.
  - repeat constructor; discriminate.
Defined.

(** X8.  The layer commands never reorder the other elements: for any two
    elements, neither of them the selected one, which of the two is in front
    of the other is the same before and after the command. *)
Theorem layer_commands_keep_others_order (c : LayerCommand) (s : Canvas)
    (sel : Layer.Element) (i j : nat) (a b : Z) :
  distinctLayers s ->
  Layer.selected s = Some sel ->
  nth_error (Layer.layers s) i = Some a ->
  nth_error (Layer.layers s) j = Some b ->
  a <> Layer.zIndexOf sel -> b <> Layer.zIndexOf sel ->
  exists a' b',
    nth_error (Layer.layers (runLayerCommand c s)) i = Some a'
    /\ nth_error (Layer.layers (runLayerCommand c s)) j = Some b'
    /\ (a' < b' <-> a < b).
Proof.
  intros H Hsel Hi Hj Ha Hb.
  destruct (command_layers c H) as (g & E & _ & _ & Hord). rewrite E.
  exists (g a), (g b).
  split; [now apply map_nth_error|]. split; [now apply map_nth_error|].
  apply (Hord sel); try assumption; eapply nth_error_In; eassumption.
Qed.

Lemma layer_commands_keep_others_order_witness :
  let s := set_selectedObject (Some "c")
             (set_objects [Remote.setObjectZ (Some 1) (plainObject "a" "sticky" 0 0 1 1);
                           Remote.setObjectZ (Some 2) (plainObject "b" "sticky" 0 0 1 1);
                           Remote.setObjectZ (Some 3) (plainObject "c" "sticky" 0 0 1 1)]
                emptyCanvas) in
  exists a' b',
    nth_error (Layer.layers (runLayerCommand SendToBack s)) 0 = Some a'
    /\ nth_error (Layer.layers (runLayerCommand SendToBack s)) 1 = Some b'
    /\ (a' < b' <-> 1 < 2).
Proof.
  intro s.
  apply (@layer_commands_keep_others_order SendToBack s
           (Layer.ObjectEl (Remote.setObjectZ (Some 3) (plainObject "c" "sticky" 0 0 1 1)))
           0 1 1 2).
  - split.
    + repeat constructor; simpl; intuition discriminate.
    + repeat constructor; discriminate.
  - reflexivity.
  - reflexivity.
  - reflexivity.
  - discriminate.
  - discriminate.
Defined.

End LayerInvariants.
(** ** Deletions *)

Section EraseFacts.

Lemma removeConnectors_connectors (ids : list string) (s : Canvas) (c : Connector) :
  In c (connectors (Local.removeConnectors ids s))
  <-> In c (connectors s) /\ ~ In (c_id c) ids.
Proof.
  unfold Local.removeConnectors. revert s.
  induction ids as [|id r IH]; intro s; simpl; [tauto|].
  rewrite IH. cbn [connectors emit set_connectors]. unfold removeId.
  rewrite filter_In, negb_true_iff, String.eqb_neq. intuition congruence.
Qed.

Lemma removeConnectors_rest (ids : list string) (s : Canvas) :
  objects (Local.removeConnectors ids s) = objects s
  /\ undoStack (Local.removeConnectors ids s) = undoStack s
  /\ redoStack (Local.removeConnectors ids s) = redoStack s.
Proof.
  unfold Local.removeConnectors. revert s.
  induction ids as [|id r IH]; intro s; simpl; [auto|].
  destruct (IH (emit (Publish "connector_delete" id)
                  (set_connectors (removeId c_id id (connectors s)) s)))
    as (H1 & H2 & H3).
  rewrite H1, H2, H3. auto.
Qed.

Lemma deleteWithConnectors_spec (acc : Canvas) (id : string) :
  let acc' := Erase.deleteWithConnectors acc id in
  objects acc' = removeId o_id id (objects acc)
  /\ (forall c, In c (connectors acc') ->
                In c (connectors acc) /\ Local.anchoredTo id c = false)
  /\ undoStack acc' = undoStack acc
  /\ redoStack acc' = redoStack acc.
Proof.
  unfold Erase.deleteWithConnectors.
  set (connected := map c_id (filter (Local.anchoredTo id) (connectors acc))).
  destruct (removeConnectors_rest connected acc) as (H1 & H2 & H3).
  cbn [objects connectors undoStack redoStack emit set_objects].
  rewrite H1, H2, H3. split; [reflexivity|]. split; [|auto].
  intros c Hc. apply removeConnectors_connectors in Hc. destruct Hc as [Hin Hn].
  split; [assumption|].
  destruct (Local.anchoredTo id c) eqn:E; [|reflexivity].
  exfalso. apply Hn. unfold connected. apply in_map. apply filter_In. auto.
Qed.

Lemma fold_deleteWithConnectors (ids : list string) (s : Canvas) :
  let s' := fold_left Erase.deleteWithConnectors ids s in
  (forall o, In o (objects s') -> In o (objects s) /\ ~ In (o_id o) ids)
  /\ (forall c, In c (connectors s') ->
                In c (connectors s)
                /\ forall id, In id ids -> Local.anchoredTo id c = false)
  /\ undoStack s' = undoStack s
  /\ redoStack s' = redoStack s.
Proof.
  revert s. induction ids as [|id r IH]; intro s; simpl.
  - repeat split; auto. intros id [].
  - destruct (IH (Erase.deleteWithConnectors s id)) as (HO & HC & HU & HR).
    destruct (deleteWithConnectors_spec s id) as (EO & EC & EU & ER).
    split; [|split; [|split; congruence]].
    + intros o Ho. destruct (HO o Ho) as [Hin Hn]. rewrite EO in Hin.
      unfold removeId in Hin. apply filter_In in Hin. destruct Hin as [Hin Hid].
      apply negb_true_iff, String.eqb_neq in Hid. split; [assumption|].
      intros [E|E]; [congruence | contradiction].
    + intros c Hc. destruct (HC c Hc) as [Hin Hr]. destruct (EC c Hin) as [Hin' Ha].
      split; [assumption|]. intros id' [<-|Hid']; auto.
Qed.

(** X9.  After a multi-selection delete none of the selected objects and
    none of the selected connectors is left, and no remaining connector is
    anchored to a deleted object; everything that remains was there
    before. *)
Theorem multi_delete_takes_attached_connectors (s : Canvas) :
  let s' := Erase.deleteSelectedObjects s in
  (forall o, In o (objects s') ->
             In o (objects s) /\ ~ In (o_id o) (selectedObjects s))
  /\ (forall c, In c (connectors s') ->
                In c (connectors s)
                /\ ~ In (c_id c) (selectedConnectors s)
                /\ forall id, In id (selectedObjects s) ->
                              Local.anchoredTo id c = false).
Proof.
  unfold Erase.deleteSelectedObjects.
  assert (Main :
    let s' := set_selection [] []
                (fold_left Erase.deleteWithConnectors (selectedObjects s)
                   (Local.removeConnectors (selectedConnectors s) s)) in
    (forall o, In o (objects s') ->
               In o (objects s) /\ ~ In (o_id o) (selectedObjects s))
    /\ (forall c, In c (connectors s') ->
                  In c (connectors s)
                  /\ ~ In (c_id c) (selectedConnectors s)
                  /\ forall id, In id (selectedObjects s) ->
                                Local.anchoredTo id c = false)).
  { cbn [objects connectors set_selection].
    destruct (fold_deleteWithConnectors (selectedObjects s)
                (Local.removeConnectors (selectedConnectors s) s))
      as (HO & HC & _ & _).
    destruct (removeConnectors_rest (selectedConnectors s) s) as (EO & _ & _).
    split.
    - intros o Ho. destruct (HO o Ho) as [Hin Hn]. rewrite EO in Hin. auto.
    - intros c Hc. destruct (HC c Hc) as [Hin Ha].
      apply removeConnectors_connectors in Hin. tauto. }
  destruct (selectedObjects s) as [|x xs] eqn:EO;
    destruct (selectedConnectors s) as [|y ys] eqn:EC; exact Main.
Qed.

(** X10.  The multi-selection delete, the two eraser deletions and the
    deletion of a group are not recorded: they leave the undo and the redo
    stack as they were, so none of them can be undone. *)
Theorem unrecorded_deletions_keep_history (s : Canvas) (obj : option CanvasObject)
    (connector : option Connector) (group : CanvasObject) :
  (undoStack (Erase.deleteSelectedObjects s) = undoStack s
   /\ redoStack (Erase.deleteSelectedObjects s) = redoStack s)
  /\ (undoStack (Erase.deleteObjectWithEraser obj s) = undoStack s
      /\ redoStack (Erase.deleteObjectWithEraser obj s) = redoStack s)
  /\ (undoStack (Erase.deleteConnectorWithEraser connector s) = undoStack s
      /\ redoStack (Erase.deleteConnectorWithEraser connector s) = redoStack s)
  /\ (undoStack (Local.deleteGroup group s) = undoStack s
      /\ redoStack (Local.deleteGroup group s) = redoStack s).
Proof.
  split; [|split; [|split]].
  - unfold Erase.deleteSelectedObjects.
    destruct (fold_deleteWithConnectors (selectedObjects s)
                (Local.removeConnectors (selectedConnectors s) s))
      as (_ & _ & HU & HR).
    destruct (removeConnectors_rest (selectedConnectors s) s) as (_ & EU & ER).
    destruct (selectedObjects s); destruct (selectedConnectors s);
      cbn [undoStack redoStack set_selection] in *; split; congruence.
  - destruct obj as [o|]; [|split; reflexivity]. unfold Erase.deleteObjectWithEraser.
    cbn [undoStack redoStack set_hoveredObject emit set_objects].
    generalize (map c_id (filter (Local.anchoredTo (o_id o)) (connectors s))).
    intro ids. unfold Erase.eraseConnectors. revert s.
    induction ids as [|id r IH]; intro s; simpl; [split; reflexivity|].
    destruct (findById c_id id (connectors s)); [|apply IH].
    destruct (IH (emit (Publish "connector_delete" id)
                    (set_connectors (removeId c_id id (connectors s)) s))) as [H1 H2].
    rewrite H1, H2. split; reflexivity.
  - destruct connector; split; reflexivity.
  - destruct (deleteGroup_frame group s) as (HU & HR & _). split; assumption.
Qed.

End EraseFacts.
Section UndoDeleteFacts.

Lemma recordAction_last (d : UndoData) (now : Z) (s : Canvas) :
  exists rest, undoStack (History.recordAction d now s) = (rest ++ [mkUndo d now])%list.
Proof.
  unfold History.recordAction. cbn [undoStack set_redoStack set_undoStack].
  destruct (5 <? _)%Z eqn:E.
  - destruct (undoStack s) as [|a r].
    + simpl in E. discriminate.
    + exists r. reflexivity.
  - exists (undoStack s). reflexivity.
Qed.

(** X11.  Deleting an object deletes the connectors anchored to it, and the
    undo entry holds the object only: undoing the deletion puts the object
    back (at the end of the array) but none of those connectors. *)
Theorem undo_of_delete_leaves_connectors_deleted (now now' : Z) (s : Canvas)
    (id : string) (obj : CanvasObject) :
  selectedObject s = Some id ->
  findById o_id id (objects s) = Some obj ->
  (o_type obj =? "group") = false ->
  let s1 := Local.deleteSelectedObject now s in
  let s2 := History.undo now' s1 in
  objects s2 = (removeId o_id id (objects s) ++ [obj])%list
  /\ connectors s2 = connectors s1
  /\ (forall c, In c (connectors s2) ->
                In c (connectors s) /\ Local.anchoredTo id c = false).
Proof.
  intros Hsel Hfind Hng s1 s2.
  pose proof (findById_some_id _ _ _ Hfind) as Hid.
  assert (E1 : exists rest,
             undoStack s1 = (rest ++ [mkUndo (U_object_delete obj) now])%list
             /\ objects s1 = removeId o_id id (objects s)
             /\ (forall c, In c (connectors s1) ->
                           In c (connectors s) /\ Local.anchoredTo id c = false)).
  { subst s1. unfold Local.deleteSelectedObject. rewrite Hsel, Hfind, Hng, Hid.
    set (r := History.recordAction (U_object_delete obj) now s).
    set (connected := map c_id (filter (Local.anchoredTo id) (connectors r))).
    destruct (removeConnectors_rest connected r) as (HO & HU & _).
    destruct (recordAction_last (U_object_delete obj) now s) as (rest & Hrest).
    exists rest. cbn [undoStack objects connectors set_selectedObject emit set_objects].
    rewrite HU, HO. split; [exact Hrest|]. split; [reflexivity|].
    intros c Hc. apply removeConnectors_connectors in Hc. destruct Hc as [Hin Hn].
    split; [exact Hin|].
    destruct (Local.anchoredTo id c) eqn:E; [|reflexivity].
    exfalso. apply Hn. unfold connected. apply in_map. apply filter_In. auto. }
  destruct E1 as (rest & HU & HO & HC).
  assert (E2 : objects s2 = (objects s1 ++ [obj])%list /\ connectors s2 = connectors s1).
  { subst s2. unfold History.undo. rewrite HU, pop_snoc. cbn. split; reflexivity. }
  destruct E2 as [E2 E3]. rewrite E2, E3, HO. auto.
Qed.

Lemma undo_of_delete_leaves_connectors_deleted_witness :
  let a := plainObject "a" "sticky" 0 0 10 10 in
  let k := mkConnector "k" "arrow" 0 0 50 50 (Some (mkAnchor "a" "right")) None
             None None None None None None None None None None in
  let s := set_selectedObject (Some "a")
             (set_connectors [k] (set_objects [a] emptyCanvas)) in
  let s1 := Local.deleteSelectedObject 1 s in
  let s2 := History.undo 2 s1 in
  objects s2 = (removeId o_id "a" (objects s) ++ [a])%list
  /\ connectors s2 = connectors s1
  /\ (forall c, In c (connectors s2) ->
                In c (connectors s) /\ Local.anchoredTo "a" c = false).
Proof.
  intros a k s.
  apply (@undo_of_delete_leaves_connectors_deleted 1 2 s "a" a); reflexivity.
Defined.

End UndoDeleteFacts.
(** ** Inbound updates *)

Section UpdateFacts.

Section Generic.
Variable A : Type.
Variable idOf : A -> string.

Lemma findById_none (id : string) (l : list A) :
  someId idOf id l = false -> findById idOf id l = None.
Proof.
  unfold someId, findById. induction l as [|e r IH]; simpl; [reflexivity|].
  destruct (idOf e =? id); [discriminate | exact IH].
Qed.

Lemma updateFirst_twice (id : string) (f : A -> A) (l : list A) :
  (forall e, idOf e = id -> idOf (f e) = id /\ f (f e) = f e) ->
  updateFirst idOf id f (updateFirst idOf id f l) = updateFirst idOf id f l.
Proof.
  intro Hf. induction l as [|e r IH]; simpl; [reflexivity|].
  destruct (String.eqb_spec (idOf e) id) as [E|E]; simpl.
  - destruct (Hf e E) as [H1 H2]. rewrite H1, String.eqb_refl, H2. reflexivity.
  - destruct (String.eqb_spec (idOf e) id); [contradiction|]. rewrite IH. reflexivity.
Qed.

Lemma updateFirst_comm (a b : string) (f g : A -> A) (l : list A) :
  a <> b ->
  (forall e, idOf e = a -> idOf (f e) = a) ->
  (forall e, idOf e = b -> idOf (g e) = b) ->
  updateFirst idOf a f (updateFirst idOf b g l)
  = updateFirst idOf b g (updateFirst idOf a f l).
Proof.
  intros Hab Hf Hg. induction l as [|e r IH]; simpl; [reflexivity|].
  destruct (String.eqb_spec (idOf e) b) as [Eb|Eb];
    destruct (String.eqb_spec (idOf e) a) as [Ea|Ea]; simpl.
  - congruence.
  - rewrite (Hg e Eb).
    destruct (String.eqb_spec b a); [congruence|].
    destruct (String.eqb_spec (idOf e) b); [reflexivity | contradiction].
  - rewrite (Hf e Ea).
    destruct (String.eqb_spec (idOf e) a); [|contradiction].
    destruct (String.eqb_spec a b); [congruence | reflexivity].
  - destruct (String.eqb_spec (idOf e) a); [contradiction|].
    destruct (String.eqb_spec (idOf e) b); [contradiction|].
    rewrite IH. reflexivity.
Qed.

Lemma findById_updateFirst_other (a b : string) (g : A -> A) (l : list A) :
  a <> b ->
  (forall e, idOf e = b -> idOf (g e) = b) ->
  findById idOf a (updateFirst idOf b g l) = findById idOf a l.
Proof.
  intros Hab Hg. unfold findById. induction l as [|e r IH]; simpl; [reflexivity|].
  destruct (String.eqb_spec (idOf e) b) as [Eb|Eb]; simpl.
  - rewrite (Hg e Eb).
    destruct (String.eqb_spec b a); [congruence|].
    destruct (String.eqb_spec (idOf e) a); [congruence | reflexivity].
  - destruct (String.eqb_spec (idOf e) a); [reflexivity | exact IH].
Qed.

Lemma findById_updateFirst_same (id : string) (f : A -> A) (l : list A) :
  (forall e, idOf e = id -> idOf (f e) = id) ->
  findById idOf id (updateFirst idOf id f l)
  = option_map f (findById idOf id l).
Proof.
  intro Hf. unfold findById. induction l as [|e r IH]; simpl; [reflexivity|].
  destruct (String.eqb_spec (idOf e) id) as [E|E]; simpl.
  - rewrite (Hf e E), String.eqb_refl. reflexivity.
  - destruct (String.eqb_spec (idOf e) id); [contradiction | exact IH].
Qed.

End Generic.

Lemma dispatch_objectUpdate (userName : string) (saveOk : bool) (e : RemoteEvent)
    (id : string) (f : CanvasObject -> CanvasObject) (s : Canvas) :
  objectUpdate e = Some (id, f) ->
  dispatch userName saveOk e s
  = match findById o_id id (objects s) with
    | Some _ => set_objects (updateFirst o_id id f (objects s)) s
    | None => s
    end.
Proof.
  destruct e; simpl; intro H; try discriminate; injection H as <- <-; reflexivity.
Qed.

Lemma objectUpdate_keeps_id (e : RemoteEvent) (id : string)
    (f : CanvasObject -> CanvasObject) :
  objectUpdate e = Some (id, f) ->
  forall obj, o_id obj = id -> o_id (f obj) = id.
Proof.
  destruct e; simpl; intro H; try discriminate; injection H as <- <-;
    intros obj Hid; assumption || reflexivity.
Qed.

(** X12.  An update that refers to an object or connector the Scene does not
    hold is dropped without any effect; so an update that overtakes the [add]
    of its target is lost. *)
Theorem update_of_missing_target_is_dropped (userName : string) (saveOk : bool)
    (e : RemoteEvent) (id : string) (s : Canvas) :
  (updatedObject e = Some id /\ someId o_id id (objects s) = false)
  \/ (updatedConnector e = Some id /\ someId c_id id (connectors s) = false) ->
  dispatch userName saveOk e s = s.
Proof.
  intros [[He Hs]|[He Hs]].
  - unfold updatedObject in He.
    destruct (objectUpdate e) as [[id' f]|] eqn:E; [|discriminate].
    injection He as ->. rewrite (@dispatch_objectUpdate userName saveOk _ _ _ s E).
    rewrite (findById_none _ _ _ Hs). reflexivity.
  - apply findById_none in Hs.
    destruct e; simpl in He; try discriminate; injection He as <-; simpl.
    + unfold Remote.handleRemoteConnectorUpdate. rewrite Hs. reflexivity.
    + unfold Remote.handleRemoteConnectorLayerChange. rewrite Hs. reflexivity.
Qed.

Lemma update_of_missing_target_is_dropped_witness :
  dispatch "u" true (Ev_object_resize "a" 1 2 3 4) emptyCanvas = emptyCanvas.
Proof.
  apply (@update_of_missing_target_is_dropped "u" true
           (Ev_object_resize "a" 1 2 3 4) "a" emptyCanvas).
  left. split; reflexivity.
Defined.

(** X13.  Updates of two different objects can be applied in either order:
    the canvas ends up the same. *)
Theorem object_updates_commute (userName : string) (saveOk : bool)
    (e1 e2 : RemoteEvent) (a b : string) (s : Canvas) :
  updatedObject e1 = Some a -> updatedObject e2 = Some b -> a <> b ->
  dispatch userName saveOk e1 (dispatch userName saveOk e2 s)
  = dispatch userName saveOk e2 (dispatch userName saveOk e1 s).
Proof.
  unfold updatedObject. intros H1 H2 Hab.
  destruct (objectUpdate e1) as [[a' f]|] eqn:E1; [|discriminate].
  destruct (objectUpdate e2) as [[b' g]|] eqn:E2; [|discriminate].
  injection H1 as ->. injection H2 as ->.
  pose proof (objectUpdate_keeps_id e1 E1) as Hf.
  pose proof (objectUpdate_keeps_id e2 E2) as Hg.
  rewrite !(fun s' => @dispatch_objectUpdate userName saveOk e1 a f s' E1).
  rewrite !(fun s' => @dispatch_objectUpdate userName saveOk e2 b g s' E2).
  pose proof (@findById_updateFirst_other _ o_id a b g (objects s) Hab Hg) as Ka.
  pose proof (@findById_updateFirst_other _ o_id b a f (objects s)
                (not_eq_sym Hab) Hf) as Kb.
  destruct (findById o_id a (objects s)) as [oa|] eqn:Fa;
    destruct (findById o_id b (objects s)) as [ob|] eqn:Fb;
    cbn [objects set_objects]; rewrite ?Ka, ?Kb, ?Fa, ?Fb; try reflexivity.
  unfold set_objects. cbn. f_equal. apply updateFirst_comm; assumption.
Qed.

Lemma object_updates_commute_witness :
  let s := set_objects [plainObject "a" "sticky" 0 0 10 10;
                        plainObject "b" "circle" 5 5 10 10] emptyCanvas in
  dispatch "u" true (Ev_object_resize "a" 1 2 3 4)
    (dispatch "u" true (Ev_object_layer "b" (Some 7)) s)
  = dispatch "u" true (Ev_object_layer "b" (Some 7))
      (dispatch "u" true (Ev_object_resize "a" 1 2 3 4) s).
Proof.
  intro s.
  apply (@object_updates_commute "u" true (Ev_object_resize "a" 1 2 3 4)
           (Ev_object_layer "b" (Some 7)) "a" "b" s);
    [reflexivity | reflexivity | discriminate].
Defined.

Lemma orElse_twice (T : Type) (new : option T) (old : T) :
  orElse new (orElse new old) = orElse new old.
Proof. destruct new; reflexivity. Qed.

Lemma objectUpdate_twice (e : RemoteEvent) (id : string)
    (f : CanvasObject -> CanvasObject) :
  objectUpdate e = Some (id, f) -> forall obj, f (f obj) = f obj.
Proof.
  destruct e; simpl; intro H; try discriminate; injection H as <- <-;
    intro obj; try reflexivity.
  - unfold assignObject. simpl. rewrite !orElse_twice. reflexivity.
  - unfold Remote.restyle. simpl.
    destruct (truthyStr color); destruct (truthyStr borderColor);
      destruct borderWidth; reflexivity.
Qed.

(** X14.  The update events of an object are idempotent: applying the same
    move, resize, style or layer event a second time changes nothing. *)
Theorem object_updates_are_idempotent (userName : string) (saveOk : bool)
    (e : RemoteEvent) (id : string) (s : Canvas) :
  updatedObject e = Some id ->
  dispatch userName saveOk e (dispatch userName saveOk e s)
  = dispatch userName saveOk e s.
Proof.
  unfold updatedObject. intro He.
  destruct (objectUpdate e) as [[id' f]|] eqn:E; [|discriminate].
  injection He as ->.
  pose proof (objectUpdate_keeps_id e E) as Hid.
  pose proof (objectUpdate_twice e E) as Htw.
  rewrite !(fun s' => @dispatch_objectUpdate userName saveOk e id f s' E).
  destruct (findById o_id id (objects s)) as [o|] eqn:F; [|rewrite F; reflexivity].
  cbn [objects set_objects].
  rewrite (@findById_updateFirst_same _ o_id id f (objects s) Hid), F.
  cbn [option_map]. unfold set_objects. cbn. f_equal.
  apply updateFirst_twice. intros x Hx. split; [apply Hid; exact Hx | apply Htw].
Qed.

Lemma object_updates_are_idempotent_witness :
  let s := set_objects [plainObject "a" "sticky" 0 0 10 10] emptyCanvas in
  dispatch "u" true (Ev_object_style "a" (Some "#fff") None None)
    (dispatch "u" true (Ev_object_style "a" (Some "#fff") None None) s)
  = dispatch "u" true (Ev_object_style "a" (Some "#fff") None None) s.
Proof.
  intro s.
  apply (@object_updates_are_idempotent "u" true
           (Ev_object_style "a" (Some "#fff") None None) "a" s).
  reflexivity.
Defined.

End UpdateFacts.
